(** * Request orchestration of the Datastore client ([src/request.ts])

    A shallow embedding of [DatastoreRequest]: transaction state, option
    composition, lookup and query pagination, [delete], [get], [merge],
    [allocateIds] and [runAggregationQuery], with the properties the
    specification states about them.

    Conventions of the embedding.
    - A JavaScript value that may be [undefined] or [null] is an [option].
    - A [throw] is the [Throw] constructor of [result]; [try]/[catch] is a
      [match] on it.
    - The object [this] is a [DatastoreRequest] record that every operation
      takes and returns.
    - An RPC is a call of [request_]: the call is recorded as a
      [RequestConfig] and its completion callback receives the next
      [CallbackArgs] of a script. Project-id resolution and the gax client
      live behind [request_] and answer through that callback.
    - Numbers that the code takes as integers (offsets, limits, epoch
      milliseconds) are in [Z]; epoch milliseconds are safe integers. *)

From stdpp Require Import base option list strings gmap.
From Stdlib Require Import ZArith Ascii.

Local Open Scope string_scope.
Local Open Scope Z_scope.

(** ** Errors and exceptions *)

Inductive Error :=
| ErrorMsg (msg : string)   (* [new Error(msg)], also errors of collaborators *)
| TypeError                 (* raised by the runtime, e.g. reading a property of [undefined] *)
| RangeError.               (* raised by the runtime, e.g. [new Array(-1)] *)

Inductive result (A : Type) :=
| Return (a : A)
| Throw (e : Error).
Arguments Return {A} a.
Arguments Throw {A} e.

Definition rbind {A B} (r : result A) (k : A → result B) : result B :=
  match r with
  | Return a => k a
  | Throw e => Throw e
  end.

Notation "'do' x <- r ; k" := (rbind r (fun x => k))
  (at level 10, x name, r at level 100, k at level 200).
Notation "'do_' r ; k" := (rbind r (fun _ => k))
  (at level 10, r at level 100, k at level 200).

Definition transactionExpiredError : string :=
  "This transaction has already expired.".
Definition readTimeAndConsistencyError : string :=
  "Read time and read consistency cannot both be specified.".
Definition keyRequiredError : string :=
  "At least one Key object is required.".
Definition incompleteKeyError : string :=
  "An incomplete key should be provided.".
Definition readConsistencyInTransactionError : string :=
  "Read consistency cannot be specified in a transaction.".
Definition readTimeInTransactionError : string :=
  "Read time cannot be specified in a transaction.".

(** ** Transaction handles and states *)

(** [string | Uint8Array]; absence is [None] at the use site. *)
Inductive Handle :=
| HString (s : string)
| HBytes (b : list Byte.byte).

(** [Buffer.byteLength]. *)
Definition byteLength (h : Handle) : nat :=
  match h with
  | HString s => String.length s
  | HBytes b => length b
  end.

(** JavaScript truthiness of a value of type
    [string | Uint8Array | undefined | null]: the empty string is falsy,
    every typed array is truthy. *)
Definition truthy_handle (h : option Handle) : bool :=
  match h with
  | None => false
  | Some (HString s) => negb (String.eqb s "")
  | Some (HBytes _) => true
  end.

Definition truthy_string (s : option string) : bool :=
  match s with
  | None => false
  | Some s => negb (String.eqb s "")
  end.

Definition truthy_number (n : option Z) : bool :=
  match n with
  | None => false
  | Some n => negb (n =? 0)
  end.

(** What indexing the table [CONSISTENCY_PROTO_CODE] yields: one of its
    codes or, the table being a plain object, a member it inherits from
    [Object.prototype] (a function or an object, always truthy). *)
Inductive ProtoCode :=
| Code (n : Z)
| Inherited (member : string).

Definition truthy_code (c : option ProtoCode) : bool :=
  match c with
  | None => false
  | Some (Code n) => negb (n =? 0)
  | Some (Inherited _) => true
  end.

(** Objects are always truthy. *)
Definition truthy_object {A} (o : option A) : bool :=
  match o with
  | None => false
  | Some _ => true
  end.

Inductive TransactionState :=
| NOT_TRANSACTION
| NOT_STARTED
| IN_PROGRESS
| EXPIRED.

Global Instance TransactionState_eq_dec : EqDecision TransactionState.
Proof. solve_decision. Defined.

Definition is_expired (s : TransactionState) : bool :=
  match s with
  | EXPIRED => true
  | _ => false
  end.

Definition is_not_started (s : TransactionState) : bool :=
  match s with
  | NOT_STARTED => true
  | _ => false
  end.

(** ** Queries

    Modelled from the spec: the [Query] class of [./query] is not part of
    this file's source; the spec's QuerySpec gives it a namespace, start
    cursor, offset and limit besides its filters, orders and projection
    (here [body]).  [offsetVal = -1] is the sentinel for no offset;
    [limitVal] is [-1] or absent for no limit.  [start], [offset] and
    [limit] are its fluent setters. *)
Record Query (B : Type) := mkQuery {
  namespace : option string;
  startVal : option string;
  offsetVal : Z;
  limitVal : option Z;
  body : B
}.
Arguments mkQuery {B}.
Arguments namespace {B}.
Arguments startVal {B}.
Arguments offsetVal {B}.
Arguments limitVal {B}.
Arguments body {B}.

Definition start {B} (cursor : option string) (q : Query B) : Query B :=
  mkQuery (namespace q) cursor (offsetVal q) (limitVal q) (body q).

Definition offset {B} (n : Z) (q : Query B) : Query B :=
  mkQuery (namespace q) (startVal q) n (limitVal q) (body q).

Definition limit {B} (n : Z) (q : Query B) : Query B :=
  mkQuery (namespace q) (startVal q) (offsetVal q) (Some n) (body q).

(** ** External collaborators

    The entity codec ([./entity]), the opaque payloads of [./query],
    [./aggregate] and google-gax, and [Buffer.toString('base64')] are
    consumed through this interface.  [formatArray] and [queryToQueryProto]
    are called under [try] in the source, so they may throw; the key codec
    is taken to translate every key it is given. *)
Class EntityCodec := {
  Key : Type;
  KeyProto : Type;
  Entity : Type;
  ResponseResult : Type;
  Value : Type;
  ValueProto : Type;
  QueryBody : Type;
  QueryProto : Type;
  Cursor : Type;
  CallOptions : Type;
  ExplainOptions : Type;
  ExplainMetrics : Type;
  RawExplainMetrics : Type;
  WrapNumbers : Type;
  AggregationProto : Type;
  CommitResponse : Type;
  keyToKeyProto : Key → KeyProto;
  keyFromKeyProto : KeyProto → Key;
  isKeyComplete : Key → bool;
  formatArray : list ResponseResult → option WrapNumbers → result (list Entity);
  queryToQueryProto : Query QueryBody → result QueryProto;
  decodeValueProto : ValueProto → result Value;
  toBase64 : Cursor → string;
  decodeExplainMetrics : RawExplainMetrics → option ExplainMetrics
}.

(** ** Request and response shapes *)

Section Shapes.
Context `{EntityCodec}.

(** [TransactionRequestOptions]: [{readOnly: {}}],
    [{readWrite: {previousTransaction}}] or [{}]. *)
Inductive TransactionRequestOptions :=
| TROReadOnly
| TROReadWrite (previousTransaction : option Handle)
| TROEmpty.

Record ITimestamp := mkTimestamp {
  seconds : option Z;
  nanos : option Z
}.

Record ReadOptions := mkReadOptions {
  readConsistency : option ProtoCode;
  ro_transaction : option Handle;
  ro_readTime : option ITimestamp;
  newTransaction : option TransactionRequestOptions;
  consistencyType : option string
}.

Definition emptyReadOptions : ReadOptions :=
  mkReadOptions None None None None None.

Inductive Mutation :=
| MDelete (k : KeyProto).

Record AggregationQueryOptions := mkAggregationQueryOptions {
  nestedQuery : QueryProto;
  aggregations : list AggregationProto
}.

(** [SharedQueryOptions], [RequestOptions] and
    [RunAggregationQueryRequest] in one record; [projectId] is filled in
    behind [request_] and is left out. *)
Record RequestOptions := mkRequestOptions {
  databaseId : option string;
  explainOptions : option ExplainOptions;
  partitionId : option string;       (* [{namespaceId}] *)
  readOptions : option ReadOptions;
  mutations : option (list Mutation);
  keys : option (list KeyProto);
  transaction : option Handle;
  mode : option string;
  query : option QueryProto;
  aggregationQuery : option AggregationQueryOptions
}.

Definition emptyRequestOptions : RequestOptions :=
  mkRequestOptions None None None None None None None None None None.

Definition set_readOptions (ro : option ReadOptions) (r : RequestOptions) :=
  mkRequestOptions (databaseId r) (explainOptions r) (partitionId r) ro
    (mutations r) (keys r) (transaction r) (mode r) (query r)
    (aggregationQuery r).
Definition set_explainOptions (e : option ExplainOptions) (r : RequestOptions) :=
  mkRequestOptions (databaseId r) e (partitionId r) (readOptions r)
    (mutations r) (keys r) (transaction r) (mode r) (query r)
    (aggregationQuery r).
Definition set_partitionId (p : option string) (r : RequestOptions) :=
  mkRequestOptions (databaseId r) (explainOptions r) p (readOptions r)
    (mutations r) (keys r) (transaction r) (mode r) (query r)
    (aggregationQuery r).
Definition set_databaseId (d : option string) (r : RequestOptions) :=
  mkRequestOptions d (explainOptions r) (partitionId r) (readOptions r)
    (mutations r) (keys r) (transaction r) (mode r) (query r)
    (aggregationQuery r).
Definition set_keys (k : option (list KeyProto)) (r : RequestOptions) :=
  mkRequestOptions (databaseId r) (explainOptions r) (partitionId r)
    (readOptions r) (mutations r) k (transaction r) (mode r) (query r)
    (aggregationQuery r).
Definition set_transaction (t : option Handle) (r : RequestOptions) :=
  mkRequestOptions (databaseId r) (explainOptions r) (partitionId r)
    (readOptions r) (mutations r) (keys r) t (mode r) (query r)
    (aggregationQuery r).
Definition set_mode (m : option string) (r : RequestOptions) :=
  mkRequestOptions (databaseId r) (explainOptions r) (partitionId r)
    (readOptions r) (mutations r) (keys r) (transaction r) m (query r)
    (aggregationQuery r).
Definition set_query (q : option QueryProto) (r : RequestOptions) :=
  mkRequestOptions (databaseId r) (explainOptions r) (partitionId r)
    (readOptions r) (mutations r) (keys r) (transaction r) (mode r) q
    (aggregationQuery r).
Definition set_aggregationQuery (a : option AggregationQueryOptions)
    (r : RequestOptions) :=
  mkRequestOptions (databaseId r) (explainOptions r) (partitionId r)
    (readOptions r) (mutations r) (keys r) (transaction r) (mode r)
    (query r) a.

Record RequestConfig := mkRequestConfig {
  client : string;
  method : string;
  reqOpts : RequestOptions;
  gaxOpts : option CallOptions
}.

(** What the completion callback of [request_] is called with. *)
Record CallbackArgs (R : Type) := mkCallbackArgs {
  cb_err : option Error;
  cb_resp : option R
}.

(** [RunQueryStreamOptions] (= [RunQueryOptions] = [CreateReadStreamOptions]). *)
Record RunQueryStreamOptions := mkOptions {
  consistency : option string;
  readTime : option Z;               (* epoch milliseconds *)
  opt_explainOptions : option ExplainOptions;
  gaxOptions : option CallOptions;
  wrapNumbers : option WrapNumbers
}.

Definition noOptions : RunQueryStreamOptions :=
  mkOptions None None None None None.

Record LookupResponse := mkLookupResponse {
  lr_transaction : option Handle;
  found : option (list ResponseResult);
  deferred : option (list KeyProto)
}.

Record QueryResultBatch := mkBatch {
  moreResults : string;
  endCursor : option Cursor;
  entityResults : option (list ResponseResult);
  skippedResults : Z
}.

Record RunQueryResponse := mkRunQueryResponse {
  rq_transaction : option Handle;
  batch : option QueryResultBatch;
  rq_explainMetrics : option RawExplainMetrics
}.

(** An aggregation result: its [aggregateProperties], an object, as the
    list of its own properties in the order of [Object.keys]. *)
Record AggregationResult := mkAggregationResult {
  aggregateProperties : option (list (string * ValueProto))
}.

Record AggregationResultBatch := mkAggregationBatch {
  aggregationResults : option (list AggregationResult)
}.

Record RunAggregationQueryResponse := mkRunAggregationQueryResponse {
  ra_transaction : option Handle;
  ra_batch : option AggregationResultBatch;
  ra_explainMetrics : option RawExplainMetrics
}.

Record RunQueryInfo := mkInfo {
  info_endCursor : option string;
  info_moreResults : option string;
  info_explainMetrics : option ExplainMetrics
}.

(** The request object [this]. [isTransactionInstance] is
    [this instanceof Transaction]; [readOnly] and [datastore_databaseId]
    are [Transaction.readOnly] and [this.datastore.options.databaseId]. *)
Record DatastoreRequest := mkRequest {
  id : option Handle;
  requests_ : list RequestOptions;
  state : TransactionState;
  isTransactionInstance : bool;
  readOnly : bool;
  datastore_databaseId : option string
}.

Definition set_id_state (h : option Handle) (s : TransactionState)
    (r : DatastoreRequest) : DatastoreRequest :=
  mkRequest h (requests_ r) s (isTransactionInstance r) (readOnly r)
    (datastore_databaseId r).

Definition push_request (x : RequestOptions) (r : DatastoreRequest)
    : DatastoreRequest :=
  mkRequest (id r) (requests_ r ++ [x]) (state r) (isTransactionInstance r)
    (readOnly r) (datastore_databaseId r).

End Shapes.

Arguments mkCallbackArgs {R}.
Arguments cb_err {R}.
Arguments cb_resp {R}.

(** ** Small pieces of the JavaScript runtime *)

(** [arrify]: a single value becomes a one-element array, an array stays,
    [undefined] and [null] become the empty array. *)
Inductive OneOrMany (A : Type) :=
| Single (a : A)
| Many (l : list A)
| Absent.
Arguments Single {A} a.
Arguments Many {A} l.
Arguments Absent {A}.

Definition arrify {A} (x : OneOrMany A) : list A :=
  match x with
  | Single a => [a]
  | Many l => l
  | Absent => []
  end.

(** [Array.isArray]. *)
Definition isArray {A} (x : OneOrMany A) : bool :=
  match x with
  | Many _ => true
  | _ => false
  end.

(** [String.prototype.toLowerCase] on the ASCII letters. *)
Definition lower_ascii (c : ascii) : ascii :=
  let n := nat_of_ascii c in
  if ((65 <=? n) && (n <=? 90))%nat then ascii_of_nat (n + 32) else c.

Fixpoint toLowerCase (s : string) : string :=
  match s with
  | EmptyString => EmptyString
  | String c s' => String (lower_ascii c) (toLowerCase s')
  end.

(** The members of [Object.prototype], which every plain object
    inherits. *)
Definition Object_prototype : list string :=
  ["constructor"; "__proto__"; "hasOwnProperty"; "isPrototypeOf";
   "propertyIsEnumerable"; "toLocaleString"; "toString"; "valueOf";
   "__defineGetter__"; "__defineSetter__"; "__lookupGetter__";
   "__lookupSetter__"].

(** A map of read consistency values to proto codes, indexed as the
    source indexes it: [CONSISTENCY_PROTO_CODE[k]] on the plain object
    [{eventual: 2, strong: 1}]. *)
Definition CONSISTENCY_PROTO_CODE (k : string) : option ProtoCode :=
  if String.eqb k "eventual" then Some (Code 2)
  else if String.eqb k "strong" then Some (Code 1)
  else if existsb (String.eqb k) Object_prototype then Some (Inherited k)
  else None.

(** ** Option composition and transaction state *)

Section Composer.
Context `{EntityCodec}.

(** [Transaction.run] options, as far as [getTransactionRequest] reads them. *)
Record TransactionOptions := mkTransactionOptions {
  to_readOnly : bool;
  to_id : option Handle
}.

Record RunOptions := mkRunOptions {
  transactionOptions : option TransactionOptions;
  run_readOnly : bool;
  transactionId : option Handle
}.

Definition emptyRunOptions : RunOptions := mkRunOptions None false None.

Definition throwOnReadTimeAndConsistency (options : RunQueryStreamOptions)
    : result unit :=
  if truthy_number (readTime options) && truthy_string (consistency options)
  then Throw (ErrorMsg readTimeAndConsistencyError)
  else Return tt.

Definition checkExpired (this : DatastoreRequest) : result unit :=
  if is_expired (state this)
  then Throw (ErrorMsg transactionExpiredError)
  else Return tt.

(** This function saves results from a successful beginTransaction call. *)
Definition parseTransactionResponse (this : DatastoreRequest)
    (resp : option (option Handle)) : DatastoreRequest :=
  match resp with
  | Some (Some h) =>
      if truthy_handle (Some h) && (0 <? byteLength h)%nat
      then set_id_state (Some h) IN_PROGRESS this
      else this
  | _ => this
  end.

Definition isTransaction (request : DatastoreRequest) : bool :=
  isTransactionInstance request.

Definition getTransactionRequest (transaction : DatastoreRequest)
    (options : RunOptions) : TransactionRequestOptions :=
  match transactionOptions options with
  | Some topts =>
      if to_readOnly topts then TROReadOnly
      else if truthy_handle (to_id topts) then TROReadWrite (to_id topts)
      else TROEmpty
  | None =>
      if run_readOnly options || readOnly transaction then TROReadOnly
      else if truthy_handle (transactionId options)
      then TROReadWrite (transactionId options)
      else if truthy_handle (id transaction)
      then TROReadWrite (id transaction)
      else TROEmpty
  end.

(** [sharedQueryOpts.readOptions], created on first use. *)
Definition readOptions_or_empty (r : RequestOptions) : ReadOptions :=
  default emptyReadOptions (readOptions r).

(** [Math.floor(readTime / 1000)] divides doubles.  For a read time that
    is a safe integer ([|t| < 2^53]) the double quotient is within [2^-10]
    of the exact one, which is whole or at least [1/1000] below the next
    whole number, so that its floor is the exact floor [t / 1000] written
    here.  Beyond the safe integers the double quotient may round up to the
    next whole number; the model is of safe integers only, and what is
    stated about the seconds carries that bound. *)
Definition getRequestOptions (this : DatastoreRequest)
    (options : RunQueryStreamOptions) : RequestOptions :=
  let sharedQueryOpts := emptyRequestOptions in
  let sharedQueryOpts :=
    if isTransaction this && is_not_started (state this)
    then
      let ro := readOptions_or_empty sharedQueryOpts in
      set_readOptions
        (Some (mkReadOptions (readConsistency ro) (ro_transaction ro)
                 (ro_readTime ro)
                 (Some (getTransactionRequest this emptyRunOptions))
                 (Some "newTransaction")))
        sharedQueryOpts
    else sharedQueryOpts in
  let sharedQueryOpts :=
    match consistency options with
    | Some c =>
        if truthy_string (Some c)
        then
          let code := CONSISTENCY_PROTO_CODE (toLowerCase c) in
          let ro := readOptions_or_empty sharedQueryOpts in
          set_readOptions
            (Some (mkReadOptions code (ro_transaction ro) (ro_readTime ro)
                     (newTransaction ro) (consistencyType ro)))
            sharedQueryOpts
        else sharedQueryOpts
    | None => sharedQueryOpts
    end in
  match readTime options with
  | Some t =>
      if truthy_number (Some t)
      then
        let ro := readOptions_or_empty sharedQueryOpts in
        set_readOptions
          (Some (mkReadOptions (readConsistency ro) (ro_transaction ro)
                   (Some (mkTimestamp (Some (t / 1000)) None))
                   (newTransaction ro) (consistencyType ro)))
          sharedQueryOpts
      else sharedQueryOpts
  | None => sharedQueryOpts
  end.

Definition getQueryOptions (this : DatastoreRequest)
    (query : Query QueryBody) (options : RunQueryStreamOptions)
    : RequestOptions :=
  let sharedQueryOpts := getRequestOptions this options in
  let sharedQueryOpts :=
    if truthy_object (opt_explainOptions options)
    then set_explainOptions (opt_explainOptions options) sharedQueryOpts
    else sharedQueryOpts in
  if truthy_string (namespace query)
  then set_partitionId (namespace query) sharedQueryOpts
  else sharedQueryOpts.

(** Throw an error if read options are not properly specified. *)
Definition throwOnTransactionErrors (request : DatastoreRequest)
    (options : RequestOptions) : result unit :=
  let isTransaction := truthy_handle (id request) in
  if isTransaction
     || match readOptions options with
        | Some ro => truthy_object (newTransaction ro)
        | None => false
        end
  then
    if match readOptions options with
       | Some ro => truthy_code (readConsistency ro)
       | None => false
       end
    then Throw (ErrorMsg readConsistencyInTransactionError)
    else if match readOptions options with
            | Some ro => truthy_object (ro_readTime ro)
            | None => false
            end
    then Throw (ErrorMsg readTimeInTransactionError)
    else Return tt
  else Return tt.

(** The synchronous part of [prepareGaxRequest_]: the request options
    handed to the gax method, or the exception of
    [throwOnTransactionErrors]. *)
Definition prepareGaxRequest_ (this : DatastoreRequest)
    (config : RequestConfig) : result RequestOptions :=
  let isTransaction := truthy_handle (id this) in
  let method := method config in
  let reqOpts := reqOpts config in
  let reqOpts :=
    if String.eqb method "commit"
    then
      if isTransaction
      then set_transaction (id this) (set_mode (Some "TRANSACTIONAL") reqOpts)
      else set_mode (Some "NON_TRANSACTIONAL") reqOpts
    else reqOpts in
  let reqOpts :=
    if truthy_string (datastore_databaseId this)
    then set_databaseId (datastore_databaseId this) reqOpts
    else reqOpts in
  let reqOpts :=
    if String.eqb method "rollback"
    then set_transaction (id this) reqOpts
    else reqOpts in
  do_ throwOnTransactionErrors this reqOpts;
  Return
    (if isTransaction
        && (String.eqb method "lookup" || String.eqb method "runQuery"
            || String.eqb method "runAggregationQuery")
     then
       let ro := readOptions_or_empty reqOpts in
       set_readOptions
         (Some (mkReadOptions (readConsistency ro) (id this)
                  (ro_readTime ro) (newTransaction ro) (consistencyType ro)))
         reqOpts
     else reqOpts).

(** [request_]: throws what [prepareGaxRequest_] throws; otherwise the
    call is issued and its callback is answered later. *)
Definition request_ (this : DatastoreRequest) (config : RequestConfig)
    : result RequestOptions :=
  prepareGaxRequest_ this config.

End Composer.

(** ** Streams and callbacks *)

(** How a call that takes a completion callback turns out. *)
Inductive Outcome (R : Type) :=
| Thrown (e : Error)                               (* the call throws synchronously *)
| Callback (err : option Error) (res : option R)   (* the callback is called with [(err, res)] *)
| Awaiting                                         (* an RPC is in flight *)
| NoCallback                                       (* the call returned; the callback is never called *)
| EscapedLater (e : Error).                        (* an exception left a continuation uncaught *)
Arguments Thrown {R} e.
Arguments Callback {R} err res.
Arguments Awaiting {R}.
Arguments NoCallback {R}.
Arguments EscapedLater {R} e.

Inductive StreamStatus :=
| Pending                  (* an RPC is in flight *)
| Ended                    (* [stream.push(null)] *)
| Destroyed (e : Error)    (* [stream.destroy(e)] *)
| ConsumerEnded            (* [split] found the stream ended by its consumer *)
| Escaped (e : Error).     (* an exception left a continuation uncaught *)

(** The consumer of a stream: [None] reads to the end, [Some n] ends the
    stream after [n] more entities. *)
Definition Consumer := option nat.

(** [split(array, stream)] of split-array-stream: pushes the items one at
    a time, checking before each push and once after the last that the
    stream has not been ended; resolves to whether it has. *)
Definition split {A} (entities : list A) (consumer : Consumer)
    : list A * bool * Consumer :=
  match consumer with
  | None => (entities, false, None)
  | Some n =>
      if (n <=? length entities)%nat
      then (take n entities, true, Some 0%nat)
      else (entities, false, Some (n - length entities)%nat)
  end.

Section Streams.
Context `{EntityCodec}.

(** What is observed of a stream once the replies of a script have been
    delivered: the request object, the RPCs issued in order, the
    entities and the ['info'] events emitted, and how the stream stands. *)
Record StreamRun := mkRun {
  run_this : DatastoreRequest;
  run_rpcs : list RequestConfig;
  run_emitted : list Entity;
  run_infos : list RunQueryInfo;
  run_status : StreamStatus
}.

(** One more round in front of the rest of a run. *)
Definition round_then (cfg : RequestConfig) (emitted : list Entity)
    (rest : StreamRun) : StreamRun :=
  mkRun (run_this rest) (cfg :: run_rpcs rest)
    (emitted ++ run_emitted rest) (run_infos rest) (run_status rest).

(** What a response handler decides. *)
Inductive Step (N : Type) :=
| Stop (this : DatastoreRequest) (emitted : list Entity)
       (infos : list RunQueryInfo) (status : StreamStatus)
| Next (this : DatastoreRequest) (emitted : list Entity) (next : N)
       (consumer : Consumer).
Arguments Stop {N}.
Arguments Next {N}.

(** *** createReadStream *)

(** The stream returned by [createReadStream]: what its closure holds. *)
Record ReadStream := mkReadStream {
  rs_keys : list KeyProto;
  rs_reqOpts : RequestOptions;
  rs_options : RunQueryStreamOptions
}.

Definition createReadStream (this : DatastoreRequest)
    (keys : OneOrMany Key) (options : RunQueryStreamOptions)
    : result ReadStream :=
  let keys := map keyToKeyProto (arrify keys) in
  if (length keys =? 0)%nat
  then Throw (ErrorMsg keyRequiredError)
  else
    do_ checkExpired this;
    do_ throwOnReadTimeAndConsistency options;
    let reqOpts := getRequestOptions this options in
    do_ throwOnTransactionErrors this reqOpts;
    Return (mkReadStream keys reqOpts options).

Definition lookupConfig (s : ReadStream) (keys : list KeyProto)
    : RequestConfig :=
  mkRequestConfig "DatastoreClient" "lookup"
    (set_keys (Some keys) (rs_reqOpts s)) (gaxOptions (rs_options s)).

(** The callback [(err, resp) => ...] of the lookup request. *)
Definition onLookupResponse (s : ReadStream) (this : DatastoreRequest)
    (consumer : Consumer) (args : CallbackArgs LookupResponse)
    : Step (list KeyProto) :=
  let this := parseTransactionResponse this (lr_transaction <$> cb_resp args) in
  match cb_err args with
  | Some err => Stop this [] [] (Destroyed err)
  | None =>
      let formatted :=
        match cb_resp args with
        | None => Throw TypeError
        | Some resp =>
            match found resp with
            | None => Throw TypeError
            | Some results => formatArray results (wrapNumbers (rs_options s))
            end
        end in
      match formatted with
      | Throw err => Stop this [] [] (Destroyed err)
      | Return entities =>
          let nextKeys :=
            map keyToKeyProto
              (map keyFromKeyProto
                 (default [] (cb_resp args ≫= deferred))) in
          let '(pushed, streamEnded, consumer) := split entities consumer in
          if streamEnded then Stop this pushed [] ConsumerEnded
          else if (0 <? length nextKeys)%nat
          then Next this pushed nextKeys consumer
          else Stop this pushed [] Ended
      end
  end.

(** [makeRequest(keys)] and the rounds that follow from it. *)
Fixpoint makeLookupRequest (s : ReadStream)
    (script : list (CallbackArgs LookupResponse))
    (this : DatastoreRequest) (keys : list KeyProto) (consumer : Consumer)
    : StreamRun :=
  let cfg := lookupConfig s keys in
  match request_ this cfg with
  | Throw e => mkRun this [] [] [] (Escaped e)
  | Return _ =>
      match script with
      | [] => mkRun this [cfg] [] [] Pending
      | args :: script =>
          match onLookupResponse s this consumer args with
          | Stop this emitted infos status =>
              mkRun this [cfg] emitted infos status
          | Next this emitted nextKeys consumer =>
              round_then cfg emitted
                (makeLookupRequest s script this nextKeys consumer)
          end
      end
  end.

(** The stream once it is being read. *)
Definition readStream_run (s : ReadStream)
    (script : list (CallbackArgs LookupResponse))
    (this : DatastoreRequest) (consumer : Consumer) : StreamRun :=
  makeLookupRequest s script this (rs_keys s) consumer.

(** *** get *)

(** The second argument of the [get] callback: [results[0]] for a single
    key, [results] for an array. *)
Inductive GetResult :=
| Bare (e : option Entity)
| Sequence (l : list Entity).

(** A stream piped into [concat], with ['error'] bound to the callback. *)
Definition concat_outcome {R} (run : StreamRun)
    (finish : list Entity → option RunQueryInfo → R) : Outcome R :=
  match run_status run with
  | Ended => Callback None (Some (finish (run_emitted run) (last (run_infos run))))
  | Destroyed e => Callback (Some e) None
  | Pending => Awaiting
  | ConsumerEnded => NoCallback
  | Escaped e => EscapedLater e
  end.

Definition get (this : DatastoreRequest) (keys : OneOrMany Key)
    (options : RunQueryStreamOptions)
    (script : list (CallbackArgs LookupResponse))
    : DatastoreRequest * list RequestConfig * Outcome GetResult :=
  match createReadStream this keys options with
  | Return stream =>
      let run := readStream_run stream script this None in
      let isSingleLookup := negb (isArray keys) in
      (run_this run, run_rpcs run,
       concat_outcome run
         (fun results _ =>
            if isSingleLookup then Bare (results !! 0%nat)
            else Sequence results))
  | Throw err => (this, [], Callback (Some err) None)
  end.

(** *** delete *)

(** [{mutations: arrify(keys).map(key => ({delete: keyToKeyProto(key)}))}]. *)
Definition deleteReqOpts (keys : OneOrMany Key) : RequestOptions :=
  mkRequestOptions None None None None
    (Some (map (fun key => MDelete (keyToKeyProto key)) (arrify keys)))
    None None None None None.

(** An absent [gaxOptions] stands for the empty options object. *)
Definition delete (this : DatastoreRequest) (keys : OneOrMany Key)
    (gaxOptions : option CallOptions)
    (script : list (CallbackArgs CommitResponse))
    : DatastoreRequest * list RequestConfig * Outcome CommitResponse :=
  let reqOpts := deleteReqOpts keys in
  if truthy_handle (id this)
  then (push_request reqOpts this, [], NoCallback)
  else
    let cfg := mkRequestConfig "DatastoreClient" "commit" reqOpts gaxOptions in
    match request_ this cfg with
    | Throw e => (this, [], Thrown e)
    | Return _ =>
        (this, [cfg],
         match script with
         | [] => Awaiting
         | args :: _ => Callback (cb_err args) (cb_resp args)
         end)
    end.

(** *** allocateIds *)

(** The number [allocations], as far as [new Array] tells numbers apart:
    an integer, or a number that is none (a fraction, [NaN], an
    infinity). *)
Inductive AllocationCount :=
| Integer (z : Z)
| NonInteger.

(** [AllocateIdsOptions | number]. *)
Inductive AllocateIdsArg :=
| Allocations (n : AllocationCount)
| AllocateIdsOptions (allocations : option AllocationCount)
    (gaxOptions : option CallOptions).

Record AllocateIdsResponse := mkAllocateIdsResponse {
  ai_keys : option (list KeyProto)
}.

(** The length of [new Array(n)]: [n] for an integer [0 ≤ n < 2^32]; any
    other number raises a [RangeError]; [new Array(undefined)] has one
    element. *)
Definition new_Array_length (n : option AllocationCount) : result nat :=
  match n with
  | None => Return 1%nat
  | Some (Integer z) =>
      if (0 <=? z) && (z <? 2 ^ 32) then Return (Z.to_nat z)
      else Throw RangeError
  | Some NonInteger => Throw RangeError
  end.

(** [new Array(n).fill(x)]. *)
Definition filled_array {A} (n : option AllocationCount) (x : A)
    : result (list A) :=
  do len <- new_Array_length n;
  Return (replicate len x).

Definition allocateIds (this : DatastoreRequest) (key : Key)
    (options : AllocateIdsArg)
    (script : list (CallbackArgs AllocateIdsResponse))
    : DatastoreRequest * list RequestConfig * Outcome (list Key) :=
  if isKeyComplete key
  then (this, [], Thrown (ErrorMsg incompleteKeyError))
  else
    let '(allocations, gaxOptions) :=
      match options with
      | Allocations n => (Some n, None)
      | AllocateIdsOptions a g => (a, g)
      end in
    match filled_array allocations (keyToKeyProto key) with
    | Throw e => (this, [], Thrown e)
    | Return keys =>
        let cfg :=
          mkRequestConfig "DatastoreClient" "allocateIds"
            (set_keys (Some keys) emptyRequestOptions)
            gaxOptions in
        match request_ this cfg with
        | Throw e => (this, [], Thrown e)
        | Return _ =>
            (this, [cfg],
             match script with
             | [] => Awaiting
             | args :: _ =>
                 match cb_err args, cb_resp args with
                 | Some err, _ => Callback (Some err) None
                 | None, None => EscapedLater TypeError
                 | None, Some resp =>
                     Callback None
                       (Some (map keyFromKeyProto (default [] (ai_keys resp))))
                 end
             end)
        end
    end.

End Streams.

Arguments Stop {_ N}.
Arguments Next {_ N}.

(** ** Queries *)

Section Queries.
Context `{EntityCodec}.

(** [getInfoFromStats]: the explain metrics of a response, when it has
    any.  The decoding of the plan summary and execution statistics is
    the collaborator [decodeExplainMetrics], which yields nothing when
    neither is populated. *)
Definition getInfoFromStats (explainMetrics : option RawExplainMetrics)
    : RunQueryInfo :=
  mkInfo None None (explainMetrics ≫= decodeExplainMetrics).

(** The stream returned by [runQueryStream]: what its closure holds. *)
Record QueryStream := mkQueryStream {
  qs_query : Query QueryBody;
  qs_sharedQueryOpts : RequestOptions;
  qs_options : RunQueryStreamOptions
}.

Definition runQueryStream (this : DatastoreRequest)
    (query : Query QueryBody) (options : RunQueryStreamOptions)
    : result QueryStream :=
  do_ checkExpired this;
  do_ throwOnReadTimeAndConsistency options;
  let sharedQueryOpts := getQueryOptions this query options in
  do_ throwOnTransactionErrors this sharedQueryOpts;
  Return (mkQueryStream query sharedQueryOpts options).

Definition runQueryConfig (s : QueryStream) (queryProto : QueryProto)
    : RequestConfig :=
  mkRequestConfig "DatastoreClient" "runQuery"
    (set_query (Some queryProto) (qs_sharedQueryOpts s))
    (gaxOptions (qs_options s)).

(** The query of the next round, built when the batch is
    ["NOT_FINISHED"]; reading [entityResults.length] of an absent
    [entityResults] raises. *)
Definition nextQuery (query : Query QueryBody) (info : RunQueryInfo)
    (b : QueryResultBatch) : result (Query QueryBody) :=
  let offset_ := if offsetVal query =? -1 then 0 else offsetVal query in
  let query :=
    offset (offset_ - skippedResults b) (start (info_endCursor info) query) in
  let limit_ := limitVal query in
  if truthy_number limit_ && (-1 <? default 0 limit_)
  then
    match entityResults b with
    | Some results =>
        Return (limit (default 0 limit_ - Z.of_nat (length results)) query)
    | None => Throw TypeError
    end
  else Return query.

Definition onResultSet (s : QueryStream) (this : DatastoreRequest)
    (query : Query QueryBody) (consumer : Consumer)
    (args : CallbackArgs RunQueryResponse) : Step (Query QueryBody) :=
  let this := parseTransactionResponse this (rq_transaction <$> cb_resp args) in
  match cb_err args with
  | Some err => Stop this [] [] (Destroyed err)
  | None =>
      match cb_resp args with
      | None => Stop this [] [] (Escaped TypeError)
      | Some resp =>
          match batch resp with
          | None =>
              (* no results: send any stats back and end the stream *)
              Stop this [] [getInfoFromStats (rq_explainMetrics resp)] Ended
          | Some b =>
              let info :=
                mkInfo (toBase64 <$> endCursor b) (Some (moreResults b))
                  (info_explainMetrics
                     (getInfoFromStats (rq_explainMetrics resp))) in
              let formatted :=
                match entityResults b with
                | Some results =>
                    formatArray results (wrapNumbers (qs_options s))
                | None => Return []
                end in
              match formatted with
              | Throw err => Stop this [] [] (Destroyed err)
              | Return entities =>
                  let '(pushed, streamEnded, consumer) :=
                    split entities consumer in
                  if streamEnded then Stop this pushed [] ConsumerEnded
                  else if negb (String.eqb (moreResults b) "NOT_FINISHED")
                  then Stop this pushed [info] Ended
                  else
                    match nextQuery query info b with
                    | Return query => Next this pushed query consumer
                    | Throw err => Stop this pushed [] (Escaped err)
                    end
              end
          end
      end
  end.

(** [makeRequest(query)] and the rounds that follow from it.  A query
    that does not translate is reported through [onResultSet] on the
    next tick, which destroys the stream. *)
Fixpoint makeQueryRequest (s : QueryStream)
    (script : list (CallbackArgs RunQueryResponse))
    (this : DatastoreRequest) (query : Query QueryBody)
    (consumer : Consumer) : StreamRun :=
  match queryToQueryProto query with
  | Throw e => mkRun this [] [] [] (Destroyed e)
  | Return queryProto =>
      let cfg := runQueryConfig s queryProto in
      match request_ this cfg with
      | Throw e => mkRun this [] [] [] (Escaped e)
      | Return _ =>
          match script with
          | [] => mkRun this [cfg] [] [] Pending
          | args :: script =>
              match onResultSet s this query consumer args with
              | Stop this emitted infos status =>
                  mkRun this [cfg] emitted infos status
              | Next this emitted query consumer =>
                  round_then cfg emitted
                    (makeQueryRequest s script this query consumer)
              end
          end
      end
  end.

Definition queryStream_run (s : QueryStream)
    (script : list (CallbackArgs RunQueryResponse))
    (this : DatastoreRequest) (consumer : Consumer) : StreamRun :=
  makeQueryRequest s script this (qs_query s) consumer.

Definition runQuery (this : DatastoreRequest) (query : Query QueryBody)
    (options : RunQueryStreamOptions)
    (script : list (CallbackArgs RunQueryResponse))
    : DatastoreRequest * list RequestConfig
      * Outcome (list Entity * option RunQueryInfo) :=
  match runQueryStream this query options with
  | Return stream =>
      let run := queryStream_run stream script this None in
      (run_this run, run_rpcs run,
       concat_outcome run (fun results info => (results, info)))
  | Throw err => (this, [], Callback (Some err) None)
  end.

(** *** runAggregationQuery *)

(** [list.map(f)] for an [f] that may throw: the elements are mapped
    from the first on, and the first exception ends the mapping. *)
Fixpoint map_throwing {A B} (f : A → result B) (l : list A)
    : result (list B) :=
  match l with
  | [] => Return []
  | x :: l =>
      do y <- f x;
      do ys <- map_throwing f l;
      Return (y :: ys)
  end.

(** The results handed to the callback of [runAggregationQuery]: for
    each aggregation result, in order, the object of its aggregate
    properties with every value decoded.  Reading [.map] of an absent
    [aggregationResults] and the keys of absent [aggregateProperties]
    raises, and so does a value that [decodeValueProto] refuses. *)
Definition decodeAggregationResults (b : AggregationResultBatch)
    : result (list (list (string * Value))) :=
  match aggregationResults b with
  | None => Throw TypeError
  | Some results =>
      map_throwing
        (fun aggregationResult =>
           match aggregateProperties aggregationResult with
           | None => Throw TypeError
           | Some properties =>
               map_throwing
                 (fun kv : string * ValueProto =>
                    do value <- decodeValueProto kv.2;
                    Return (kv.1, value))
                 properties
           end)
        results
  end.

(** An [AggregateQuery]: its [query] and what [toProto()] returns. *)
Record AggregateQuery := mkAggregateQuery {
  aq_query : Query QueryBody;
  aq_toProto : list AggregationProto
}.

Definition runAggregationQuery (this : DatastoreRequest)
    (query : AggregateQuery) (options : RunQueryStreamOptions)
    (script : list (CallbackArgs RunAggregationQueryResponse))
    : DatastoreRequest * list RequestConfig
      * Outcome (list (list (string * Value)) * RunQueryInfo) :=
  if is_expired (state this)
  then (this, [], Callback (Some (ErrorMsg transactionExpiredError)) None)
  else if truthy_number (readTime options)
          && truthy_string (consistency options)
  then (this, [], Callback (Some (ErrorMsg readTimeAndConsistencyError)) None)
  else
    match queryToQueryProto (aq_query query) with
    | Throw e => (this, [], Callback (Some e) None)   (* on the next tick *)
    | Return queryProto =>
        let sharedQueryOpts := getQueryOptions this (aq_query query) options in
        match throwOnTransactionErrors this sharedQueryOpts with
        | Throw error => (this, [], Callback (Some error) None)
        | Return _ =>
            let reqOpts :=
              set_aggregationQuery
                (Some (mkAggregationQueryOptions queryProto (aq_toProto query)))
                sharedQueryOpts in
            let cfg :=
              mkRequestConfig "DatastoreClient" "runAggregationQuery"
                reqOpts (gaxOptions options) in
            match request_ this cfg with
            | Throw e => (this, [], Thrown e)
            | Return _ =>
                match script with
                | [] => (this, [cfg], Awaiting)
                | args :: _ =>
                    let res := cb_resp args in
                    let info := getInfoFromStats (res ≫= ra_explainMetrics) in
                    let this :=
                      parseTransactionResponse this (ra_transaction <$> res) in
                    (this, [cfg],
                     match res ≫= ra_batch with
                     | Some b =>
                         match decodeAggregationResults b with
                         | Return finalResults =>
                             Callback (cb_err args) (Some (finalResults, info))
                         | Throw e =>
                             (* thrown inside the callback of [request_] *)
                             EscapedLater e
                         end
                     | None => Callback (cb_err args) (Some ([], info))
                     end)
                end
            end
        end
    end.

End Queries.

(** ** merge *)

Section Merge.
Context `{EntityCodec}.

(** Entity data: property names to values. *)
Definition Data := gmap string Value.

Record PrepareEntityObjectResponse := mkEntityObject {
  eo_key : option Key;
  eo_data : option Data;
  eo_method : option string
}.

(** The two formats [merge] and [save] accept: an entity object that
    carries its key under [entity.KEY_SYMBOL], or [{key, data}]. *)
Inductive EntityArg :=
| KeyedEntity (key : Key) (properties : Data)
| EntityDescriptor (obj : PrepareEntityObjectResponse).

Definition prepareEntityObject_ (obj : EntityArg)
    : PrepareEntityObjectResponse :=
  match obj with
  | KeyedEntity key entityObject =>
      mkEntityObject (Some key) (Some entityObject) None
  | EntityDescriptor entityObject => entityObject
  end.

(** [Object.assign({}, data, obj.data)]: the caller's properties over
    the stored ones. *)
Definition assign (data objData : option Data) : Data :=
  default ∅ objData ∪ default ∅ data.

(** How the internal transaction of [merge] behaves.  The [Transaction]
    class is not part of this file's source: its [run], [get], [commit]
    and [rollback] are given by what they answer.  [tx_fetches] lists
    the gets that have settled, in the order in which they settled, each
    with the position of its entity. *)
Record TransactionScript := mkTransactionScript {
  tx_run : option Error;
  tx_fetches : list (nat * result (option Data));
  tx_commit : result CommitResponse;
  tx_rollback : option Error
}.

(** What the internal transaction has been asked to do so far. *)
Record TxLog := mkTxLog {
  log_saved : list PrepareEntityObjectResponse;   (* [transaction.save] calls *)
  log_commits : nat;
  log_rollbacks : nat
}.

(** An awaited promise. *)
Inductive Promise (A : Type) :=
| Fulfilled (a : A)
| Rejected (e : Error)
| Unsettled.
Arguments Fulfilled {A} a.
Arguments Rejected {A} e.
Arguments Unsettled {A}.

(** The body of an [async] function over the transaction log. *)
Definition Async (A : Type) := TxLog → TxLog * Promise A.

Definition resolve {A} (a : A) : Async A := fun log => (log, Fulfilled a).

Definition await {A B} (p : Async A) (k : A → Async B) : Async B :=
  fun log =>
    match p log with
    | (log, Fulfilled a) => k a log
    | (log, Rejected e) => (log, Rejected e)
    | (log, Unsettled) => (log, Unsettled)
    end.

(** [try { body } catch (err) { handler }]. *)
Definition try_catch {A} (body : Async A) (handler : Error → Async A)
    : Async A :=
  fun log =>
    match body log with
    | (log, Rejected e) => handler e log
    | settled => settled
    end.

(** The bodies of [arrify(entities).map(async objEntity => ...)] as the
    gets settle: every get that resolves is followed by its save, also
    when another get has rejected before it; the first that rejects
    rejects [Promise.all]. *)
Fixpoint settle (objs : list PrepareEntityObjectResponse)
    (fetches : list (nat * result (option Data)))
    (saved : list PrepareEntityObjectResponse)
    : list PrepareEntityObjectResponse * option Error :=
  match fetches with
  | [] => (saved, None)
  | (i, Throw err) :: fetches => ((settle objs fetches saved).1, Some err)
  | (i, Return data) :: fetches =>
      match objs !! i with
      | Some obj =>
          settle objs fetches
            (saved ++ [mkEntityObject (eo_key obj)
                         (Some (assign data (eo_data obj)))
                         (Some "upsert")])
      | None => settle objs fetches saved
      end
  end.

Definition fetch_and_save_all (tx : TransactionScript)
    (objs : list PrepareEntityObjectResponse) : Async unit :=
  fun log =>
    match settle objs (tx_fetches tx) (log_saved log) with
    | (saved, Some err) =>
        (mkTxLog saved (log_commits log) (log_rollbacks log), Rejected err)
    | (saved, None) =>
        (mkTxLog saved (log_commits log) (log_rollbacks log),
         if (length (tx_fetches tx) <? length objs)%nat
         then Unsettled else Fulfilled tt)
    end.

Definition transaction_commit (tx : TransactionScript)
    : Async CommitResponse :=
  fun log =>
    (mkTxLog (log_saved log) (S (log_commits log)) (log_rollbacks log),
     match tx_commit tx with
     | Return response => Fulfilled response
     | Throw err => Rejected err
     end).

Definition transaction_rollback (tx : TransactionScript) : Async unit :=
  fun log =>
    (mkTxLog (log_saved log) (log_commits log) (S (log_rollbacks log)),
     match tx_rollback tx with
     | None => Fulfilled tt
     | Some err => Rejected err
     end).

(** The [async (err) => ...] handed to [transaction.run]; it resolves to
    what the callback of [merge] is called with. *)
Definition merge_body (entities : OneOrMany EntityArg)
    (tx : TransactionScript) : Async (Outcome CommitResponse) :=
  match tx_run tx with
  | Some err =>
      await
        (try_catch (transaction_rollback tx)
           (fun error => resolve tt  (* even a failed rollback should be transparent *)))
        (fun _ => resolve (Callback (Some err) None))
  | None =>
      try_catch
        (await
           (fetch_and_save_all tx (map prepareEntityObject_ (arrify entities)))
           (fun _ =>
              await (transaction_commit tx)
                (fun response => resolve (Callback None (Some response)))))
        (fun err =>
           await
             (try_catch (transaction_rollback tx)
                (fun error => resolve tt  (* even a failed rollback should be transparent *)))
             (fun _ => resolve (Callback (Some err) None)))
  end.

Record MergeRun := mkMergeRun {
  merge_log : TxLog;
  merge_outcome : Outcome CommitResponse
}.

Definition merge (entities : OneOrMany EntityArg) (tx : TransactionScript)
    : MergeRun :=
  match merge_body entities tx (mkTxLog [] 0 0) with
  | (log, Fulfilled outcome) => mkMergeRun log outcome
  | (log, Rejected e) => mkMergeRun log (EscapedLater e)
  | (log, Unsettled) => mkMergeRun log Awaiting
  end.

End Merge.

Arguments Fulfilled {A} a.
Arguments Rejected {A} e.
Arguments Unsettled {A}.

(** ** A concrete codec

    Keys, key protos, entities and cursors are strings and every
    translation is the identity; used to run the model on examples. *)
Definition stringCodec : EntityCodec := {|
  Key := string;
  KeyProto := string;
  Entity := string;
  ResponseResult := string;
  Value := Z;
  ValueProto := Z;
  QueryBody := string;
  QueryProto := Query string;
  Cursor := string;
  CallOptions := unit;
  ExplainOptions := unit;
  ExplainMetrics := unit;
  RawExplainMetrics := unit;
  WrapNumbers := bool;
  AggregationProto := string;
  CommitResponse := unit;
  keyToKeyProto := fun k => k;
  keyFromKeyProto := fun k => k;
  isKeyComplete := fun k => negb (String.eqb k "");
  formatArray := fun results _ => Return results;
  queryToQueryProto := fun q => Return q;
  decodeValueProto := fun v => Return v;
  toBase64 := fun c => c;
  decodeExplainMetrics := fun _ => None
|}.

(** A root client, and transactions in each state. *)
Definition datastoreClient : @DatastoreRequest stringCodec :=
  mkRequest None [] NOT_TRANSACTION false false None.

Definition newTransaction_ : @DatastoreRequest stringCodec :=
  mkRequest None [] NOT_STARTED true false None.

Definition runningTransaction : @DatastoreRequest stringCodec :=
  mkRequest (Some (HString "tx-1")) [] IN_PROGRESS true false None.

Definition expiredTransaction : @DatastoreRequest stringCodec :=
  mkRequest (Some (HString "tx-1")) [] EXPIRED true false None.

(** A lookup reply with the given found results and deferred keys. *)
Definition lookupReply `{EntityCodec} (results : list ResponseResult)
    (deferredKeys : list KeyProto) : CallbackArgs LookupResponse :=
  mkCallbackArgs None
    (Some (mkLookupResponse None (Some results) (Some deferredKeys))).

(** [this] with another state. *)
Definition with_state `{EntityCodec} (s : TransactionState)
    (this : DatastoreRequest) : DatastoreRequest :=
  set_id_state (id this) s this.

(** A response carries a transaction handle when the field is there and
    not empty. *)
Definition carries_handle (transaction : option (option Handle)) : bool :=
  match transaction with
  | Some (Some h) => (0 <? byteLength h)%nat
  | _ => false
  end.

(** ** What the statements observe *)

Section Observations.
Context `{EntityCodec}.

Definition step_this {N} (st : Step N) : DatastoreRequest :=
  match st with
  | Stop this _ _ _ => this
  | Next this _ _ _ => this
  end.

(** The state after a reply has been processed. *)
Definition state_after (transaction : option (option Handle))
    (s : TransactionState) : TransactionState :=
  if carries_handle transaction then IN_PROGRESS else s.

Definition lookup_handle (args : CallbackArgs LookupResponse) : bool :=
  carries_handle (lr_transaction <$> cb_resp args).

Definition query_handle (args : CallbackArgs RunQueryResponse) : bool :=
  carries_handle (rq_transaction <$> cb_resp args).

Definition aggregation_handle
    (args : CallbackArgs RunAggregationQueryResponse) : bool :=
  carries_handle (ra_transaction <$> cb_resp args).

Definition commitConfig (keys : OneOrMany Key)
    (gaxOptions : option CallOptions) : RequestConfig :=
  mkRequestConfig "DatastoreClient" "commit" (deleteReqOpts keys) gaxOptions.

(** The error of the first get that rejected. *)
Fixpoint first_rejection (fetches : list (nat * result (option Data)))
    : option Error :=
  match fetches with
  | [] => None
  | (_, Throw err) :: _ => Some err
  | (_, Return _) :: fetches => first_rejection fetches
  end.

(** The limit of the next round: decremented when it is set and
    positive, untouched otherwise. *)
Definition remaining_limit (limit_ : option Z) (returned : nat) : option Z :=
  match limit_ with
  | Some l => if 0 <? l then Some (l - Z.of_nat returned) else Some l
  | None => None
  end.

(** The deferred keys of a reply: [resp.deferred || []]. *)
Definition deferred_of (args : CallbackArgs LookupResponse) : list KeyProto :=
  default [] (cb_resp args ≫= deferred).

(** The deferred keys decoded and encoded again, as [makeRequest] receives
    them. *)
Definition nextKeys_of (args : CallbackArgs LookupResponse) : list KeyProto :=
  map keyToKeyProto (map keyFromKeyProto (deferred_of args)).

(** The entities a round emits, or why it fails. *)
Definition round_entities (s : ReadStream)
    (args : CallbackArgs LookupResponse) : result (list Entity) :=
  match cb_err args with
  | Some err => Throw err
  | None =>
      match cb_resp args ≫= found with
      | Some results => formatArray results (wrapNumbers (rs_options s))
      | None => Throw TypeError
      end
  end.


End Observations.

(** ** Sample requests and replies over the string codec *)

Section Samples.
Existing Instance stringCodec.

Definition bothOptions : RunQueryStreamOptions :=
  mkOptions (Some "strong") (Some 1700000000123) None None None.

Definition someQuery : Query QueryBody :=
  mkQuery None None 5 (Some 10) "Company".

Definition handleReply : CallbackArgs LookupResponse :=
  mkCallbackArgs None
    (Some (mkLookupResponse (Some (HString "tx-2")) (Some ["a"]) None)).

Definition notFinishedBatch : QueryResultBatch :=
  mkBatch "NOT_FINISHED" (Some "cursor-1") (Some ["e1"; "e2"; "e3"]) 5.

Definition notFinishedResponse : RunQueryResponse :=
  mkRunQueryResponse None (Some notFinishedBatch) None.

Definition notFinishedReply : CallbackArgs RunQueryResponse :=
  mkCallbackArgs None (Some notFinishedResponse).

Definition someStream : QueryStream :=
  mkQueryStream someQuery emptyRequestOptions noOptions.

Definition threeEntities : list Entity := ["e1"; "e2"; "e3"].

Definition abcStream : ReadStream :=
  @mkReadStream stringCodec ["A"; "B"; "C"] emptyRequestOptions noOptions.

Definition abcScript : list (CallbackArgs LookupResponse) :=
  [@lookupReply stringCodec ["A"] ["B"; "C"];
   @lookupReply stringCodec ["B"; "C"] []].

Definition someEntity : EntityArg := @KeyedEntity stringCodec "k" ∅.

Definition fetchFails : list (nat * result (option Data)) :=
  [(0%nat, Throw (ErrorMsg "fetch failed"))].

Definition kStream : ReadStream :=
  @mkReadStream stringCodec ["k"] emptyRequestOptions noOptions.

End Samples.

(** ** Explain metrics

    [getInfoFromStats] with the structure of the payload written out.  The
    struct decoder ([decodeStruct], protobuf's [Struct] to JSON) and
    [parseInt] belong to the runtime and are parameters. *)

Module Metrics.

(** A JavaScript number, as far as the decoder can tell them apart. *)
Inductive JSNumber :=
| Num (z : Z)
| NaN.

Section Decoder.
Variables Struct JSONValue Obj : Type.
Variable decodeStruct : Struct → JSONValue.
Variable parseInt : string → JSNumber.

(** A statistic as it arrives: a number, a decimal string, or an object
    (a [Long], a [Duration]). *)
Inductive Stat :=
| StatNumber (n : JSNumber)
| StatString (s : string)
| StatObject (o : Obj).

Inductive DecodedStat :=
| DecodedNumber (n : JSNumber)
| DecodedObject (o : Obj).

Definition truthy_stat (x : option Stat) : bool :=
  match x with
  | None => false
  | Some (StatNumber (Num z)) => negb (z =? 0)
  | Some (StatNumber NaN) => false
  | Some (StatString s) => negb (String.eqb s "")
  | Some (StatObject _) => true
  end.

(** [typeof x === 'string' ? parseInt(x) : x]. *)
Definition normalise (x : Stat) : DecodedStat :=
  match x with
  | StatString s => DecodedNumber (parseInt s)
  | StatNumber n => DecodedNumber n
  | StatObject o => DecodedObject o
  end.

(** [if (x) { Object.assign(executionStats, {field: ...}) }]. *)
Definition decode_stat (x : option Stat) : option DecodedStat :=
  match x with
  | Some v => if truthy_stat (Some v) then Some (normalise v) else None
  | None => None
  end.

Record IPlanSummary := mkIPlanSummary {
  indexesUsed : option (list Struct)
}.

Record IExecutionStats := mkIExecutionStats {
  resultsReturned : option Stat;
  executionDuration : option Stat;
  readOperations : option Stat;
  debugStats : option Struct
}.

Record IExplainMetrics := mkIExplainMetrics {
  planSummary : option IPlanSummary;
  executionStats : option IExecutionStats
}.

Record PlanSummary := mkPlanSummary {
  ps_indexesUsed : list JSONValue
}.

Record ExecutionStats := mkExecutionStats {
  es_resultsReturned : option DecodedStat;
  es_executionDuration : option DecodedStat;
  es_readOperations : option DecodedStat;
  es_debugStats : option JSONValue
}.

Record DecodedExplainMetrics := mkDecodedExplainMetrics {
  em_planSummary : option PlanSummary;
  em_executionStats : option ExecutionStats
}.

(** The argument is [resp] and, inside it, [resp.explainMetrics]; the
    result is the [explainMetrics] of the info, absent for the empty
    info [{}]. *)
Definition getInfoFromStats (resp : option (option IExplainMetrics))
    : option DecodedExplainMetrics :=
  let metrics : option IExplainMetrics :=
    match resp with
    | Some (Some metrics) => Some metrics
    | _ => None
    end in
  let planSummary_ : option PlanSummary :=
    match metrics with
    | Some metrics =>
        match planSummary metrics with
        | Some summary =>
            match indexesUsed summary with
            | Some indexes => Some (mkPlanSummary (map decodeStruct indexes))
            | None => None
            end
        | None => None
        end
    | None => None
    end in
  let executionStats_ : option ExecutionStats :=
    match metrics with
    | Some metrics =>
        match executionStats metrics with
        | Some stats =>
            Some (mkExecutionStats
                    (decode_stat (resultsReturned stats))
                    (decode_stat (executionDuration stats))
                    (decode_stat (readOperations stats))
                    (match debugStats stats with
                     | Some debug => Some (decodeStruct debug)
                     | None => None
                     end))
        | None => None
        end
    | None => None
    end in
  if truthy_object planSummary_ || truthy_object executionStats_
  then Some (mkDecodedExplainMetrics planSummary_ executionStats_)
  else None.

(** [resp.explainMetrics.planSummary.indexesUsed] and
    [resp.explainMetrics.executionStats], each absent when anything on
    the way to it is. *)
Definition indexes_of (resp : option (option IExplainMetrics))
    : option (list Struct) :=
  match resp with
  | Some (Some metrics) =>
      match planSummary metrics with
      | Some summary => indexesUsed summary
      | None => None
      end
  | _ => None
  end.

Definition stats_of (resp : option (option IExplainMetrics))
    : option IExecutionStats :=
  match resp with
  | Some (Some metrics) => executionStats metrics
  | _ => None
  end.

End Decoder.

Arguments indexes_of {Struct Obj}.
Arguments stats_of {Struct Obj}.
Arguments StatNumber {Obj}.
Arguments StatString {Obj}.
Arguments StatObject {Obj}.
Arguments DecodedNumber {Obj}.
Arguments DecodedObject {Obj}.
Arguments truthy_stat {Obj}.
Arguments normalise {Obj}.
Arguments decode_stat {Obj}.
Arguments mkIPlanSummary {Struct}.
Arguments indexesUsed {Struct}.
Arguments mkIExecutionStats {Struct Obj}.
Arguments resultsReturned {Struct Obj}.
Arguments executionDuration {Struct Obj}.
Arguments readOperations {Struct Obj}.
Arguments debugStats {Struct Obj}.
Arguments mkIExplainMetrics {Struct Obj}.
Arguments planSummary {Struct Obj}.
Arguments executionStats {Struct Obj}.
Arguments mkPlanSummary {JSONValue}.
Arguments ps_indexesUsed {JSONValue}.
Arguments mkExecutionStats {JSONValue Obj}.
Arguments es_resultsReturned {JSONValue Obj}.
Arguments es_executionDuration {JSONValue Obj}.
Arguments es_readOperations {JSONValue Obj}.
Arguments es_debugStats {JSONValue Obj}.
Arguments mkDecodedExplainMetrics {JSONValue Obj}.
Arguments em_planSummary {JSONValue Obj}.
Arguments em_executionStats {JSONValue Obj}.
Arguments getInfoFromStats {Struct JSONValue Obj}.

End Metrics.

(** ** More of what the statements observe *)

Section ContextObservations.
Context `{EntityCodec}.

(** The request has a handle, or is a transaction about to begin. *)
Definition in_transaction (this : DatastoreRequest) : bool :=
  truthy_handle (id this)
  || (isTransactionInstance this && is_not_started (state this)).

(** What the table yields for the caller's consistency, when one is
    given: a proto code, an inherited member, or nothing. *)
Definition consistency_code (options : RunQueryStreamOptions)
    : option ProtoCode :=
  match consistency options with
  | Some c =>
      if truthy_string (Some c) then CONSISTENCY_PROTO_CODE (toLowerCase c)
      else None
  | None => None
  end.

(** The methods whose requests carry the handle in their read options. *)
Definition is_read_method (method : string) : bool :=
  String.eqb method "lookup" || String.eqb method "runQuery"
  || String.eqb method "runAggregationQuery".

(** The entities a round of a query stream emits, or why it fails. *)
Definition query_round_entities (s : QueryStream)
    (args : CallbackArgs RunQueryResponse) : result (list Entity) :=
  match cb_err args with
  | Some err => Throw err
  | None =>
      match cb_resp args with
      | None => Throw TypeError
      | Some resp =>
          match batch resp ≫= entityResults with
          | Some results => formatArray results (wrapNumbers (qs_options s))
          | None => Return []
          end
      end
  end.

Definition query_emitted_by (s : QueryStream)
    (args : CallbackArgs RunQueryResponse) : list Entity :=
  match query_round_entities s args with
  | Return entities => entities
  | Throw _ => []
  end.

(** The reply is the last of its stream: it has no batch, or its batch
    does not say ["NOT_FINISHED"]. *)
Definition is_final_reply (args : CallbackArgs RunQueryResponse) : bool :=
  match cb_resp args ≫= batch with
  | Some b => negb (String.eqb (moreResults b) "NOT_FINISHED")
  | None => true
  end.

(** The info a final reply is reported with. *)
Definition final_info (args : CallbackArgs RunQueryResponse) : RunQueryInfo :=
  match cb_resp args with
  | Some resp =>
      match batch resp with
      | Some b =>
          mkInfo (toBase64 <$> endCursor b) (Some (moreResults b))
            (info_explainMetrics (getInfoFromStats (rq_explainMetrics resp)))
      | None => getInfoFromStats (rq_explainMetrics resp)
      end
  | None => getInfoFromStats None
  end.

(** The key protos of an [allocateIds] request. *)
Definition allocateIdsConfig (key : Key) (n : nat)
    (gaxOptions : option CallOptions) : RequestConfig :=
  mkRequestConfig "DatastoreClient" "allocateIds"
    (set_keys (Some (replicate n (keyToKeyProto key))) emptyRequestOptions)
    gaxOptions.

(** The number of ids an [allocateIds] call asks for, when it names one,
    and its call options. *)
Definition allocations_of (options : AllocateIdsArg)
    : option AllocationCount :=
  match options with
  | Allocations n => Some n
  | AllocateIdsOptions a _ => a
  end.

Definition gaxOptions_of (options : AllocateIdsArg) : option CallOptions :=
  match options with
  | Allocations _ => None
  | AllocateIdsOptions _ g => g
  end.

(** The request of a [runAggregationQuery] call. *)
Definition aggregationConfig (this : DatastoreRequest)
    (query : AggregateQuery) (options : RunQueryStreamOptions)
    (queryProto : QueryProto) : RequestConfig :=
  mkRequestConfig "DatastoreClient" "runAggregationQuery"
    (set_aggregationQuery
       (Some (mkAggregationQueryOptions queryProto (aq_toProto query)))
       (getQueryOptions this (aq_query query) options))
    (gaxOptions options).

End ContextObservations.

(** ** More samples *)

(** A codec like the string codec, whose query translation refuses a
    negative limit. *)
Definition pickyCodec : EntityCodec := {|
  Key := string;
  KeyProto := string;
  Entity := string;
  ResponseResult := string;
  Value := Z;
  ValueProto := Z;
  QueryBody := string;
  QueryProto := Query string;
  Cursor := string;
  CallOptions := unit;
  ExplainOptions := unit;
  ExplainMetrics := unit;
  RawExplainMetrics := unit;
  WrapNumbers := bool;
  AggregationProto := string;
  CommitResponse := unit;
  keyToKeyProto := fun k => k;
  keyFromKeyProto := fun k => k;
  isKeyComplete := fun k => negb (String.eqb k "");
  formatArray := fun results _ => Return results;
  queryToQueryProto := fun q =>
    match limitVal q with
    | Some l => if l <? -1 then Throw (ErrorMsg "invalid limit") else Return q
    | None => Return q
    end;
  decodeValueProto := fun v => Return v;
  toBase64 := fun c => c;
  decodeExplainMetrics := fun _ => None
|}.

Definition pickyClient : @DatastoreRequest pickyCodec :=
  @mkRequest pickyCodec None [] NOT_TRANSACTION false false None.

Definition badQuery : Query (@QueryBody pickyCodec) :=
  mkQuery None None 0 (Some (-5)) "Company".

Definition pickyStream : @QueryStream pickyCodec :=
  @mkQueryStream pickyCodec badQuery (@emptyRequestOptions pickyCodec)
    (@noOptions pickyCodec).

Section MoreSamples.
Existing Instance stringCodec.

Definition strongOptions : RunQueryStreamOptions :=
  mkOptions (Some "STRONG") None None None None.

(** A batch that says ["NOT_FINISHED"] and carries no [entityResults],
    and the same batch with an empty list of them. *)
Definition bareBatch : QueryResultBatch :=
  mkBatch "NOT_FINISHED" (Some "cursor-1") None 5.

Definition bareReply : CallbackArgs RunQueryResponse :=
  mkCallbackArgs None (Some (mkRunQueryResponse None (Some bareBatch) None)).

Definition emptyBatch : QueryResultBatch :=
  mkBatch "NOT_FINISHED" (Some "cursor-1") (Some []) 5.

Definition emptyReply : CallbackArgs RunQueryResponse :=
  mkCallbackArgs None (Some (mkRunQueryResponse None (Some emptyBatch) None)).

Definition inheritedOptions : RunQueryStreamOptions :=
  mkOptions (Some "Constructor") None None None None.

Definition commitRequest : RequestConfig :=
  mkRequestConfig "DatastoreClient" "commit" emptyRequestOptions None.

Definition kLookup : RequestConfig := lookupConfig kStream ["k"].

Definition failedReply : CallbackArgs LookupResponse :=
  mkCallbackArgs (Some (ErrorMsg "unavailable")) None.

Definition finishedReply : CallbackArgs RunQueryResponse :=
  mkCallbackArgs None
    (Some (mkRunQueryResponse None
             (Some (mkBatch "NO_MORE_RESULTS" (Some "cursor-2")
                      (Some ["e4"]) 0))
             None)).

Definition continuedQuery : Query QueryBody :=
  mkQuery None (Some "cursor-1") 0 (Some 7) "Company".

Definition namespacedQuery : Query QueryBody :=
  mkQuery (Some "ns") None 0 None "Company".

Definition namespacedStream : QueryStream :=
  mkQueryStream namespacedQuery
    (set_partitionId (Some "ns") emptyRequestOptions) noOptions.

Definition beginReply : CallbackArgs LookupResponse :=
  mkCallbackArgs None
    (Some (mkLookupResponse (Some (HString "tx-9")) (Some ["found"])
             (Some []))).

Definition countQuery : AggregateQuery := mkAggregateQuery someQuery ["count"].

Definition countResults : list AggregationResult :=
  [mkAggregationResult (Some [("total", 3); ("sum", 12)])].

Definition countDecoded : list (list (string * Value)) :=
  [[("total", 3); ("sum", 12)]].

Definition countReply : CallbackArgs RunAggregationQueryResponse :=
  mkCallbackArgs None
    (Some (mkRunAggregationQueryResponse None
             (Some (mkAggregationBatch (Some countResults))) None)).

Definition fetchSucceeds : list (nat * result (option Data)) :=
  [(0%nat, Return None)].

Definition quietTransaction : TransactionScript :=
  mkTransactionScript None fetchSucceeds (Return tt) None.

(** Two entities; the get of the first rejects, then that of the second
    resolves. *)
Definition twoEntities : OneOrMany EntityArg :=
  Many [@KeyedEntity stringCodec "k0" ∅; @KeyedEntity stringCodec "k1" ∅].

Definition secondEntity : PrepareEntityObjectResponse :=
  @mkEntityObject stringCodec (Some "k1") (Some ∅) None.

Definition lateFetch : list (nat * result (option Data)) :=
  [(0%nat, Throw (ErrorMsg "fetch failed")); (1%nat, Return None)].

Definition lateTransaction : TransactionScript :=
  mkTransactionScript None lateFetch (Return tt) None.

(** A [parseInt] that knows one numeral. *)
Definition parseFortyTwo (s : string) : Metrics.JSNumber :=
  if String.eqb s "42" then Metrics.Num 42 else Metrics.NaN.

End MoreSamples.

(** * Properties *)

(** ** Option composition *)

Section ComposerFacts.
Context `{EntityCodec}.

Lemma truthy_number_Some (n : Z) : truthy_number (Some n) = true ↔ n ≠ 0.
Proof.
  unfold truthy_number. rewrite negb_true_iff. apply Z.eqb_neq.
Qed.

Lemma byteLength_truthy (h : Handle) :
  (0 <? byteLength h)%nat = true → truthy_handle (Some h) = true.
Proof.
  destruct h as [s|b]; simpl; [|done].
  destruct s; simpl; [discriminate|done].
Qed.

Lemma parseTransactionResponse_carries this resp :
  parseTransactionResponse this resp =
    if carries_handle resp
    then set_id_state (default None resp) IN_PROGRESS this
    else this.
Proof.
  destruct resp as [[h|]|]; try reflexivity.
  unfold parseTransactionResponse, carries_handle.
  destruct (0 <? byteLength h)%nat eqn:E.
  - rewrite (byteLength_truthy h E). reflexivity.
  - rewrite andb_false_r. reflexivity.
Qed.

Lemma checkExpired_expired this :
  state this = EXPIRED →
  checkExpired this = Throw (ErrorMsg transactionExpiredError).
Proof. unfold checkExpired. intros ->. reflexivity. Qed.

Lemma checkExpired_other this :
  state this ≠ EXPIRED → checkExpired this = Return tt.
Proof. unfold checkExpired. destruct (state this); done. Qed.

Lemma throwOnReadTimeAndConsistency_both options :
  truthy_number (readTime options) = true →
  truthy_string (consistency options) = true →
  throwOnReadTimeAndConsistency options
    = Throw (ErrorMsg readTimeAndConsistencyError).
Proof.
  unfold throwOnReadTimeAndConsistency. intros -> ->. reflexivity.
Qed.

Lemma keys_nonempty (keys : OneOrMany Key) :
  arrify keys ≠ [] → (length (map keyToKeyProto (arrify keys)) =? 0)%nat = false.
Proof.
  intros Hne. rewrite length_map. destruct (arrify keys); [done|reflexivity].
Qed.

Lemma getRequestOptions_readTime this options t :
  readTime options = Some t → t ≠ 0 →
  ∃ ro, readOptions (getRequestOptions this options) = Some ro
        ∧ ro_readTime ro = Some (mkTimestamp (Some (t / 1000)) None).
Proof.
  intros Ht Hne. unfold getRequestOptions. rewrite Ht.
  apply truthy_number_Some in Hne. rewrite Hne.
  eexists. split; reflexivity.
Qed.

Lemma getRequestOptions_no_readTime this options :
  truthy_number (readTime options) = false →
  ∀ ro, readOptions (getRequestOptions this options) = Some ro →
        ro_readTime ro = None.
Proof.
  intros Hf ro. unfold getRequestOptions.
  destruct (readTime options) as [t|]; [rewrite Hf|];
    destruct (isTransaction this && is_not_started (state this));
    destruct (consistency options) as [c|];
    try destruct (truthy_string (Some c));
    simpl; intros [= <-] || discriminate; reflexivity.
Qed.

Lemma getQueryOptions_readOptions this query options :
  readOptions (getQueryOptions this query options)
    = readOptions (getRequestOptions this options).
Proof.
  unfold getQueryOptions.
  destruct (truthy_object _), (truthy_string _); reflexivity.
Qed.

End ComposerFacts.

(** ** Read time *)

Section ReadTime.
Context `{EntityCodec}.

(** C9 (as amended).  For every caller-supplied read time [t] other than
    0, in epoch milliseconds and a safe integer ([|t| < 2^53], where the
    quotient of the doubles has the floor of the exact quotient), the
    composed [readOptions.readTime] has [seconds = floor (t / 1000)] and
    no other field, whatever the request object and the other options;
    [t / 1000] is the largest whole number of seconds not after [t].  A
    read time of 0 is falsy, is taken as not supplied, and composes no
    [readTime] at all. *)
Theorem readTime_composed_as_whole_seconds
    (this : DatastoreRequest) (options : RunQueryStreamOptions) (t : Z) :
  readTime options = Some t →
  (t ≠ 0 → Z.abs t < 2 ^ 53 →
     ∃ ro, readOptions (getRequestOptions this options) = Some ro
           ∧ ro_readTime ro = Some (mkTimestamp (Some (t / 1000)) None)
           ∧ 1000 * (t / 1000) <= t < 1000 * (t / 1000) + 1000)
  ∧ (t = 0 →
     ∀ ro, readOptions (getRequestOptions this options) = Some ro →
           ro_readTime ro = None).
Proof.
  intros Ht. split.
  - intros Hne _.
    destruct (getRequestOptions_readTime this options t Ht Hne) as (ro & Hro & Hrt).
    exists ro. repeat split; try assumption.
    + apply Z.mul_div_le. lia.
    + pose proof (Z.mod_pos_bound t 1000 ltac:(lia)).
      pose proof (Z.div_mod t 1000 ltac:(lia)). lia.
  - intros -> ro. apply getRequestOptions_no_readTime.
    rewrite Ht. reflexivity.
Qed.

End ReadTime.

(** ** Precondition failures of the reading entry points *)

Section Gates.
Context `{EntityCodec}.

Lemma request__with_state s this cfg :
  request_ (with_state s this) cfg = request_ this cfg.
Proof. reflexivity. Qed.

Lemma createReadStream_expired this keys options :
  state this = EXPIRED → arrify keys ≠ [] →
  createReadStream this keys options
    = Throw (ErrorMsg transactionExpiredError).
Proof.
  intros Hs Hk. unfold createReadStream.
  rewrite (keys_nonempty keys Hk), (checkExpired_expired this Hs).
  reflexivity.
Qed.

Lemma runQueryStream_expired this query options :
  state this = EXPIRED →
  runQueryStream this query options
    = Throw (ErrorMsg transactionExpiredError).
Proof.
  intros Hs. unfold runQueryStream.
  rewrite (checkExpired_expired this Hs). reflexivity.
Qed.

Lemma createReadStream_both this keys options :
  state this ≠ EXPIRED → arrify keys ≠ [] →
  truthy_number (readTime options) = true →
  truthy_string (consistency options) = true →
  createReadStream this keys options
    = Throw (ErrorMsg readTimeAndConsistencyError).
Proof.
  intros Hs Hk Ht Hc. unfold createReadStream.
  rewrite (keys_nonempty keys Hk), (checkExpired_other this Hs),
    (throwOnReadTimeAndConsistency_both options Ht Hc).
  reflexivity.
Qed.

Lemma runQueryStream_both this query options :
  state this ≠ EXPIRED →
  truthy_number (readTime options) = true →
  truthy_string (consistency options) = true →
  runQueryStream this query options
    = Throw (ErrorMsg readTimeAndConsistencyError).
Proof.
  intros Hs Ht Hc. unfold runQueryStream.
  rewrite (checkExpired_other this Hs),
    (throwOnReadTimeAndConsistency_both options Ht Hc).
  reflexivity.
Qed.

(** C1 (as amended).  On a request whose state is [EXPIRED], the reading
    entry points fail with the error "This transaction has already
    expired." with no RPC issued and the request object unchanged:
    [createReadStream] and [runQueryStream] throw it, [get], [runQuery]
    and [runAggregationQuery] hand it to the callback
    ([createReadStream] and [get] when given at least one key; the
    missing-key error comes first otherwise).  [delete] and
    [allocateIds] do not look at the state: with any other state in its
    place they issue the same RPCs, give the same outcome and buffer the
    same mutations. *)
Theorem expired_state_gates_the_reading_entry_points
    (this : DatastoreRequest) :
  state this = EXPIRED →
  (∀ keys options, arrify keys ≠ [] →
     createReadStream this keys options
       = Throw (ErrorMsg transactionExpiredError))
  ∧ (∀ keys options script, arrify keys ≠ [] →
       get this keys options script
         = (this, [], Callback (Some (ErrorMsg transactionExpiredError)) None))
  ∧ (∀ query options,
       runQueryStream this query options
         = Throw (ErrorMsg transactionExpiredError))
  ∧ (∀ query options script,
       runQuery this query options script
         = (this, [], Callback (Some (ErrorMsg transactionExpiredError)) None))
  ∧ (∀ query options script,
       runAggregationQuery this query options script
         = (this, [], Callback (Some (ErrorMsg transactionExpiredError)) None))
  ∧ (∀ s keys gaxOptions script,
       delete (with_state s this) keys gaxOptions script
         = let '(this', rpcs, outcome) := delete this keys gaxOptions script in
           (with_state s this', rpcs, outcome))
  ∧ (∀ s key options script,
       allocateIds (with_state s this) key options script
         = let '(this', rpcs, outcome) := allocateIds this key options script in
           (with_state s this', rpcs, outcome)).
Proof.
  intros Hs. repeat split.
  - intros. by apply createReadStream_expired.
  - intros keys options script Hk. unfold get.
    by rewrite createReadStream_expired.
  - intros. by apply runQueryStream_expired.
  - intros. unfold runQuery. by rewrite runQueryStream_expired.
  - intros. unfold runAggregationQuery. by rewrite Hs.
  - intros s keys gaxOptions script. unfold delete.
    rewrite request__with_state. cbn [with_state set_id_state id].
    destruct (truthy_handle (id this)); [reflexivity|].
    destruct (request_ this _); reflexivity.
  - intros s key options script. unfold allocateIds.
    destruct (isKeyComplete key); [reflexivity|].
    destruct options as [n|a g];
      destruct (filled_array _ _); try reflexivity;
      rewrite request__with_state;
      destruct (request_ this _); reflexivity.
Qed.

(** C5 (as amended).  When both [consistency] and [readTime] are set to
    truthy values (a non-empty consistency, a read time other than 0),
    every reading entry point called in a state other than [EXPIRED]
    rejects with "Read time and read consistency cannot both be
    specified." before any RPC, whether or not the request is a
    transaction: [createReadStream] and [runQueryStream] throw it, [get],
    [runQuery] and [runAggregationQuery] hand it to the callback
    ([createReadStream] and [get] when given at least one key).  In
    state [EXPIRED] the expired-transaction error is reported first. *)
Theorem readTime_and_consistency_are_exclusive
    (this : DatastoreRequest) (options : RunQueryStreamOptions) :
  truthy_number (readTime options) = true →
  truthy_string (consistency options) = true →
  state this ≠ EXPIRED →
  (∀ keys, arrify keys ≠ [] →
     createReadStream this keys options
       = Throw (ErrorMsg readTimeAndConsistencyError))
  ∧ (∀ keys script, arrify keys ≠ [] →
       get this keys options script
         = (this, [], Callback (Some (ErrorMsg readTimeAndConsistencyError)) None))
  ∧ (∀ query,
       runQueryStream this query options
         = Throw (ErrorMsg readTimeAndConsistencyError))
  ∧ (∀ query script,
       runQuery this query options script
         = (this, [], Callback (Some (ErrorMsg readTimeAndConsistencyError)) None))
  ∧ (∀ query script,
       runAggregationQuery this query options script
         = (this, [], Callback (Some (ErrorMsg readTimeAndConsistencyError)) None)).
Proof.
  intros Ht Hc Hs. repeat split.
  - intros. by apply createReadStream_both.
  - intros keys script Hk. unfold get. by rewrite createReadStream_both.
  - intros. by apply runQueryStream_both.
  - intros. unfold runQuery. by rewrite runQueryStream_both.
  - intros. unfold runAggregationQuery. rewrite Ht, Hc.
    destruct (state this); done.
Qed.

End Gates.

(** ** The transaction state *)

Section StateFacts.
Context `{EntityCodec}.

Lemma parseTransactionResponse_state this resp :
  state (parseTransactionResponse this resp) = state_after resp (state this).
Proof.
  rewrite parseTransactionResponse_carries. unfold state_after.
  destruct (carries_handle resp); reflexivity.
Qed.

Lemma parseTransactionResponse_requests this resp :
  requests_ (parseTransactionResponse this resp) = requests_ this.
Proof.
  rewrite parseTransactionResponse_carries.
  destruct (carries_handle resp); reflexivity.
Qed.

Lemma onLookupResponse_this s this consumer args :
  step_this (onLookupResponse s this consumer args)
    = parseTransactionResponse this (lr_transaction <$> cb_resp args).
Proof.
  unfold onLookupResponse.
  destruct (cb_err args); [reflexivity|].
  destruct (cb_resp args) as [resp|]; [|reflexivity].
  destruct (found resp) as [results|]; [|reflexivity].
  destruct (formatArray results _) as [entities|]; [|reflexivity].
  destruct (split entities consumer) as [[pushed streamEnded] consumer'].
  destruct streamEnded; [reflexivity|].
  destruct (0 <? _)%nat; reflexivity.
Qed.

Lemma onResultSet_this s this query consumer args :
  step_this (onResultSet s this query consumer args)
    = parseTransactionResponse this (rq_transaction <$> cb_resp args).
Proof.
  unfold onResultSet.
  destruct (cb_err args); [reflexivity|].
  destruct (cb_resp args) as [resp|]; [|reflexivity].
  destruct (batch resp) as [b|]; [|reflexivity].
  destruct (match entityResults b with Some _ => _ | None => _ end)
    as [entities|]; [|reflexivity].
  destruct (split entities consumer) as [[pushed streamEnded] consumer'].
  destruct streamEnded; [reflexivity|].
  destruct (negb _); [reflexivity|].
  destruct (nextQuery _ _ _); reflexivity.
Qed.

Lemma state_after_twice t1 (b : bool) s :
  (if b then IN_PROGRESS else state_after t1 s)
    = if carries_handle t1 || b then IN_PROGRESS else s.
Proof. unfold state_after. destruct (carries_handle t1), b; reflexivity. Qed.

(** After a lookup stream has run, the state is [IN_PROGRESS] if one of
    the replies it processed carried a handle, and what it was
    otherwise. *)
Lemma makeLookupRequest_state s script :
  ∀ this keys consumer,
    let run := makeLookupRequest s script this keys consumer in
    state (run_this run)
      = if existsb lookup_handle (take (length (run_rpcs run)) script)
        then IN_PROGRESS else state this.
Proof.
  induction script as [|args script IH]; intros this keys consumer; simpl.
  - destruct (request_ this _); reflexivity.
  - destruct (request_ this _); [|reflexivity].
    pose proof (onLookupResponse_this s this consumer args) as Hthis.
    destruct (onLookupResponse s this consumer args)
      as [this' emitted infos status | this' emitted nextKeys consumer'];
      simpl in Hthis; subst this'; simpl.
    + rewrite orb_false_r, parseTransactionResponse_state.
      reflexivity.
    + rewrite IH, parseTransactionResponse_state.
      apply state_after_twice.
Qed.

Lemma makeQueryRequest_state s script :
  ∀ this query consumer,
    let run := makeQueryRequest s script this query consumer in
    state (run_this run)
      = if existsb query_handle (take (length (run_rpcs run)) script)
        then IN_PROGRESS else state this.
Proof.
  induction script as [|args script IH]; intros this query consumer; simpl.
  - destruct (queryToQueryProto query); [|reflexivity].
    destruct (request_ this _); reflexivity.
  - destruct (queryToQueryProto query); [|reflexivity].
    destruct (request_ this _); [|reflexivity].
    pose proof (onResultSet_this s this query consumer args) as Hthis.
    destruct (onResultSet s this query consumer args)
      as [this' emitted infos status | this' emitted query' consumer'];
      simpl in Hthis; subst this'; simpl.
    + rewrite orb_false_r, parseTransactionResponse_state.
      reflexivity.
    + rewrite IH, parseTransactionResponse_state.
      apply state_after_twice.
Qed.

Lemma existsb_take_Exists {A} (f : A → bool) n (l : list A) :
  existsb f (take n l) = true → Exists (λ x, f x = true) l.
Proof.
  revert n. induction l as [|x l IH]; intros [|n]; simpl; try discriminate.
  destruct (f x) eqn:Hfx; simpl.
  - intros _. by apply Exists_cons_hd.
  - intros Hex. apply Exists_cons_tl. by eapply IH.
Qed.

(** C2 (as amended).  The state changes only where
    [parseTransactionResponse] processes a reply, and it becomes
    [IN_PROGRESS] exactly when that reply carries a non-empty
    transaction handle, whatever the state was: a request in
    [NOT_STARTED] moves to [IN_PROGRESS] exactly then, and so does one in
    [EXPIRED] or [NOT_TRANSACTION].  Accordingly a lookup or query stream
    ends in [IN_PROGRESS] if one of the replies it processed carried a
    handle and in the state it started from otherwise; [get], [runQuery]
    and [runAggregationQuery] leave the state as it was unless a reply
    carried a handle; [delete] and [allocateIds] never change it. *)
Theorem state_follows_transaction_handles (this : DatastoreRequest) :
  (∀ resp,
     state (parseTransactionResponse this resp)
       = if carries_handle resp then IN_PROGRESS else state this)
  ∧ (∀ s script consumer,
       let run := readStream_run s script this consumer in
       state (run_this run)
         = if existsb lookup_handle (take (length (run_rpcs run)) script)
           then IN_PROGRESS else state this)
  ∧ (∀ s script consumer,
       let run := queryStream_run s script this consumer in
       state (run_this run)
         = if existsb query_handle (take (length (run_rpcs run)) script)
           then IN_PROGRESS else state this)
  ∧ (∀ keys options script,
       let this' := (get this keys options script).1.1 in
       state this' = state this
       ∨ state this' = IN_PROGRESS
         ∧ Exists (λ args, lookup_handle args = true) script)
  ∧ (∀ query options script,
       let this' := (runQuery this query options script).1.1 in
       state this' = state this
       ∨ state this' = IN_PROGRESS
         ∧ Exists (λ args, query_handle args = true) script)
  ∧ (∀ query options script,
       let this' := (runAggregationQuery this query options script).1.1 in
       state this' = state this
       ∨ state this' = IN_PROGRESS
         ∧ Exists (λ args, aggregation_handle args = true) script)
  ∧ (∀ keys gaxOptions script,
       state (delete this keys gaxOptions script).1.1 = state this)
  ∧ (∀ key options script,
       state (allocateIds this key options script).1.1 = state this).
Proof.
  repeat split.
  - intros resp. apply parseTransactionResponse_state.
  - intros. apply makeLookupRequest_state.
  - intros. apply makeQueryRequest_state.
  - intros keys options script. unfold get.
    destruct (createReadStream this keys options) as [s|]; [|by left].
    cbn [fst]. unfold readStream_run. rewrite makeLookupRequest_state.
    destruct (existsb _ _) eqn:E; [right|by left].
    split; [reflexivity|]. by eapply existsb_take_Exists.
  - intros query options script. unfold runQuery.
    destruct (runQueryStream this query options) as [s|]; [|by left].
    cbn [fst]. unfold queryStream_run. rewrite makeQueryRequest_state.
    destruct (existsb _ _) eqn:E; [right|by left].
    split; [reflexivity|]. by eapply existsb_take_Exists.
  - intros query options script. unfold runAggregationQuery.
    destruct (is_expired _); [by left|].
    destruct (_ && _); [by left|].
    destruct (queryToQueryProto _); [|by left].
    destruct (throwOnTransactionErrors _ _); [|by left].
    destruct (request_ _ _); [|by left].
    destruct script as [|args script]; [by left|].
    cbn [fst]. rewrite parseTransactionResponse_state. unfold state_after.
    destruct (carries_handle _) eqn:E; [right|by left].
    split; [reflexivity|]. by apply Exists_cons_hd.
  - intros keys gaxOptions script. unfold delete.
    destruct (truthy_handle _); [reflexivity|].
    destruct (request_ _ _); reflexivity.
  - intros key options script. unfold allocateIds.
    destruct (isKeyComplete key); [reflexivity|].
    destruct options; destruct (filled_array _ _); try reflexivity;
      destruct (request_ _ _); reflexivity.
Qed.

End StateFacts.

(** ** delete *)

Section DeleteFacts.
Context `{EntityCodec}.

Lemma request__commit_no_handle this keys gaxOptions :
  truthy_handle (id this) = false →
  ∃ sent, request_ this (commitConfig keys gaxOptions) = Return sent
          ∧ mode sent = Some "NON_TRANSACTIONAL"
          ∧ transaction sent = None
          ∧ mutations sent = mutations (deleteReqOpts keys).
Proof.
  intros Hid. unfold request_, prepareGaxRequest_, throwOnTransactionErrors.
  rewrite Hid. cbn.
  destruct (truthy_string (datastore_databaseId this));
    eexists; repeat split; reflexivity.
Qed.

(** C6.  [delete] branches on the transaction handle alone.  With a
    handle ([this.id] truthy) the call appends exactly one record, holding
    the delete mutations of the given keys, to the buffered requests,
    issues no RPC and returns at once.  Without one it leaves the buffer
    alone and issues exactly one [commit] RPC carrying those mutations,
    sent in mode [NON_TRANSACTIONAL]; the callback gets what that RPC
    answers. *)
Theorem delete_buffers_or_commits
    (this : DatastoreRequest) (keys : OneOrMany Key)
    (gaxOptions : option CallOptions)
    (script : list (CallbackArgs CommitResponse)) :
  (truthy_handle (id this) = true →
     delete this keys gaxOptions script
       = (push_request (deleteReqOpts keys) this, [], NoCallback)
     ∧ requests_ (delete this keys gaxOptions script).1.1
         = (requests_ this ++ [deleteReqOpts keys])%list
     ∧ mutations (deleteReqOpts keys)
         = Some (map (λ key, MDelete (keyToKeyProto key)) (arrify keys)))
  ∧ (truthy_handle (id this) = false →
       delete this keys gaxOptions script
         = (this, [commitConfig keys gaxOptions],
            match script with
            | [] => Awaiting
            | args :: _ => Callback (cb_err args) (cb_resp args)
            end)
       ∧ ∃ sent,
           request_ this (commitConfig keys gaxOptions) = Return sent
           ∧ mode sent = Some "NON_TRANSACTIONAL"
           ∧ transaction sent = None
           ∧ mutations sent
               = Some (map (λ key, MDelete (keyToKeyProto key)) (arrify keys))).
Proof.
  split; intros Hid.
  - unfold delete. rewrite Hid. repeat split.
  - destruct (request__commit_no_handle this keys gaxOptions Hid)
      as (sent & Hsent & Hmode & Htx & Hmut).
    split.
    + unfold delete. rewrite Hid. fold (commitConfig keys gaxOptions).
      rewrite Hsent. reflexivity.
    + exists sent. repeat split; assumption.
Qed.

End DeleteFacts.

(** ** merge *)

Section MergeFacts.
Context `{EntityCodec}.

Lemma settle_first_rejection objs fetches :
  ∀ saved, (settle objs fetches saved).2 = first_rejection fetches.
Proof.
  induction fetches as [|[i [data|err]] fetches IH]; intros saved; simpl;
    try reflexivity.
  destruct (objs !! i); apply IH.
Qed.

(** A rollback that is awaited under [try]/[catch] always resolves. *)
Lemma rollback_is_transparent tx log :
  try_catch (transaction_rollback tx) (λ _, resolve tt) log
    = (mkTxLog (log_saved log) (log_commits log) (S (log_rollbacks log)),
       Fulfilled tt).
Proof.
  unfold try_catch, transaction_rollback, resolve.
  destruct (tx_rollback tx); reflexivity.
Qed.

(** C7.  In [merge], when the internal transaction fails to run, a get
    of an entity rejects, or the commit rejects, one rollback is
    attempted and the callback receives the error that triggered it: the
    run error, the error of the first get that rejected, or the commit
    error.  What the rollback answers makes no difference to what the
    callback receives: a rollback failure is swallowed. *)
Theorem merge_reports_the_triggering_error
    (entities : OneOrMany EntityArg) (run : option Error)
    (fetches : list (nat * result (option Data)))
    (commit : result CommitResponse) (rollback : option Error) :
  let tx := mkTransactionScript run fetches commit rollback in
  (∀ err, run = Some err →
     merge_outcome (merge entities tx) = Callback (Some err) None
     ∧ log_rollbacks (merge_log (merge entities tx)) = 1%nat)
  ∧ (∀ err, run = None → first_rejection fetches = Some err →
       merge_outcome (merge entities tx) = Callback (Some err) None
       ∧ log_rollbacks (merge_log (merge entities tx)) = 1%nat)
  ∧ (∀ err, run = None → first_rejection fetches = None →
       (length (arrify entities) ≤ length fetches)%nat →
       commit = Throw err →
       merge_outcome (merge entities tx) = Callback (Some err) None
       ∧ log_rollbacks (merge_log (merge entities tx)) = 1%nat)
  ∧ merge_outcome (merge entities tx)
      = merge_outcome
          (merge entities (mkTransactionScript run fetches commit None)).
Proof.
  intros tx.
  assert (Hgen : ∀ rb,
    merge entities (mkTransactionScript run fetches commit rb)
      = match run with
        | Some err => mkMergeRun (mkTxLog [] 0 1) (Callback (Some err) None)
        | None =>
            let objs := map prepareEntityObject_ (arrify entities) in
            match settle objs fetches [] with
            | (saved, Some err) =>
                mkMergeRun (mkTxLog saved 0 1) (Callback (Some err) None)
            | (saved, None) =>
                if (length fetches <? length objs)%nat
                then mkMergeRun (mkTxLog saved 0 0) Awaiting
                else
                  match commit with
                  | Return response =>
                      mkMergeRun (mkTxLog saved 1 0)
                        (Callback None (Some response))
                  | Throw err =>
                      mkMergeRun (mkTxLog saved 1 1) (Callback (Some err) None)
                  end
            end
        end).
  { intros rb. unfold merge, merge_body. cbn [tx_run].
    destruct run as [err|].
    - unfold await. rewrite rollback_is_transparent. reflexivity.
    - cbn zeta. unfold try_catch at 1. unfold await at 1.
      unfold fetch_and_save_all at 1. cbn [tx_fetches log_saved].
      destruct (settle _ fetches []) as [saved [err|]].
      + unfold await. rewrite rollback_is_transparent. reflexivity.
      + destruct (length fetches <? _)%nat; [reflexivity|].
        unfold await at 1, transaction_commit. cbn [tx_commit].
        destruct commit as [response|err]; [reflexivity|].
        unfold await. rewrite rollback_is_transparent. reflexivity. }
  assert (Hsettle :
    (settle (map prepareEntityObject_ (arrify entities)) fetches []).2
      = first_rejection fetches) by apply settle_first_rejection.
  subst tx. split; [|split; [|split]].
  - intros err ->. by rewrite Hgen.
  - intros err -> Hrej. rewrite Hgen. cbn zeta.
    destruct (settle _ fetches []) as [saved o]. simpl in Hsettle.
    by rewrite Hsettle, Hrej.
  - intros err -> Hrej Hlen ->. rewrite Hgen. cbn zeta.
    destruct (settle _ fetches []) as [saved o]. simpl in Hsettle.
    rewrite Hsettle, Hrej, length_map.
    destruct (Nat.ltb_spec (length fetches) (length (arrify entities)));
      [lia|done].
  - rewrite !Hgen. reflexivity.
Qed.

End MergeFacts.

(** ** get *)

Section GetFacts.
Context `{EntityCodec}.

Lemma createReadStream_Return this keys options s :
  createReadStream this keys options = Return s →
  s = mkReadStream (map keyToKeyProto (arrify keys))
        (getRequestOptions this options) options
  ∧ arrify keys ≠ []
  ∧ throwOnTransactionErrors this (getRequestOptions this options) = Return tt.
Proof.
  unfold createReadStream. rewrite length_map.
  destruct (arrify keys) as [|k ks] eqn:Hk; [discriminate|]. simpl.
  destruct (checkExpired this); [|discriminate]. simpl.
  destruct (throwOnReadTimeAndConsistency options); [|discriminate]. simpl.
  destruct (throwOnTransactionErrors this _) as [[]|] eqn:Ht; [|discriminate].
  simpl. intros [= <-]. done.
Qed.

(** The check of [prepareGaxRequest_] reads the handle and the read
    options only. *)
Lemma throwOnTransactionErrors_readOptions this r r' :
  readOptions r = readOptions r' →
  throwOnTransactionErrors this r = throwOnTransactionErrors this r'.
Proof. unfold throwOnTransactionErrors. by intros ->. Qed.

Lemma request__lookup this s keys :
  throwOnTransactionErrors this (rs_reqOpts s) = Return tt →
  ∃ sent, request_ this (lookupConfig s keys) = Return sent.
Proof.
  intros Hok. unfold request_, prepareGaxRequest_.
  cbn [method reqOpts lookupConfig]. cbn [String.eqb Ascii.eqb Bool.eqb].
  match goal with
  | |- ∃ sent, rbind (throwOnTransactionErrors this ?r) _ = _ =>
      rewrite (throwOnTransactionErrors_readOptions this r (rs_reqOpts s))
  end.
  - rewrite Hok. simpl. by eexists.
  - destruct (truthy_string _); reflexivity.
Qed.

Lemma get_outcome_not_thrown this keys options script e :
  (get this keys options script).2 ≠ Thrown e.
Proof.
  unfold get. destruct (createReadStream this keys options); [|done].
  cbn [snd]. unfold concat_outcome.
  by destruct (run_status _).
Qed.

Lemma get_of_throw this keys options script e :
  createReadStream this keys options = Throw e →
  get this keys options script = (this, [], Callback (Some e) None).
Proof. unfold get. by intros ->. Qed.

(** A single round that finds [results] and defers nothing. *)
Lemma get_one_round this keys options script s results entities :
  createReadStream this keys options = Return s →
  formatArray results (wrapNumbers options) = Return entities →
  get this keys options (lookupReply results [] :: script)
    = (this, [lookupConfig s (map keyToKeyProto (arrify keys))],
       Callback None
         (Some (if isArray keys then Sequence entities
                else Bare (entities !! 0%nat)))).
Proof.
  intros Hs Hf. unfold get. rewrite Hs.
  apply createReadStream_Return in Hs as (-> & Hk & Hok).
  destruct (request__lookup this
              (mkReadStream (map keyToKeyProto (arrify keys))
                 (getRequestOptions this options) options)
              (map keyToKeyProto (arrify keys)) Hok) as (sent & Hsent).
  unfold readStream_run. cbn [makeLookupRequest rs_keys]. rewrite Hsent.
  unfold onLookupResponse, lookupReply.
  cbn [cb_err cb_resp found deferred rs_options fmap option_fmap option_map
       mbind option_bind lr_transaction parseTransactionResponse default
       map length Nat.ltb Nat.leb split].
  rewrite Hf. cbn. by destruct (isArray keys).
Qed.

(** C8.  [get] with a single key that is not an array hands the callback
    the bare first result: the sole entity when the lookup finds the key,
    and [undefined], with no error, when it finds nothing.  With an array
    of keys it hands the callback the sequence of results, also for one
    key.  With no key it fails with "At least one Key object is
    required.". *)
Theorem get_unwraps_a_single_key
    (this : DatastoreRequest) (options : RunQueryStreamOptions)
    (script : list (CallbackArgs LookupResponse)) :
  (∀ keys s,
     createReadStream this keys options = Return s →
     let run := readStream_run s script this None in
     run_status run = Ended →
     get this keys options script
       = (run_this run, run_rpcs run,
          Callback None
            (Some (if isArray keys then Sequence (run_emitted run)
                   else Bare (run_emitted run !! 0%nat)))))
  ∧ (∀ key s result entity,
       createReadStream this (Single key) options = Return s →
       formatArray [result] (wrapNumbers options) = Return [entity] →
       (get this (Single key) options (lookupReply [result] [] :: script)).2
         = Callback None (Some (Bare (Some entity))))
  ∧ (∀ key s,
       createReadStream this (Single key) options = Return s →
       formatArray [] (wrapNumbers options) = Return [] →
       (get this (Single key) options (lookupReply [] [] :: script)).2
         = Callback None (Some (Bare None)))
  ∧ (∀ key s result entity,
       createReadStream this (Many [key]) options = Return s →
       formatArray [result] (wrapNumbers options) = Return [entity] →
       (get this (Many [key]) options (lookupReply [result] [] :: script)).2
         = Callback None (Some (Sequence [entity])))
  ∧ (∀ keys,
       arrify keys = [] →
       get this keys options script
         = (this, [], Callback (Some (ErrorMsg keyRequiredError)) None)).
Proof.
  split; [|split; [|split; [|split]]].
  - intros keys s Hs run Hended. unfold get. rewrite Hs.
    fold run. unfold concat_outcome. rewrite Hended.
    by destruct (isArray keys).
  - intros key s result entity Hs Hf.
    by rewrite (get_one_round _ _ _ _ s [result] [entity]).
  - intros key s Hs Hf.
    by rewrite (get_one_round _ _ _ _ s [] []).
  - intros key s result entity Hs Hf.
    by rewrite (get_one_round _ _ _ _ s [result] [entity]).
  - intros keys Hk. unfold get, createReadStream. by rewrite Hk.
Qed.

(** C10.  [get] never throws synchronously: whatever [createReadStream]
    throws is caught and handed to the callback as its error, with no RPC
    issued.  That covers every precondition failure of
    [createReadStream]: no key, an expired transaction, read time
    together with read consistency, and read consistency or read time in
    a transaction; it throws nothing else. *)
Theorem get_hands_precondition_failures_to_the_callback
    (this : DatastoreRequest) (keys : OneOrMany Key)
    (options : RunQueryStreamOptions)
    (script : list (CallbackArgs LookupResponse)) :
  (∀ e, (get this keys options script).2 ≠ Thrown e)
  ∧ (∀ e, createReadStream this keys options = Throw e →
       get this keys options script = (this, [], Callback (Some e) None)
       ∧ e ∈ [ErrorMsg keyRequiredError;
              ErrorMsg transactionExpiredError;
              ErrorMsg readTimeAndConsistencyError;
              ErrorMsg readConsistencyInTransactionError;
              ErrorMsg readTimeInTransactionError])
  ∧ (arrify keys = [] →
       get this keys options script
         = (this, [], Callback (Some (ErrorMsg keyRequiredError)) None))
  ∧ (arrify keys ≠ [] → state this = EXPIRED →
       get this keys options script
         = (this, [], Callback (Some (ErrorMsg transactionExpiredError)) None))
  ∧ (arrify keys ≠ [] → state this ≠ EXPIRED →
       truthy_number (readTime options) = true →
       truthy_string (consistency options) = true →
       get this keys options script
         = (this, [], Callback (Some (ErrorMsg readTimeAndConsistencyError)) None))
  ∧ (∀ e, arrify keys ≠ [] → state this ≠ EXPIRED →
       throwOnReadTimeAndConsistency options = Return tt →
       throwOnTransactionErrors this (getRequestOptions this options) = Throw e →
       get this keys options script = (this, [], Callback (Some e) None)).
Proof.
  split; [|split; [|split; [|split; [|split]]]].
  - intros e. apply get_outcome_not_thrown.
  - intros e He. split; [by apply get_of_throw|].
    revert He. unfold createReadStream.
    destruct (length _ =? 0)%nat; [intros [= <-]; set_solver|].
    unfold checkExpired. destruct (is_expired _); simpl;
      [intros [= <-]; set_solver|].
    unfold throwOnReadTimeAndConsistency. destruct (_ && _); simpl;
      [intros [= <-]; set_solver|].
    unfold throwOnTransactionErrors.
    repeat match goal with
           | |- context [if ?b then _ else _] => destruct b; simpl
           end;
      intros [= <-] || discriminate; set_solver.
  - intros Hk. apply get_of_throw. unfold createReadStream. by rewrite Hk.
  - intros Hk Hs. apply get_of_throw. by apply createReadStream_expired.
  - intros Hk Hs Ht Hc. apply get_of_throw. by apply createReadStream_both.
  - intros e Hk Hs Hrc Hte. apply get_of_throw. unfold createReadStream.
    rewrite (keys_nonempty keys Hk), (checkExpired_other this Hs), Hrc.
    simpl. by rewrite Hte.
Qed.

End GetFacts.

(** ** Query pagination *)

Section QueryPagination.
Context `{EntityCodec}.

Lemma nextQuery_present query info b results :
  entityResults b = Some results →
  nextQuery query info b
    = Return
        (mkQuery (namespace query) (info_endCursor info)
           ((if offsetVal query =? -1 then 0 else offsetVal query)
            - skippedResults b)
           (remaining_limit (limitVal query) (length results))
           (body query)).
Proof.
  intros Hr. unfold nextQuery, remaining_limit. rewrite Hr.
  destruct query as [ns st off [l|] bd]; cbn; [|reflexivity].
  destruct (Z.eqb_spec l 0), (Z.ltb_spec (-1) l), (Z.ltb_spec 0 l);
    cbn; try lia; reflexivity.
Qed.

(** Without a positive limit the count of returned results is not read. *)
Lemma nextQuery_unbounded query info b :
  (∀ l, limitVal query = Some l → l <= 0) →
  nextQuery query info b
    = Return
        (mkQuery (namespace query) (info_endCursor info)
           ((if offsetVal query =? -1 then 0 else offsetVal query)
            - skippedResults b)
           (limitVal query) (body query)).
Proof.
  unfold nextQuery.
  destruct query as [ns st off [l|] bd]; cbn; [|reflexivity].
  intros Hl. specialize (Hl l eq_refl).
  destruct (Z.eqb_spec l 0), (Z.ltb_spec (-1) l);
    cbn; try lia; reflexivity.
Qed.

(** An absent [entityResults] under a positive limit makes the
    continuation raise. *)
Lemma nextQuery_absent query info b l :
  entityResults b = None → limitVal query = Some l → 0 < l →
  nextQuery query info b = Throw TypeError.
Proof.
  intros Hr Hl Hpos. unfold nextQuery. rewrite Hr.
  destruct query as [ns st off lim bd]; cbn in *. subst lim. cbn.
  destruct (Z.eqb_spec l 0), (Z.ltb_spec (-1) l); cbn; try lia; reflexivity.
Qed.

Lemma makeQueryRequest_first_rpc s script this query consumer queryProto sent :
  queryToQueryProto query = Return queryProto →
  request_ this (runQueryConfig s queryProto) = Return sent →
  run_rpcs (makeQueryRequest s script this query consumer) !! 0%nat
    = Some (runQueryConfig s queryProto).
Proof.
  intros Hq Hsent.
  destruct script as [|args script]; simpl; rewrite Hq, Hsent;
    [reflexivity|].
  destruct (onResultSet s this query consumer args); reflexivity.
Qed.

(** The continuation of a round whose batch carries its entity results.
    In a round of query pagination whose batch says
    ["NOT_FINISHED"] (the round answered without error, its results were
    formatted and pushed, and the consumer has not ended the stream), the
    query of the next round has as start cursor this round's end cursor
    (as base64 text, as it is reported in [info]), as offset the previous
    offset, with the sentinel [-1] taken as 0, minus this round's
    [skippedResults], and as limit the previous limit minus the number of
    entity results of this round when that limit is set and positive,
    and the previous limit unchanged when it is [-1], 0 or absent.  The
    stream goes on with that query, and the next RPC carries its
    translation.  In particular from limit 10 and offset 5, a round with 5
    skipped results and 3 entity results gives offset 0, limit 7 and the
    round's end cursor as start. *)
Theorem query_continuation
    (s : QueryStream) (this : DatastoreRequest) (query : Query QueryBody)
    (consumer consumer' : Consumer) (args : CallbackArgs RunQueryResponse)
    (resp : RunQueryResponse) (b : QueryResultBatch)
    (results : list ResponseResult) (entities pushed : list Entity) :
  cb_err args = None →
  cb_resp args = Some resp →
  batch resp = Some b →
  moreResults b = "NOT_FINISHED" →
  entityResults b = Some results →
  formatArray results (wrapNumbers (qs_options s)) = Return entities →
  split entities consumer = (pushed, false, consumer') →
  let this' := parseTransactionResponse this (Some (rq_transaction resp)) in
  let query' :=
    mkQuery (namespace query) (toBase64 <$> endCursor b)
      ((if offsetVal query =? -1 then 0 else offsetVal query)
       - skippedResults b)
      (match limitVal query with
       | Some l => if 0 <? l then Some (l - Z.of_nat (length results)) else Some l
       | None => None
       end)
      (body query) in
  onResultSet s this query consumer args = Next this' pushed query' consumer'
  ∧ (∀ script queryProto sent,
       queryToQueryProto query = Return queryProto →
       request_ this (runQueryConfig s queryProto) = Return sent →
       makeQueryRequest s (args :: script) this query consumer
         = round_then (runQueryConfig s queryProto) pushed
             (makeQueryRequest s script this' query' consumer'))
  ∧ (∀ script queryProto' sent',
       queryToQueryProto query' = Return queryProto' →
       request_ this' (runQueryConfig s queryProto') = Return sent' →
       run_rpcs (makeQueryRequest s script this' query' consumer') !! 0%nat
         = Some (runQueryConfig s queryProto'))
  ∧ (offsetVal query = 5 → limitVal query = Some 10 →
     skippedResults b = 5 → length results = 3%nat →
     offsetVal query' = 0 ∧ limitVal query' = Some 7
     ∧ startVal query' = toBase64 <$> endCursor b).
Proof.
  intros Herr Hresp Hbatch Hmore Hres Hfmt Hsplit this' query'.
  assert (Hstep :
    onResultSet s this query consumer args = Next this' pushed query' consumer').
  { unfold onResultSet. rewrite Herr, Hresp. cbn [fmap option_fmap option_map].
    rewrite Hbatch, Hres, Hfmt, Hsplit, Hmore. cbn [String.eqb Ascii.eqb Bool.eqb negb].
    rewrite (nextQuery_present _ _ _ results Hres). reflexivity. }
  split; [exact Hstep|]. split; [|split].
  - intros script queryProto sent Hq Hsent.
    cbn [makeQueryRequest]. rewrite Hq, Hsent, Hstep. reflexivity.
  - intros script queryProto' sent' Hq Hsent.
    by eapply makeQueryRequest_first_rpc.
  - intros Hoff Hlim Hskip Hlen. subst query'.
    cbn [offsetVal limitVal startVal]. rewrite Hoff, Hlim, Hskip, Hlen.
    repeat split.
Qed.

End QueryPagination.

(** ** Lookup pagination *)

Section LookupPagination.
Context `{EntityCodec}.









End LookupPagination.

(** * The model at work on the string codec *)

Section Runs.
Existing Instance stringCodec.

(** The example of lookup pagination: A, B and C in two rounds. *)
Example get_three_keys_in_two_rounds :
  get datastoreClient (Many ["A"; "B"; "C"]) noOptions
    [lookupReply ["A"] ["B"; "C"]; lookupReply ["B"; "C"] [];
     lookupReply ["never asked"] []]
  = (datastoreClient,
     [mkRequestConfig "DatastoreClient" "lookup"
        (set_keys (Some ["A"; "B"; "C"]) emptyRequestOptions) None;
      mkRequestConfig "DatastoreClient" "lookup"
        (set_keys (Some ["B"; "C"]) emptyRequestOptions) None],
     Callback None (Some (Sequence ["A"; "B"; "C"]))).
Proof. reflexivity. Qed.

(** The example of query continuation: the second RPC of the run. *)
Example runQuery_second_round :
  (runQuery datastoreClient someQuery noOptions [notFinishedReply]).1.2
    !! 1%nat
  = Some (mkRequestConfig "DatastoreClient" "runQuery"
            (set_query
               (Some (mkQuery None (Some "cursor-1") 0 (Some 7) "Company"))
               emptyRequestOptions)
            None).
Proof. reflexivity. Qed.

(** A consumer that ends the stream after one entity stops the rounds. *)
Example consumer_ends_the_stream :
  let s := mkReadStream ["A"; "B"] emptyRequestOptions noOptions in
  let run :=
    readStream_run s [lookupReply ["A"] ["B"]; lookupReply ["B"] []]
      datastoreClient (Some 1%nat) in
  run_emitted run = ["A"] ∧ length (run_rpcs run) = 1%nat
  ∧ run_status run = ConsumerEnded.
Proof. repeat split. Qed.

(** C1, as stated, fails: [delete] on an expired transaction reports no
    error and appends to the buffered requests. *)
Lemma delete_on_expired_transaction_buffers :
  state expiredTransaction = EXPIRED
  ∧ delete expiredTransaction (Single "k") None []
      = (push_request (deleteReqOpts (Single "k")) expiredTransaction,
         [], NoCallback)
  ∧ requests_ (delete expiredTransaction (Single "k") None []).1.1
      ≠ requests_ expiredTransaction.
Proof. repeat split. discriminate. Qed.

Lemma expired_state_gates_witness :
  state expiredTransaction = EXPIRED
  ∧ get expiredTransaction (Single "k") noOptions [lookupReply ["k"] []]
      = (expiredTransaction, [],
         Callback (Some (ErrorMsg transactionExpiredError)) None).
Proof.
  split; [reflexivity|].
  apply (expired_state_gates_the_reading_entry_points expiredTransaction
           eq_refl).
  discriminate.
Defined.

(** C2, as stated, fails: a reply with a transaction handle moves an
    expired transaction, and a root client, to [IN_PROGRESS]. *)
Lemma handle_moves_expired_to_in_progress :
  state expiredTransaction = EXPIRED
  ∧ state (parseTransactionResponse expiredTransaction
             (Some (Some (HString "tx-2")))) = IN_PROGRESS
  ∧ state datastoreClient = NOT_TRANSACTION
  ∧ state (get datastoreClient (Single "a") noOptions [handleReply]).1.1
      = IN_PROGRESS.
Proof. repeat split. Qed.

Lemma query_continuation_witness :
  cb_err notFinishedReply = None
  ∧ moreResults notFinishedBatch = "NOT_FINISHED"
  ∧ offsetVal someQuery = 5 ∧ limitVal someQuery = Some 10
  ∧ skippedResults notFinishedBatch = 5
  ∧ onResultSet someStream datastoreClient someQuery None notFinishedReply
    = Next datastoreClient threeEntities
        (mkQuery None (Some "cursor-1") 0 (Some 7) "Company") None.
Proof.
  repeat (split; [reflexivity|]).
  apply (query_continuation someStream datastoreClient someQuery None None
           notFinishedReply notFinishedResponse notFinishedBatch
           threeEntities threeEntities threeEntities);
    reflexivity.
Defined.

(** C3.  The continuation the claim describes is not built for a batch
    that says ["NOT_FINISHED"] and carries no [entityResults] when the
    limit is positive.  From limit 10 and offset 5, with 5 skipped results
    and the end cursor "cursor-1", no entity is emitted and the next round
    should have offset 0, limit 10 and start "cursor-1", as it has when the
    batch carries an empty list of entity results.  Without the list,
    reading its length raises a [TypeError] in the handler: the first RPC
    stays the only one, whatever replies are ready, and the stream neither
    ends nor is destroyed.  Emitting the entities reads the same field
    under a guard. *)
Theorem query_continuation_without_entity_results :
  moreResults bareBatch = "NOT_FINISHED"
  ∧ entityResults bareBatch = None
  ∧ offsetVal someQuery = 5 ∧ limitVal someQuery = Some 10
  ∧ query_round_entities someStream bareReply = Return []
  ∧ onResultSet someStream datastoreClient someQuery None bareReply
    = Stop datastoreClient [] [] (Escaped TypeError)
  ∧ queryStream_run someStream [bareReply; finishedReply] datastoreClient None
    = mkRun datastoreClient
        [mkRequestConfig "DatastoreClient" "runQuery"
           (set_query (Some someQuery) emptyRequestOptions) None]
        [] [] (Escaped TypeError)
  ∧ onResultSet someStream datastoreClient someQuery None emptyReply
    = Next datastoreClient []
        (mkQuery None (Some "cursor-1") 0 (Some 10) "Company") None.
Proof. repeat split. Qed.


(** C5, as stated, fails: with both options set, an expired transaction
    reports that it has expired, not the conflict of the options. *)
Lemma expired_error_comes_before_the_conflict :
  truthy_number (readTime bothOptions) = true
  ∧ truthy_string (consistency bothOptions) = true
  ∧ runQueryStream expiredTransaction someQuery bothOptions
      = Throw (ErrorMsg transactionExpiredError)
  ∧ runAggregationQuery expiredTransaction (mkAggregateQuery someQuery [])
      bothOptions []
      = (expiredTransaction, [],
         Callback (Some (ErrorMsg transactionExpiredError)) None)
  ∧ ErrorMsg transactionExpiredError ≠ ErrorMsg readTimeAndConsistencyError.
Proof. repeat split. discriminate. Qed.

Lemma readTime_and_consistency_witness :
  truthy_number (readTime bothOptions) = true
  ∧ truthy_string (consistency bothOptions) = true
  ∧ state runningTransaction ≠ EXPIRED
  ∧ runQuery runningTransaction someQuery bothOptions [notFinishedReply]
      = (runningTransaction, [],
         Callback (Some (ErrorMsg readTimeAndConsistencyError)) None).
Proof.
  split; [reflexivity|]. split; [reflexivity|]. split; [discriminate|].
  apply (readTime_and_consistency_are_exclusive runningTransaction
           bothOptions eq_refl eq_refl).
  discriminate.
Defined.

Lemma delete_buffers_or_commits_witness :
  truthy_handle (id runningTransaction) = true
  ∧ delete runningTransaction (Many ["k1"; "k2"]) None []
      = (push_request (deleteReqOpts (Many ["k1"; "k2"])) runningTransaction,
         [], NoCallback)
  ∧ truthy_handle (id datastoreClient) = false
  ∧ delete datastoreClient (Many ["k1"; "k2"]) None []
      = (datastoreClient, [commitConfig (Many ["k1"; "k2"]) None], Awaiting).
Proof.
  split; [reflexivity|]. split.
  - apply (delete_buffers_or_commits runningTransaction
             (Many ["k1"; "k2"]) None []).
    reflexivity.
  - split; [reflexivity|].
    apply (delete_buffers_or_commits datastoreClient
             (Many ["k1"; "k2"]) None []).
    reflexivity.
Defined.

Lemma merge_reports_the_triggering_error_witness :
  first_rejection fetchFails = Some (ErrorMsg "fetch failed")
  ∧ merge_outcome
      (merge (Single someEntity)
         (mkTransactionScript None fetchFails (Return tt)
            (Some (ErrorMsg "rollback failed"))))
    = Callback (Some (ErrorMsg "fetch failed")) None.
Proof.
  split; [reflexivity|].
  destruct (@merge_reports_the_triggering_error stringCodec
              (Single someEntity) None fetchFails (Return tt)
              (Some (ErrorMsg "rollback failed")))
    as (_ & Hfetch & _).
  apply (Hfetch (ErrorMsg "fetch failed")); reflexivity.
Defined.

Lemma get_unwraps_a_single_key_witness :
  createReadStream datastoreClient (Single "k") noOptions = Return kStream
  ∧ formatArray ["found"] (wrapNumbers noOptions) = Return ["found"]
  ∧ (get datastoreClient (Single "k") noOptions
       [lookupReply ["found"] []]).2
    = Callback None (Some (Bare (Some "found"))).
Proof.
  split; [reflexivity|]. split; [reflexivity|].
  destruct (@get_unwraps_a_single_key stringCodec datastoreClient
              noOptions [])
    as (_ & Hfound & _).
  apply (Hfound "k" kStream "found" "found"); reflexivity.
Defined.

(** C9, as stated, fails at the read time 0: no [readTime], and no read
    options at all, are composed, so there is no [seconds] field equal
    to [floor (0 / 1000)]. *)
Lemma readTime_zero_composes_nothing :
  readTime (mkOptions None (Some 0) None None None) = Some 0
  ∧ readOptions
      (getRequestOptions datastoreClient (mkOptions None (Some 0) None None None))
    = None
  ∧ ¬ ∃ ro,
      readOptions
        (getRequestOptions datastoreClient
           (mkOptions None (Some 0) None None None)) = Some ro
      ∧ (ro_readTime ro ≫= seconds) = Some (0 / 1000).
Proof.
  split; [reflexivity|]. split; [reflexivity|].
  intros (ro & Hro & _). discriminate.
Qed.

Lemma readTime_composed_witness :
  readTime bothOptions = Some 1700000000123
  ∧ 1700000000123 ≠ 0
  ∧ Z.abs 1700000000123 < 2 ^ 53
  ∧ ∃ ro, readOptions (getRequestOptions datastoreClient bothOptions) = Some ro
          ∧ ro_readTime ro = Some (mkTimestamp (Some 1700000000) None).
Proof.
  split; [reflexivity|]. split; [discriminate|]. split; [reflexivity|].
  destruct (proj1 (readTime_composed_as_whole_seconds datastoreClient
                     bothOptions 1700000000123 eq_refl))
    as (ro & Hro & Hrt & _); [discriminate|reflexivity|].
  exists ro. split; [exact Hro|exact Hrt].
Defined.

Lemma get_hands_precondition_failures_witness :
  createReadStream expiredTransaction (Single "k") bothOptions
    = Throw (ErrorMsg transactionExpiredError)
  ∧ get expiredTransaction (Single "k") bothOptions []
      = (expiredTransaction, [],
         Callback (Some (ErrorMsg transactionExpiredError)) None).
Proof.
  split; [reflexivity|].
  destruct (@get_hands_precondition_failures_to_the_callback stringCodec
              expiredTransaction (Single "k") bothOptions [])
    as (_ & Hcaught & _).
  apply (Hcaught (ErrorMsg transactionExpiredError)). reflexivity.
Defined.

End Runs.


(** * Further properties of the request layer *)

(** ** Composed read options *)

Section ComposedOptions.
Context `{EntityCodec}.

Lemma getRequestOptions_closed this options :
  getRequestOptions this options
    = let newtx := isTransactionInstance this && is_not_started (state this) in
      let c := truthy_string (consistency options) in
      let t := truthy_number (readTime options) in
      set_readOptions
        (if newtx || c || t
         then Some (mkReadOptions (consistency_code options) None
                      (if t
                       then Some (mkTimestamp
                                    (Some (default 0 (readTime options) / 1000))
                                    None)
                       else None)
                      (if newtx
                       then Some (getTransactionRequest this emptyRunOptions)
                       else None)
                      (if newtx then Some "newTransaction" else None))
         else None)
        emptyRequestOptions.
Proof.
  unfold getRequestOptions, consistency_code, isTransaction.
  destruct (isTransactionInstance this && is_not_started (state this));
    destruct (consistency options) as [c|];
    try destruct (truthy_string (Some c)) eqn:Hc;
    destruct (readTime options) as [t|];
    try destruct (truthy_number (Some t)) eqn:Ht;
    cbn; rewrite ?Hc, ?Ht; reflexivity.
Qed.

Lemma throwOnTransactionErrors_composed this options :
  throwOnTransactionErrors this (getRequestOptions this options)
    = if in_transaction this
      then
        if truthy_code (consistency_code options)
        then Throw (ErrorMsg readConsistencyInTransactionError)
        else if truthy_number (readTime options)
        then Throw (ErrorMsg readTimeInTransactionError)
        else Return tt
      else Return tt.
Proof.
  rewrite getRequestOptions_closed. unfold throwOnTransactionErrors, in_transaction.
  cbn zeta.
  assert (Hcode : truthy_string (consistency options) = false →
                  consistency_code options = None).
  { unfold consistency_code. destruct (consistency options) as [c|]; [|done].
    by intros ->. }
  destruct (truthy_handle (id this));
    destruct (isTransactionInstance this && is_not_started (state this));
    destruct (truthy_string (consistency options)) eqn:Hc;
    destruct (truthy_number (readTime options));
    cbn; rewrite ?(Hcode eq_refl); try reflexivity;
    destruct (truthy_code (consistency_code options)); reflexivity.
Qed.

Lemma throwOnTransactionErrors_query this query options :
  throwOnTransactionErrors this (getQueryOptions this query options)
    = throwOnTransactionErrors this (getRequestOptions this options).
Proof.
  apply throwOnTransactionErrors_readOptions, getQueryOptions_readOptions.
Qed.

(** How [createReadStream] decides, one check after the other. *)
Lemma createReadStream_decides this keys options :
  createReadStream this keys options
    = if bool_decide (arrify keys = [])
      then Throw (ErrorMsg keyRequiredError)
      else if is_expired (state this)
      then Throw (ErrorMsg transactionExpiredError)
      else if truthy_number (readTime options)
              && truthy_string (consistency options)
      then Throw (ErrorMsg readTimeAndConsistencyError)
      else if in_transaction this && truthy_code (consistency_code options)
      then Throw (ErrorMsg readConsistencyInTransactionError)
      else if in_transaction this && truthy_number (readTime options)
      then Throw (ErrorMsg readTimeInTransactionError)
      else Return (mkReadStream (map keyToKeyProto (arrify keys))
                     (getRequestOptions this options) options).
Proof.
  unfold createReadStream, checkExpired, throwOnReadTimeAndConsistency.
  rewrite length_map.
  destruct (arrify keys) as [|k ks]; [reflexivity|].
  rewrite bool_decide_eq_false_2 by done. cbn [length Nat.eqb].
  destruct (is_expired (state this)); [reflexivity|]. cbn [rbind].
  destruct (truthy_number (readTime options) && truthy_string (consistency options));
    [reflexivity|]. cbn [rbind].
  rewrite throwOnTransactionErrors_composed.
  destruct (in_transaction this), (truthy_code (consistency_code options)),
    (truthy_number (readTime options)); reflexivity.
Qed.

Lemma runQueryStream_decides this query options :
  runQueryStream this query options
    = if is_expired (state this)
      then Throw (ErrorMsg transactionExpiredError)
      else if truthy_number (readTime options)
              && truthy_string (consistency options)
      then Throw (ErrorMsg readTimeAndConsistencyError)
      else if in_transaction this && truthy_code (consistency_code options)
      then Throw (ErrorMsg readConsistencyInTransactionError)
      else if in_transaction this && truthy_number (readTime options)
      then Throw (ErrorMsg readTimeInTransactionError)
      else Return (mkQueryStream query (getQueryOptions this query options)
                     options).
Proof.
  unfold runQueryStream, checkExpired, throwOnReadTimeAndConsistency.
  destruct (is_expired (state this)); [reflexivity|]. cbn [rbind].
  destruct (truthy_number (readTime options) && truthy_string (consistency options));
    [reflexivity|]. cbn [rbind].
  rewrite throwOnTransactionErrors_query, throwOnTransactionErrors_composed.
  destruct (in_transaction this), (truthy_code (consistency_code options)),
    (truthy_number (readTime options)); reflexivity.
Qed.

End ComposedOptions.

(** ** Read options and transactions *)

Section TransactionOptionsFacts.
Context `{EntityCodec}.

Lemma keys_decide (keys : OneOrMany Key) :
  arrify keys ≠ [] → bool_decide (arrify keys = []) = false.
Proof. intros. by apply bool_decide_eq_false_2. Qed.

Lemma is_expired_false (s : TransactionState) :
  s ≠ EXPIRED → is_expired s = false.
Proof. by destruct s. Qed.

Lemma runAggregationQuery_gate this query options script queryProto e :
  state this ≠ EXPIRED →
  truthy_number (readTime options) && truthy_string (consistency options) = false →
  queryToQueryProto (aq_query query) = Return queryProto →
  throwOnTransactionErrors this (getRequestOptions this options) = Throw e →
  runAggregationQuery this query options script
    = (this, [], Callback (Some e) None).
Proof.
  intros Hs Hboth Hq Ht. unfold runAggregationQuery.
  rewrite (is_expired_false _ Hs), Hboth, Hq, throwOnTransactionErrors_query, Ht.
  reflexivity.
Qed.

(** X1.  Inside a transaction (the request has a handle, or is a
    transaction that has not started and so begins with this call), a
    read consistency for which the table yields a truthy value and a read
    time are rejected although they are legal elsewhere: in a state other than [EXPIRED],
    [createReadStream] and [runQueryStream] throw "Read consistency cannot
    be specified in a transaction." or "Read time cannot be specified in a
    transaction.", and [get], [runQuery] and [runAggregationQuery] hand
    that error to the callback, with no RPC issued. *)
Theorem transactions_reject_consistency_and_read_time
    (this : DatastoreRequest) (options : RunQueryStreamOptions) :
  in_transaction this = true →
  state this ≠ EXPIRED →
  (truthy_code (consistency_code options) = true →
   truthy_number (readTime options) = false →
     (∀ keys, arrify keys ≠ [] →
        createReadStream this keys options
          = Throw (ErrorMsg readConsistencyInTransactionError))
     ∧ (∀ keys script, arrify keys ≠ [] →
          get this keys options script
            = (this, [],
               Callback (Some (ErrorMsg readConsistencyInTransactionError)) None))
     ∧ (∀ query,
          runQueryStream this query options
            = Throw (ErrorMsg readConsistencyInTransactionError))
     ∧ (∀ query script,
          runQuery this query options script
            = (this, [],
               Callback (Some (ErrorMsg readConsistencyInTransactionError)) None))
     ∧ (∀ query script queryProto,
          queryToQueryProto (aq_query query) = Return queryProto →
          runAggregationQuery this query options script
            = (this, [],
               Callback (Some (ErrorMsg readConsistencyInTransactionError)) None)))
  ∧ (truthy_number (readTime options) = true →
     truthy_string (consistency options) = false →
       (∀ keys, arrify keys ≠ [] →
          createReadStream this keys options
            = Throw (ErrorMsg readTimeInTransactionError))
       ∧ (∀ keys script, arrify keys ≠ [] →
            get this keys options script
              = (this, [],
                 Callback (Some (ErrorMsg readTimeInTransactionError)) None))
       ∧ (∀ query,
            runQueryStream this query options
              = Throw (ErrorMsg readTimeInTransactionError))
       ∧ (∀ query script,
            runQuery this query options script
              = (this, [],
                 Callback (Some (ErrorMsg readTimeInTransactionError)) None))
       ∧ (∀ query script queryProto,
            queryToQueryProto (aq_query query) = Return queryProto →
            runAggregationQuery this query options script
              = (this, [],
                 Callback (Some (ErrorMsg readTimeInTransactionError)) None))).
Proof.
  intros Htx Hs. pose proof (is_expired_false _ Hs) as Hexp.
  split.
  - intros Hc Ht.
    assert (Hcrs : ∀ keys, arrify keys ≠ [] →
              createReadStream this keys options
                = Throw (ErrorMsg readConsistencyInTransactionError)).
    { intros keys Hk.
      by rewrite createReadStream_decides, (keys_decide keys Hk), Hexp, Ht, Htx, Hc. }
    assert (Hrqs : ∀ query,
              runQueryStream this query options
                = Throw (ErrorMsg readConsistencyInTransactionError)).
    { intros query. by rewrite runQueryStream_decides, Hexp, Ht, Htx, Hc. }
    split; [exact Hcrs|]. split; [|split; [exact Hrqs|split]].
    + intros keys script Hk. unfold get. by rewrite Hcrs.
    + intros query script. unfold runQuery. by rewrite Hrqs.
    + intros query script queryProto Hq.
      apply (runAggregationQuery_gate _ _ _ _ queryProto); try done.
      * by rewrite Ht.
      * by rewrite throwOnTransactionErrors_composed, Htx, Hc.
  - intros Ht Hc.
    assert (Hcode : truthy_code (consistency_code options) = false).
    { unfold consistency_code. destruct (consistency options) as [c|]; [|done].
      by rewrite Hc. }
    assert (Hcrs : ∀ keys, arrify keys ≠ [] →
              createReadStream this keys options
                = Throw (ErrorMsg readTimeInTransactionError)).
    { intros keys Hk.
      by rewrite createReadStream_decides, (keys_decide keys Hk), Hexp, Ht, Hc,
        Htx, Hcode. }
    assert (Hrqs : ∀ query,
              runQueryStream this query options
                = Throw (ErrorMsg readTimeInTransactionError)).
    { intros query. by rewrite runQueryStream_decides, Hexp, Ht, Hc, Htx, Hcode. }
    split; [exact Hcrs|]. split; [|split; [exact Hrqs|split]].
    + intros keys script Hk. unfold get. by rewrite Hcrs.
    + intros query script. unfold runQuery. by rewrite Hrqs.
    + intros query script queryProto Hq.
      apply (runAggregationQuery_gate _ _ _ _ queryProto); try done.
      * by rewrite Ht, Hc.
      * by rewrite throwOnTransactionErrors_composed, Htx, Hcode, Ht.
Qed.

(** X2.  [runQueryStream] returns a stream exactly when the state is not
    [EXPIRED], read time and consistency are not both set, and, inside a
    transaction, neither a consistency that composes a truthy code nor a
    read time is set; the stream then holds the query and the composed
    options.  [createReadStream] returns a stream only when it is given at
    least one key and the same conditions hold, and the stream then holds
    the protos of the keys and the composed options.  So a consistency or
    a read time alone is accepted outside a transaction. *)
Theorem reading_streams_are_created_exactly_when
    (this : DatastoreRequest) (options : RunQueryStreamOptions) :
  let options_ok :=
    state this ≠ EXPIRED
    ∧ truthy_number (readTime options) && truthy_string (consistency options)
      = false
    ∧ (in_transaction this = true →
       truthy_code (consistency_code options) = false
       ∧ truthy_number (readTime options) = false) in
  (∀ query s,
     runQueryStream this query options = Return s
     ↔ options_ok
       ∧ s = mkQueryStream query (getQueryOptions this query options) options)
  ∧ (∀ keys s,
       createReadStream this keys options = Return s →
       arrify keys ≠ [] ∧ options_ok
       ∧ s = mkReadStream (map keyToKeyProto (arrify keys))
               (getRequestOptions this options) options).
Proof.
  intros options_ok. subst options_ok. split.
  - intros query s. rewrite runQueryStream_decides.
    destruct (state this) eqn:Hst; cbn [is_expired];
      try (split; [discriminate|intros ((? & _) & _); done]);
      destruct (truthy_number (readTime options)) eqn:Ht,
               (truthy_string (consistency options)) eqn:Hc,
               (in_transaction this) eqn:Htx,
               (truthy_code (consistency_code options)) eqn:Hcode;
      cbn [andb];
      first
        [ split; [intros [= <-]; repeat split; done || discriminate
                 |by intros (_ & ->)]
        | split; [discriminate|];
          intros ((_ & Hboth & Hin) & _);
          first [discriminate | by destruct (Hin eq_refl)] ].
  - intros keys s. rewrite createReadStream_decides.
    destruct (decide (arrify keys = [])) as [Hk|Hk].
    { rewrite bool_decide_eq_true_2 by done. discriminate. }
    rewrite bool_decide_eq_false_2 by done.
    destruct (state this) eqn:Hst; cbn [is_expired]; try discriminate;
      destruct (truthy_number (readTime options)) eqn:Ht,
               (truthy_string (consistency options)) eqn:Hc,
               (in_transaction this) eqn:Htx,
               (truthy_code (consistency_code options)) eqn:Hcode;
      cbn [andb]; try discriminate;
      intros [= <-]; repeat split; done || discriminate.
Qed.

End TransactionOptionsFacts.

Section ComposerMore.
Context `{EntityCodec}.

Lemma truthy_string_Some (s : string) :
  truthy_string (Some s) = true ↔ s ≠ "".
Proof.
  unfold truthy_string. rewrite negb_true_iff. apply String.eqb_neq.
Qed.

Lemma readOptions_composed this options :
  readOptions (getRequestOptions this options)
    = let newtx := isTransactionInstance this && is_not_started (state this) in
      let c := truthy_string (consistency options) in
      let t := truthy_number (readTime options) in
      if newtx || c || t
      then Some (mkReadOptions (consistency_code options) None
                   (if t
                    then Some (mkTimestamp
                                 (Some (default 0 (readTime options) / 1000))
                                 None)
                    else None)
                   (if newtx
                    then Some (getTransactionRequest this emptyRunOptions)
                    else None)
                   (if newtx then Some "newTransaction" else None))
      else None.
Proof. by rewrite getRequestOptions_closed. Qed.

Lemma lower_ascii_idemp (a : ascii) :
  lower_ascii (lower_ascii a) = lower_ascii a.
Proof. by destruct a as [[] [] [] [] [] [] [] []]. Qed.

Lemma toLowerCase_idemp (s : string) :
  toLowerCase (toLowerCase s) = toLowerCase s.
Proof.
  induction s as [|a s IH]; [done|].
  cbn [toLowerCase]. by rewrite lower_ascii_idemp, IH.
Qed.

(** Of the members of [Object.prototype] only two have a name that
    [toLowerCase] can return. *)
Lemma CONSISTENCY_PROTO_CODE_lowercase (c : string) :
  CONSISTENCY_PROTO_CODE (toLowerCase c)
    = if String.eqb (toLowerCase c) "eventual" then Some (Code 2)
      else if String.eqb (toLowerCase c) "strong" then Some (Code 1)
      else if String.eqb (toLowerCase c) "constructor"
              || String.eqb (toLowerCase c) "__proto__"
      then Some (Inherited (toLowerCase c))
      else None.
Proof.
  unfold CONSISTENCY_PROTO_CODE, Object_prototype. cbn [existsb].
  destruct (String.eqb (toLowerCase c) "eventual"); [done|].
  destruct (String.eqb (toLowerCase c) "strong"); [done|].
  destruct (String.eqb (toLowerCase c) "constructor"); [done|].
  destruct (String.eqb (toLowerCase c) "__proto__"); [done|].
  cbn [orb].
  repeat match goal with
         | |- context [String.eqb (toLowerCase c) ?m] =>
             destruct (String.eqb_spec (toLowerCase c) m) as [Hm|_];
               [exfalso; pose proof (f_equal toLowerCase Hm) as Hm';
                rewrite toLowerCase_idemp, Hm in Hm'; vm_compute in Hm';
                discriminate Hm'|]
         end.
  reflexivity.
Qed.

(** X3.  A consistency is composed case-insensitively, by indexing the
    table with its lowercased name: a non-empty value that is "strong"
    once lowercased composes [readConsistency] 1 and one that is
    "eventual" composes 2.  One that is "constructor" or "__proto__"
    composes the member of that name that the table inherits, which is
    truthy, so that inside a transaction it is rejected like a known
    consistency.  Any other value composes an absent [readConsistency],
    and is not rejected inside a transaction. *)
Theorem consistency_is_composed_by_its_lowercase_name
    (this : DatastoreRequest) (options : RunQueryStreamOptions) (c : string) :
  consistency options = Some c →
  c ≠ "" →
  (toLowerCase c = "strong" →
     ∃ ro, readOptions (getRequestOptions this options) = Some ro
           ∧ readConsistency ro = Some (Code 1))
  ∧ (toLowerCase c = "eventual" →
       ∃ ro, readOptions (getRequestOptions this options) = Some ro
             ∧ readConsistency ro = Some (Code 2))
  ∧ (toLowerCase c = "constructor" ∨ toLowerCase c = "__proto__" →
       (∃ ro, readOptions (getRequestOptions this options) = Some ro
              ∧ readConsistency ro = Some (Inherited (toLowerCase c)))
       ∧ (in_transaction this = true →
          state this ≠ EXPIRED →
          truthy_number (readTime options) = false →
          ∀ query,
            runQueryStream this query options
              = Throw (ErrorMsg readConsistencyInTransactionError)))
  ∧ (toLowerCase c ≠ "strong" → toLowerCase c ≠ "eventual" →
     toLowerCase c ≠ "constructor" → toLowerCase c ≠ "__proto__" →
       (∃ ro, readOptions (getRequestOptions this options) = Some ro
              ∧ readConsistency ro = None)
       ∧ (truthy_number (readTime options) = false →
          state this ≠ EXPIRED →
          ∀ query,
            runQueryStream this query options
              = Return (mkQueryStream query
                          (getQueryOptions this query options) options))).
Proof.
  intros Hc Hne. apply truthy_string_Some in Hne.
  assert (Htruthy : truthy_string (consistency options) = true)
    by (by rewrite Hc).
  assert (Hcode : consistency_code options = CONSISTENCY_PROTO_CODE (toLowerCase c)).
  { unfold consistency_code. by rewrite Hc, Hne. }
  assert (Hro : ∃ ro, readOptions (getRequestOptions this options) = Some ro
                      ∧ readConsistency ro = CONSISTENCY_PROTO_CODE (toLowerCase c)).
  { rewrite readOptions_composed. cbn zeta. rewrite Htruthy, orb_true_r.
    cbn [orb]. eexists. split; [reflexivity|]. by rewrite <- Hcode. }
  destruct Hro as (ro & Hro & Hrc).
  rewrite CONSISTENCY_PROTO_CODE_lowercase in Hrc, Hcode.
  split; [|split; [|split]].
  - intros Hl. exists ro. split; [done|]. by rewrite Hrc, Hl.
  - intros Hl. exists ro. split; [done|]. by rewrite Hrc, Hl.
  - intros Hl.
    assert (Hinherited : consistency_code options
                         = Some (Inherited (toLowerCase c))).
    { rewrite Hcode. by destruct Hl as [-> | ->]. }
    split.
    + exists ro. split; [done|]. by rewrite Hrc, <- Hcode.
    + intros Hin Hst Ht query.
      rewrite runQueryStream_decides, (is_expired_false _ Hst), Ht, Hin,
        Hinherited.
      reflexivity.
  - intros Hs He Hctor Hproto.
    apply String.eqb_neq in Hs, He, Hctor, Hproto.
    rewrite He, Hs, Hctor, Hproto in Hrc, Hcode. cbn [orb] in Hrc, Hcode.
    split.
    + by exists ro.
    + intros Ht Hst query.
      rewrite runQueryStream_decides, (is_expired_false _ Hst), Ht, Hcode.
      cbn. by rewrite !andb_false_r.
Qed.

(** X4.  The composed read options ask the server to begin a transaction
    exactly when the request is a [Transaction] object in state
    [NOT_STARTED]: then [newTransaction] is set, read-only if the
    transaction is read-only, else read-write retrying the transaction's
    previous handle if it has one, and [consistencyType] is
    ["newTransaction"].  In every other case neither field is composed.
    The composer never fills in [readOptions.transaction], and a query's
    options carry the same read options. *)
Theorem new_transaction_is_requested_exactly_when_not_started
    (this : DatastoreRequest) (options : RunQueryStreamOptions) :
  (isTransactionInstance this = true → state this = NOT_STARTED →
     ∃ ro, readOptions (getRequestOptions this options) = Some ro
           ∧ newTransaction ro
               = Some (if readOnly this then TROReadOnly
                       else if truthy_handle (id this)
                       then TROReadWrite (id this)
                       else TROEmpty)
           ∧ consistencyType ro = Some "newTransaction")
  ∧ (isTransactionInstance this = false ∨ state this ≠ NOT_STARTED →
       ∀ ro, readOptions (getRequestOptions this options) = Some ro →
             newTransaction ro = None ∧ consistencyType ro = None)
  ∧ (∀ ro, readOptions (getRequestOptions this options) = Some ro →
           ro_transaction ro = None)
  ∧ (∀ query,
       readOptions (getQueryOptions this query options)
         = readOptions (getRequestOptions this options)).
Proof.
  rewrite readOptions_composed. cbn zeta.
  split; [|split; [|split]].
  - intros -> ->. cbn. eexists. repeat split.
  - intros Hno.
    assert (Hnewtx : isTransactionInstance this && is_not_started (state this)
                     = false).
    { destruct Hno as [->|Hst]; [done|].
      destruct (state this); try done; cbn; apply andb_false_r. }
    rewrite Hnewtx. cbn [orb].
    destruct (truthy_string (consistency options) || truthy_number (readTime options));
      [|discriminate].
    by intros ro [= <-].
  - destruct (_ || _ || _); [|discriminate]. by intros ro [= <-].
  - intros query. rewrite <- readOptions_composed.
    apply getQueryOptions_readOptions.
Qed.

(** X5.  [getTransactionRequest] gives [transactionOptions], when they are
    given, precedence over everything else: the result then depends on
    them alone.  Without them a read-only flag on the options or on the
    transaction gives a read-only request, and otherwise the previous
    transaction to retry is the option's [transactionId] if it is set and
    the transaction's own handle if not.  A read-write request never names
    an empty previous transaction. *)
Theorem getTransactionRequest_precedence
    (transaction : DatastoreRequest) (options : RunOptions) :
  (∀ topts transaction' readOnly' transactionId',
     transactionOptions options = Some topts →
     getTransactionRequest transaction options
       = getTransactionRequest transaction'
           (mkRunOptions (Some topts) readOnly' transactionId'))
  ∧ (transactionOptions options = None →
     (run_readOnly options = true ∨ readOnly transaction = true →
        getTransactionRequest transaction options = TROReadOnly)
     ∧ (run_readOnly options = false → readOnly transaction = false →
          getTransactionRequest transaction options
            = if truthy_handle (transactionId options)
              then TROReadWrite (transactionId options)
              else if truthy_handle (id transaction)
              then TROReadWrite (id transaction)
              else TROEmpty))
  ∧ (∀ previous,
       getTransactionRequest transaction options = TROReadWrite previous →
       truthy_handle previous = true).
Proof.
  unfold getTransactionRequest. split; [|split].
  - by intros topts transaction' readOnly' transactionId' ->.
  - intros ->. split.
    + intros [-> | ->]; [done|]. by rewrite orb_true_r.
    + by intros -> ->.
  - intros previous.
    destruct (transactionOptions options) as [topts|].
    + destruct (to_readOnly topts); [discriminate|].
      destruct (truthy_handle (to_id topts)) eqn:E; [|discriminate].
      by intros [= <-].
    + destruct (run_readOnly options || readOnly transaction); [discriminate|].
      destruct (truthy_handle (transactionId options)) eqn:E1;
        [by intros [= <-]|].
      destruct (truthy_handle (id transaction)) eqn:E2; [|discriminate].
      by intros [= <-].
Qed.

End ComposerMore.

(** ** Prepared requests *)

Section PreparedRequests.
Context `{EntityCodec}.

(** [prepareGaxRequest_] with its branches named. *)
Lemma prepareGaxRequest__closed this cfg :
  prepareGaxRequest_ this cfg
    = let r := reqOpts cfg in
      let committed :=
        if String.eqb (method cfg) "commit"
        then
          if truthy_handle (id this)
          then set_transaction (id this) (set_mode (Some "TRANSACTIONAL") r)
          else set_mode (Some "NON_TRANSACTIONAL") r
        else r in
      let based :=
        if truthy_string (datastore_databaseId this)
        then set_databaseId (datastore_databaseId this) committed
        else committed in
      let rolled :=
        if String.eqb (method cfg) "rollback"
        then set_transaction (id this) based
        else based in
      match throwOnTransactionErrors this r with
      | Throw e => Throw e
      | Return _ =>
          Return
            (if truthy_handle (id this) && is_read_method (method cfg)
             then
               let ro := readOptions_or_empty r in
               set_readOptions
                 (Some (mkReadOptions (readConsistency ro) (id this)
                          (ro_readTime ro) (newTransaction ro)
                          (consistencyType ro)))
                 rolled
             else rolled)
      end.
Proof.
  unfold prepareGaxRequest_, is_read_method. cbn zeta.
  match goal with
  | |- rbind (throwOnTransactionErrors this ?r') _ = _ =>
      rewrite (throwOnTransactionErrors_readOptions this r' (reqOpts cfg))
  end.
  - destruct (throwOnTransactionErrors this (reqOpts cfg)); [|reflexivity].
    cbn [rbind]. f_equal.
    destruct (truthy_handle (id this) && _); [|reflexivity].
    f_equal. unfold readOptions_or_empty.
    destruct (String.eqb (method cfg) "commit"), (truthy_handle (id this)),
      (truthy_string (datastore_databaseId this)),
      (String.eqb (method cfg) "rollback"); reflexivity.
  - destruct (String.eqb (method cfg) "commit"), (truthy_handle (id this)),
      (truthy_string (datastore_databaseId this)),
      (String.eqb (method cfg) "rollback"); reflexivity.
Qed.

Lemma request__ok this cfg r :
  throwOnTransactionErrors this r = Return tt →
  readOptions (reqOpts cfg) = readOptions r →
  ∃ sent, request_ this cfg = Return sent.
Proof.
  intros Hok Hro. unfold request_. rewrite prepareGaxRequest__closed. cbn zeta.
  rewrite (throwOnTransactionErrors_readOptions this (reqOpts cfg) r Hro), Hok.
  by eexists.
Qed.

Lemma throwOnTransactionErrors_no_readOptions this r :
  readOptions r = None → throwOnTransactionErrors this r = Return tt.
Proof.
  intros Hro. unfold throwOnTransactionErrors. rewrite Hro.
  by destruct (truthy_handle (id this)).
Qed.

(** X6.  A prepared [commit] request is [TRANSACTIONAL] and names the
    handle exactly when the request object has one, and is
    [NON_TRANSACTIONAL] otherwise; a prepared [rollback] names the handle;
    for every other method the mode and the transaction of the request are
    left as they were given. *)
Theorem prepared_commit_mode_follows_the_handle
    (this : DatastoreRequest) (cfg : RequestConfig) (sent : RequestOptions) :
  prepareGaxRequest_ this cfg = Return sent →
  (method cfg = "commit" →
     if truthy_handle (id this)
     then mode sent = Some "TRANSACTIONAL" ∧ transaction sent = id this
     else mode sent = Some "NON_TRANSACTIONAL"
          ∧ transaction sent = transaction (reqOpts cfg))
  ∧ (method cfg = "rollback" →
       transaction sent = id this ∧ mode sent = mode (reqOpts cfg))
  ∧ (method cfg ≠ "commit" → method cfg ≠ "rollback" →
       mode sent = mode (reqOpts cfg)
       ∧ transaction sent = transaction (reqOpts cfg)).
Proof.
  rewrite prepareGaxRequest__closed. cbn zeta.
  destruct (throwOnTransactionErrors this (reqOpts cfg)); [|discriminate].
  intros [= <-]. split; [|split].
  - intros ->. cbn.
    destruct (truthy_handle (id this)),
      (truthy_string (datastore_databaseId this)); cbn; done.
  - intros ->. cbn.
    destruct (truthy_handle (id this)),
      (truthy_string (datastore_databaseId this)); cbn; done.
  - intros Hc Hr. apply String.eqb_neq in Hc, Hr. rewrite Hc, Hr.
    destruct (truthy_handle (id this) && is_read_method (method cfg)),
      (truthy_string (datastore_databaseId this)); cbn; done.
Qed.

(** X7.  [prepareGaxRequest_] throws exactly what
    [throwOnTransactionErrors] throws on the request options it was
    given, for every method.  When it does not throw: a [lookup],
    [runQuery] or [runAggregationQuery] request of a request object with a
    handle carries that handle in [readOptions.transaction], its other
    read options kept, and every other request keeps its read options;
    the keys, mutations, query, aggregation query, explain options and
    partition of the request are never changed; the database id of the
    client is filled in when it is set; and a request sent with a handle
    never carries a read consistency or a read time. *)
Theorem prepared_reads_carry_the_handle
    (this : DatastoreRequest) (cfg : RequestConfig) :
  (∀ e, prepareGaxRequest_ this cfg = Throw e
        ↔ throwOnTransactionErrors this (reqOpts cfg) = Throw e)
  ∧ ∀ sent, prepareGaxRequest_ this cfg = Return sent →
      readOptions sent
        = (if truthy_handle (id this) && is_read_method (method cfg)
           then
             let ro := readOptions_or_empty (reqOpts cfg) in
             Some (mkReadOptions (readConsistency ro) (id this)
                     (ro_readTime ro) (newTransaction ro) (consistencyType ro))
           else readOptions (reqOpts cfg))
      ∧ keys sent = keys (reqOpts cfg)
      ∧ mutations sent = mutations (reqOpts cfg)
      ∧ query sent = query (reqOpts cfg)
      ∧ aggregationQuery sent = aggregationQuery (reqOpts cfg)
      ∧ explainOptions sent = explainOptions (reqOpts cfg)
      ∧ partitionId sent = partitionId (reqOpts cfg)
      ∧ databaseId sent
          = (if truthy_string (datastore_databaseId this)
             then datastore_databaseId this
             else databaseId (reqOpts cfg))
      ∧ (truthy_handle (id this) = true →
         ∀ ro, readOptions sent = Some ro →
               truthy_code (readConsistency ro) = false
               ∧ ro_readTime ro = None).
Proof.
  rewrite prepareGaxRequest__closed. cbn zeta. split.
  - intros e. destruct (throwOnTransactionErrors this (reqOpts cfg));
      [split; discriminate|split; by intros [= <-]].
  - intros sent.
    destruct (throwOnTransactionErrors this (reqOpts cfg)) as [[]|] eqn:Hok;
      [|discriminate].
    intros [= <-].
    repeat match goal with |- _ ∧ _ => split end;
      try (destruct (String.eqb (method cfg) "commit"),
             (truthy_handle (id this)), (is_read_method (method cfg)),
             (truthy_string (datastore_databaseId this)),
             (String.eqb (method cfg) "rollback"); reflexivity).
    intros Hid ro. revert Hok. unfold throwOnTransactionErrors.
    rewrite Hid. cbn [orb andb]. unfold readOptions_or_empty.
    destruct (readOptions (reqOpts cfg)) as [ro0|] eqn:Hro0; cbn [default].
    + destruct (truthy_code (readConsistency ro0)) eqn:Hrc; [discriminate|].
      destruct (ro_readTime ro0) eqn:Hrt; [discriminate|]. intros _.
      destruct (is_read_method (method cfg)),
        (String.eqb (method cfg) "commit"),
        (truthy_string (datastore_databaseId this)),
        (String.eqb (method cfg) "rollback"); cbn; rewrite ?Hro0;
        intros [= <-]; cbn; by rewrite ?Hrc, ?Hrt.
    + intros _.
      destruct (is_read_method (method cfg)),
        (String.eqb (method cfg) "commit"),
        (truthy_string (datastore_databaseId this)),
        (String.eqb (method cfg) "rollback"); cbn; rewrite ?Hro0;
        (intros [= <-] || discriminate); done.
Qed.

Lemma allocateIds_request_ok this key n gaxOptions :
  ∃ sent, request_ this (allocateIdsConfig key n gaxOptions) = Return sent.
Proof.
  apply (request__ok this _ emptyRequestOptions); [|done].
  by apply throwOnTransactionErrors_no_readOptions.
Qed.

Lemma allocateIds_closed this key options script :
  allocateIds this key options script
    = if isKeyComplete key
      then (this, [], Thrown (ErrorMsg incompleteKeyError))
      else
        match new_Array_length (allocations_of options) with
        | Throw e => (this, [], Thrown e)
        | Return n =>
            (this,
             [allocateIdsConfig key n (gaxOptions_of options)],
             match script with
             | [] => Awaiting
             | args :: _ =>
                 match cb_err args, cb_resp args with
                 | Some err, _ => Callback (Some err) None
                 | None, None => EscapedLater TypeError
                 | None, Some resp =>
                     Callback None
                       (Some (map keyFromKeyProto (default [] (ai_keys resp))))
                 end
             end)
        end.
Proof.
  unfold allocateIds. destruct (isKeyComplete key); [reflexivity|].
  assert (Hcfg : ∀ n g,
            mkRequestConfig "DatastoreClient" "allocateIds"
              (set_keys (Some (replicate n (keyToKeyProto key)))
                 emptyRequestOptions) g
            = allocateIdsConfig key n g) by reflexivity.
  destruct options as [n|a g]; cbn [allocations_of gaxOptions_of];
    unfold filled_array;
    destruct (new_Array_length _) as [len|e]; cbn [rbind]; try reflexivity;
    rewrite Hcfg.
  - destruct (allocateIds_request_ok this key len None) as (sent & Hsent).
    by rewrite Hsent.
  - destruct (allocateIds_request_ok this key len g) as (sent & Hsent).
    by rewrite Hsent.
Qed.

End PreparedRequests.

(** ** Lookup streams *)

Section LookupStreams.
Context `{EntityCodec}.

(** A round of a lookup stream, for any consumer. *)
Lemma onLookupResponse_closed s this consumer args :
  onLookupResponse s this consumer args
    = let this' :=
        parseTransactionResponse this (lr_transaction <$> cb_resp args) in
      match round_entities s args with
      | Throw err => Stop this' [] [] (Destroyed err)
      | Return entities =>
          let '(pushed, streamEnded, consumer') := split entities consumer in
          if streamEnded then Stop this' pushed [] ConsumerEnded
          else if (0 <? length (nextKeys_of args))%nat
          then Next this' pushed (nextKeys_of args) consumer'
          else Stop this' pushed [] Ended
      end.
Proof.
  unfold onLookupResponse, round_entities, nextKeys_of, deferred_of.
  destruct (cb_err args); [reflexivity|].
  destruct (cb_resp args) as [resp|]; [|reflexivity]. cbn.
  destruct (found resp) as [results|]; [|reflexivity].
  destruct (formatArray results _); reflexivity.
Qed.

Lemma createReadStream_request this keys options s keys' :
  createReadStream this keys options = Return s →
  ∃ sent, request_ this (lookupConfig s keys') = Return sent.
Proof.
  intros Hs. apply createReadStream_Return in Hs as (-> & _ & Hok).
  by apply request__lookup.
Qed.

Lemma makeLookupRequest_first s script this keys consumer sent :
  request_ this (lookupConfig s keys) = Return sent →
  run_rpcs (makeLookupRequest s script this keys consumer) !! 0%nat
    = Some (lookupConfig s keys).
Proof.
  intros Hsent. destruct script as [|args script]; cbn [makeLookupRequest];
    rewrite Hsent; [reflexivity|].
  by destruct (onLookupResponse s this consumer args).
Qed.

Lemma parseTransactionResponse_no_handle this resp :
  carries_handle resp = false → parseTransactionResponse this resp = this.
Proof. intros Hc. by rewrite parseTransactionResponse_carries, Hc. Qed.

Lemma makeLookupRequest_no_handle s script :
  ∀ this keys consumer,
    (∀ keys', ∃ sent, request_ this (lookupConfig s keys') = Return sent) →
    Forall (λ args, lookup_handle args = false) script →
    let run := makeLookupRequest s script this keys consumer in
    run_this run = this ∧ ∀ e, run_status run ≠ Escaped e.
Proof.
  induction script as [|args script IH]; intros this keys consumer Hreq Hno;
    cbn [makeLookupRequest]; destruct (Hreq keys) as (sent & ->).
  - done.
  - apply Forall_cons in Hno as (Hargs & Hno).
    rewrite onLookupResponse_closed. cbn zeta.
    rewrite (parseTransactionResponse_no_handle this _ Hargs).
    destruct (round_entities s args) as [entities|err]; [|done].
    destruct (split entities consumer) as [[pushed streamEnded] consumer'].
    destruct streamEnded; [done|].
    destruct (0 <? length (nextKeys_of args))%nat; [|done].
    apply (IH this (nextKeys_of args) consumer' Hreq Hno).
Qed.

Lemma makeLookupRequest_plain_options s script :
  (∀ this' keys', ∃ sent, request_ this' (lookupConfig s keys') = Return sent) →
  ∀ this keys consumer e,
    run_status (makeLookupRequest s script this keys consumer) ≠ Escaped e.
Proof.
  intros Hreq.
  induction script as [|args script IH]; intros this keys consumer e;
    cbn [makeLookupRequest]; destruct (Hreq this keys) as (sent & ->).
  - done.
  - rewrite onLookupResponse_closed. cbn zeta.
    destruct (round_entities s args) as [entities|err]; [|done].
    destruct (split entities consumer) as [[pushed streamEnded] consumer'].
    destruct streamEnded; [done|].
    destruct (0 <? length (nextKeys_of args))%nat; [|done].
    apply IH.
Qed.

(** X9.  A lookup stream that [createReadStream] returned issues its first
    RPC as soon as it is read: a [lookup] with the protos of the caller's
    keys, the composed read options and the caller's call options; the
    check that [request_] repeats cannot fail then.  No later round fails
    that check either, so that no exception escapes the stream, when no
    reply carries a transaction handle (the request object then stays as
    it was), or when the options name neither a consistency that composes
    a truthy code nor a read time. *)
Theorem lookup_stream_issues_its_rounds
    (this : DatastoreRequest) (ks : OneOrMany Key)
    (options : RunQueryStreamOptions) (s : ReadStream) :
  createReadStream this ks options = Return s →
  (∀ script consumer,
     ∃ cfg,
       run_rpcs (readStream_run s script this consumer) !! 0%nat = Some cfg
       ∧ method cfg = "lookup"
       ∧ keys (reqOpts cfg) = Some (map keyToKeyProto (arrify ks))
       ∧ readOptions (reqOpts cfg)
         = readOptions (getRequestOptions this options)
       ∧ gaxOpts cfg = gaxOptions options)
  ∧ (∀ script consumer,
       Forall (λ args, lookup_handle args = false) script →
       run_this (readStream_run s script this consumer) = this
       ∧ ∀ e, run_status (readStream_run s script this consumer) ≠ Escaped e)
  ∧ (truthy_code (consistency_code options) = false →
     truthy_number (readTime options) = false →
     ∀ script consumer e,
       run_status (readStream_run s script this consumer) ≠ Escaped e).
Proof.
  intros Hs.
  pose proof (createReadStream_Return _ _ _ _ Hs) as (Hshape & Hk & Hok).
  assert (Hkeys : rs_keys s = map keyToKeyProto (arrify ks))
    by (by rewrite Hshape).
  split; [|split].
  - intros script consumer. unfold readStream_run. rewrite Hkeys.
    destruct (createReadStream_request _ _ _ _
                (map keyToKeyProto (arrify ks)) Hs) as (sent & Hsent).
    exists (lookupConfig s (map keyToKeyProto (arrify ks))).
    split; [by eapply makeLookupRequest_first|].
    rewrite Hshape. by repeat split.
  - intros script consumer Hno. unfold readStream_run.
    apply makeLookupRequest_no_handle; [|done].
    intros keys'. by eapply createReadStream_request.
  - intros Hcode Ht script consumer e. unfold readStream_run.
    apply makeLookupRequest_plain_options.
    intros this' keys'. apply (request__ok this' _ (rs_reqOpts s)); [|done].
    rewrite Hshape. cbn [rs_reqOpts].
    rewrite getRequestOptions_closed. unfold throwOnTransactionErrors.
    cbn zeta. rewrite Ht.
    destruct (truthy_handle (id this')),
      (isTransactionInstance this && is_not_started (state this)),
      (truthy_string (consistency options)); cbn; rewrite ?Hcode; done.
Qed.

(** A lookup stream read by a consumer that ends it after [n] entities,
    against the same stream read to the end. *)
Lemma makeLookupRequest_early s script :
  ∀ this keys n,
    let full := makeLookupRequest s script this keys None in
    let part := makeLookupRequest s script this keys (Some n) in
    run_emitted part = take n (run_emitted full)
    ∧ run_rpcs part `prefix_of` run_rpcs full
    ∧ ((length (run_emitted full) < n)%nat → part = full)
    ∧ ((0 < n ≤ length (run_emitted full))%nat →
       run_status part = ConsumerEnded).
Proof.
  induction script as [|args script IH]; intros this keys n;
    cbn [makeLookupRequest]; destruct (request_ this _) as [sent|e].
  - cbn. rewrite take_nil. repeat split; try done. lia.
  - cbn. rewrite take_nil. repeat split; try done. lia.
  - rewrite !onLookupResponse_closed. cbn zeta.
    destruct (round_entities s args) as [entities|err].
    2:{ cbn. rewrite take_nil. repeat split; try done. lia. }
    cbn [split].
    destruct (Nat.leb_spec n (length entities)) as [Hle|Hgt].
    + (* the consumer ends the stream in this round *)
      destruct (0 <? length (nextKeys_of args))%nat; cbn.
      * rewrite take_app_le by done. repeat split; try done.
        -- apply prefix_cons, prefix_nil.
        -- rewrite length_app. lia.
      * repeat split; try done. lia.
    + destruct (0 <? length (nextKeys_of args))%nat.
      * specialize (IH (parseTransactionResponse this
                          (lr_transaction <$> cb_resp args))
                       (nextKeys_of args) (n - length entities)%nat).
        cbn zeta in IH. destruct IH as (IHem & IHrpc & IHfull & IHend).
        unfold round_then. cbn.
        rewrite IHem, take_app_ge by lia.
        split; [done|]. split; [by apply prefix_cons|]. split.
        -- rewrite length_app. intros Hlt. rewrite IHfull by lia.
           by rewrite take_ge by lia.
        -- rewrite length_app. intros Hn. apply IHend. lia.
      * cbn. rewrite take_ge by lia.
        repeat split; try done. lia.
  - cbn. rewrite take_nil. repeat split; try done. lia.
Qed.

(** X10.  A consumer that ends a lookup stream after [n] entities receives
    the first [n] entities of what the stream would emit read to the end,
    and the RPCs issued are an initial part of the RPCs of the full read:
    once the consumer has ended the stream no further round is issued.
    The stream is ended by the consumer if the full read emits at least
    [n] entities ([n] positive), and runs exactly as the full read if it
    emits fewer. *)
Theorem lookup_stream_ended_by_its_consumer
    (s : ReadStream) (script : list (CallbackArgs LookupResponse))
    (this : DatastoreRequest) (n : nat) :
  let full := readStream_run s script this None in
  let part := readStream_run s script this (Some n) in
  run_emitted part = take n (run_emitted full)
  ∧ run_rpcs part `prefix_of` run_rpcs full
  ∧ ((length (run_emitted full) < n)%nat → part = full)
  ∧ ((0 < n ≤ length (run_emitted full))%nat →
     run_status part = ConsumerEnded).
Proof. apply makeLookupRequest_early. Qed.

(** How a lookup stream read to the end stands. *)
Lemma makeLookupRequest_status s script :
  ∀ this keys,
    let run := makeLookupRequest s script this keys None in
    (∀ e, run_status run = Destroyed e ↔
       ∃ n args,
         length (run_rpcs run) = S n
         ∧ script !! n = Some args
         ∧ round_entities s args = Throw e)
    ∧ (run_status run = Pending ↔ length (run_rpcs run) = S (length script))
    ∧ run_status run ≠ ConsumerEnded
    ∧ (length (run_rpcs run) ≤ S (length script))%nat
    ∧ run_infos run = [].
Proof.
  induction script as [|args script IH]; intros this keys;
    cbn [makeLookupRequest]; destruct (request_ this _) as [sent|e0]; cbn.
  - repeat split; try done. by intros (n & args & _ & ? & _).
  - repeat split; try done; try lia. by intros (n & args & _ & ? & _).
  - rewrite onLookupResponse_closed. cbn zeta. cbn [split].
    destruct (round_entities s args) as [entities|err] eqn:Hround.
    + destruct (0 <? length (nextKeys_of args))%nat.
      * specialize (IH (parseTransactionResponse this
                          (lr_transaction <$> cb_resp args))
                       (nextKeys_of args)).
        cbn zeta in IH. destruct IH as (IHd & IHp & IHc & IHl & IHi).
        unfold round_then. cbn.
        split; [|split; [|split; [done|split; [lia|done]]]].
        -- intros e. rewrite IHd. split.
           ++ intros (n & args' & Hl & Hn & Hr).
              exists (S n), args'. by rewrite Hl.
           ++ intros ([|n] & args' & Hl & Hn & Hr); simpl in Hn.
              ** injection Hn as <-. congruence.
              ** exists n, args'. repeat split; try done. by injection Hl.
        -- rewrite IHp. split; [by intros ->|by intros [= ->]].
      * cbn. split; [|split; [|split; [done|split; [lia|done]]]].
        -- intros e. split; [done|].
           intros ([|n] & args' & Hl & Hn & Hr); simpl in *; [|done].
           injection Hn as <-. congruence.
        -- split; [done|]. intros Hl. cbn in Hl. lia.
    + cbn. split; [|split; [|split; [done|split; [lia|done]]]].
      * intros e. split.
        -- intros [= <-]. by exists 0%nat, args.
        -- intros ([|n] & args' & Hl & Hn & Hr); simpl in *; [|done].
           injection Hn as <-. congruence.
      * split; [done|]. intros Hl. cbn in Hl. lia.
  - repeat split; try done; try lia. by intros (n & args' & ? & _).
Qed.

(** X11.  A lookup stream read to the end is destroyed with exactly the
    error of the round it has reached: the error of the RPC, or what
    [formatArray] threw on the found results, passed through unchanged; no
    later round is issued.  It waits for a reply exactly when every reply
    has been used and one more RPC is out.  [get] hands the error of a
    destroyed stream to its callback. *)
Theorem lookup_errors_pass_through
    (this : DatastoreRequest) (keys : OneOrMany Key)
    (options : RunQueryStreamOptions) (s : ReadStream)
    (script : list (CallbackArgs LookupResponse)) :
  createReadStream this keys options = Return s →
  let run := readStream_run s script this None in
  (∀ e, run_status run = Destroyed e ↔
     ∃ n args,
       length (run_rpcs run) = S n
       ∧ script !! n = Some args
       ∧ round_entities s args = Throw e)
  ∧ (run_status run = Pending ↔ length (run_rpcs run) = S (length script))
  ∧ (∀ e, run_status run = Destroyed e →
       get this keys options script
         = (run_this run, run_rpcs run, Callback (Some e) None)).
Proof.
  intros Hs run.
  destruct (makeLookupRequest_status s script this (rs_keys s))
    as (Hd & Hp & _).
  split; [exact Hd|]. split; [exact Hp|].
  intros e He. unfold get. rewrite Hs. fold run.
  unfold concat_outcome. by rewrite He.
Qed.

End LookupStreams.

(** ** Query streams *)

Section QueryStreams.
Context `{EntityCodec}.

(** A round of a query stream, for any consumer. *)
Lemma onResultSet_closed s this query consumer args :
  onResultSet s this query consumer args
    = let this' :=
        parseTransactionResponse this (rq_transaction <$> cb_resp args) in
      match cb_err args with
      | Some err => Stop this' [] [] (Destroyed err)
      | None =>
          match cb_resp args ≫= batch with
          | None =>
              match cb_resp args with
              | None => Stop this' [] [] (Escaped TypeError)
              | Some _ => Stop this' [] [final_info args] Ended
              end
          | Some b =>
              match query_round_entities s args with
              | Throw err => Stop this' [] [] (Destroyed err)
              | Return entities =>
                  let '(pushed, streamEnded, consumer') :=
                    split entities consumer in
                  if streamEnded then Stop this' pushed [] ConsumerEnded
                  else if is_final_reply args
                  then Stop this' pushed [final_info args] Ended
                  else
                    match nextQuery query (final_info args) b with
                    | Return query' => Next this' pushed query' consumer'
                    | Throw err => Stop this' pushed [] (Escaped err)
                    end
              end
          end
      end.
Proof.
  unfold onResultSet, query_round_entities, is_final_reply, final_info.
  destruct (cb_err args); [reflexivity|].
  destruct (cb_resp args) as [resp|]; [|reflexivity]. cbn.
  destruct (batch resp) as [b|]; [|reflexivity]. cbn.
  destruct (entityResults b) as [results|]; reflexivity.
Qed.

Lemma nextQuery_keeps_the_filters query info b query' :
  nextQuery query info b = Return query' →
  namespace query' = namespace query ∧ body query' = body query.
Proof.
  unfold nextQuery. cbn zeta.
  destruct (truthy_number _ && _).
  - destruct (entityResults b); [|discriminate]. by intros [= <-].
  - by intros [= <-].
Qed.

(** X12.  Every RPC of a query stream carries the translation of a query
    with the namespace and the body (kinds, filters, orders, projection)
    of the caller's query, under the shared options composed when the
    stream was created: from round to round only the start cursor, the
    offset and the limit change. *)
Theorem query_rounds_keep_the_filters
    (s : QueryStream) (script : list (CallbackArgs RunQueryResponse)) :
  ∀ (this : DatastoreRequest) (query : Query QueryBody) (consumer : Consumer)
    (cfg : RequestConfig),
    cfg ∈ run_rpcs (makeQueryRequest s script this query consumer) →
    ∃ query' queryProto,
      queryToQueryProto query' = Return queryProto
      ∧ cfg = mkRequestConfig "DatastoreClient" "runQuery"
                (set_query (Some queryProto) (qs_sharedQueryOpts s))
                (gaxOptions (qs_options s))
      ∧ namespace query' = namespace query
      ∧ body query' = body query.
Proof.
  induction script as [|args script IH]; intros this query consumer cfg;
    cbn [makeQueryRequest];
    destruct (queryToQueryProto query) as [queryProto|] eqn:Hq;
    try (cbn; by intros ?%elem_of_nil);
    destruct (request_ this _); try (cbn; by intros ?%elem_of_nil).
  - cbn. intros ->%list_elem_of_singleton. by exists query, queryProto.
  - destruct (onResultSet s this query consumer args)
      as [this' emitted infos status|this' emitted query' consumer'] eqn:Hstep.
    + cbn. intros ->%list_elem_of_singleton. by exists query, queryProto.
    + cbn. intros [->|Hin]%elem_of_cons; [by exists query, queryProto|].
      destruct (IH _ _ _ _ Hin) as (q'' & qp'' & Hq'' & -> & Hns & Hbody).
      exists q'', qp''. split; [done|]. split; [done|].
      rewrite onResultSet_closed in Hstep. cbn zeta in Hstep.
      destruct (cb_err args); [discriminate|].
      destruct (cb_resp args ≫= batch) as [b|];
        [|by destruct (cb_resp args)].
      destruct (query_round_entities s args) as [entities|]; [|discriminate].
      destruct (split entities consumer) as [[pushed streamEnded] c'].
      destruct streamEnded; [discriminate|].
      destruct (is_final_reply args); [discriminate|].
      destruct (nextQuery query (final_info args) b) as [qn|] eqn:Hnext;
        [|discriminate].
      injection Hstep as _ _ <- _.
      destruct (nextQuery_keeps_the_filters _ _ _ _ Hnext) as (Hns' & Hbody').
      by rewrite Hns, Hbody, Hns', Hbody'.
Qed.

(** The ['info'] events of a query stream, for any consumer. *)
Lemma makeQueryRequest_infos s script :
  ∀ this query consumer,
    let run := makeQueryRequest s script this query consumer in
    (run_status run = Ended →
       ∃ n args,
         length (run_rpcs run) = S n
         ∧ script !! n = Some args
         ∧ is_final_reply args = true
         ∧ run_infos run = [final_info args])
    ∧ (run_status run ≠ Ended → run_infos run = []).
Proof.
  induction script as [|args script IH]; intros this query consumer;
    cbn [makeQueryRequest];
    destruct (queryToQueryProto query) as [queryProto|]; try done;
    destruct (request_ this _); try done.
  rewrite onResultSet_closed. cbn zeta.
  destruct (cb_err args); [done|].
  destruct (cb_resp args ≫= batch) as [b|] eqn:Hb.
  2:{ assert (Hfinal : is_final_reply args = true)
        by (unfold is_final_reply; by rewrite Hb).
      destruct (cb_resp args) eqn:Hresp; [|done]. cbn. split; [|done].
      intros _. by exists 0%nat, args. }
  destruct (query_round_entities s args) as [entities|]; [|done].
  destruct (split entities consumer) as [[pushed streamEnded] c'].
  destruct streamEnded; [done|].
  destruct (is_final_reply args) eqn:Hfinal.
  - cbn. split; [|done]. intros _. by exists 0%nat, args.
  - destruct (nextQuery query (final_info args) b) as [query'|]; [|done].
    specialize (IH (parseTransactionResponse this
                      (rq_transaction <$> cb_resp args)) query' c').
    cbn zeta in IH. destruct IH as (IHe & IHn).
    unfold round_then. cbn. split; [|done].
    intros Hended. destruct (IHe Hended) as (n & args' & Hl & Hn & Hf & Hi).
    exists (S n), args'. by rewrite Hl.
Qed.

(** X13.  A query stream emits its ['info'] event at most once: exactly
    once, at the end, when the stream ends, and never when it is
    destroyed, ended by its consumer or still waiting.  The info is that
    of the last reply: its [moreResults], its end cursor in base64 when
    the batch has one, and its explain metrics.  [runQuery] hands its
    callback the emitted entities together with that info. *)
Theorem query_info_is_emitted_once_at_the_end
    (this : DatastoreRequest) (query : Query QueryBody)
    (options : RunQueryStreamOptions) (s : QueryStream)
    (script : list (CallbackArgs RunQueryResponse)) (consumer : Consumer) :
  runQueryStream this query options = Return s →
  let run := queryStream_run s script this consumer in
  (length (run_infos run) ≤ 1)%nat
  ∧ (run_status run ≠ Ended → run_infos run = [])
  ∧ (run_status run = Ended →
       ∃ n args,
         length (run_rpcs run) = S n
         ∧ script !! n = Some args
         ∧ is_final_reply args = true
         ∧ run_infos run = [final_info args]
         ∧ (consumer = None →
            runQuery this query options script
              = (run_this run, run_rpcs run,
                 Callback None
                   (Some (run_emitted run, Some (final_info args)))))).
Proof.
  intros Hs run.
  destruct (makeQueryRequest_infos s script this (qs_query s) consumer)
    as (He & Hn).
  fold (queryStream_run s script this consumer) in He, Hn. fold run in He, Hn.
  split; [|split; [exact Hn|]].
  - destruct (run_status run) eqn:Hst;
      try (rewrite Hn by done; cbn; lia).
    destruct (He eq_refl) as (n & args & _ & _ & _ & ->). done.
  - intros Hended. destruct (He Hended) as (n & args & Hl & Hargs & Hf & Hi).
    exists n, args. repeat split; try done.
    intros ->. unfold runQuery. rewrite Hs. fold run.
    unfold concat_outcome. by rewrite Hended, Hi.
Qed.

End QueryStreams.

Section QueryStreamsToTheEnd.
Context `{EntityCodec}.

(** The rounds of a query stream whose consumer reads to the end. *)
Lemma makeQueryRequest_rounds s script :
  ∀ this query,
    let run := makeQueryRequest s script this query None in
    (run_status run = Ended ↔
       ∃ n args entities,
         length (run_rpcs run) = S n
         ∧ script !! n = Some args
         ∧ query_round_entities s args = Return entities
         ∧ is_final_reply args = true)
    ∧ (∀ n args, (S n < length (run_rpcs run))%nat →
         script !! n = Some args → is_final_reply args = false)
    ∧ run_emitted run
        = concat (map (query_emitted_by s)
                    (take (length (run_rpcs run)) script)).
Proof.
  induction script as [|args script IH]; intros this query;
    cbn [makeQueryRequest];
    destruct (queryToQueryProto query) as [queryProto|].
  2,4: (cbn; repeat split; try done; try (intros; lia);
        by intros (n & args' & es & Hl & _)).
  - destruct (request_ this _); cbn;
      (repeat split; try done; try (intros; lia);
       by intros (n & args' & es & _ & Hn & _)).
  - destruct (request_ this _).
    2:{ cbn. repeat split; try done; try (intros; lia).
        by intros (n & args' & es & Hl & _). }
    rewrite onResultSet_closed. cbn zeta.
    destruct (cb_err args) eqn:Herr.
    { assert (Hround : ∃ e, query_round_entities s args = Throw e).
      { unfold query_round_entities. rewrite Herr. by eexists. }
      destruct Hround as (e0 & Hround). cbn. unfold query_emitted_by. rewrite Hround.
      repeat split; try done; try (intros; lia).
      intros ([|n] & args' & es & Hl & Hn & Hr & _); simpl in *; [|done].
      injection Hn as <-. congruence. }
    destruct (cb_resp args ≫= batch) as [b|] eqn:Hb.
    2:{ assert (Hfinal : is_final_reply args = true)
          by (unfold is_final_reply; by rewrite Hb).
        destruct (cb_resp args) as [resp|] eqn:Hresp.
        - assert (Hround : query_round_entities s args = Return []).
          { unfold query_round_entities. rewrite Herr, Hresp.
            cbn in Hb. by rewrite Hb. }
          cbn. unfold query_emitted_by. rewrite Hround. repeat split; try done; try (intros; lia).
          intros _. by exists 0%nat, args, [].
        - assert (Hround : query_round_entities s args = Throw TypeError).
          { unfold query_round_entities. by rewrite Herr, Hresp. }
          cbn. unfold query_emitted_by. rewrite Hround. repeat split; try done; try (intros; lia).
          intros ([|n] & args' & es & Hl & Hn & Hr & _); simpl in *; [|done].
          injection Hn as <-. congruence. }
    destruct (query_round_entities s args) as [entities|err] eqn:Hround.
    2:{ cbn. unfold query_emitted_by. rewrite Hround. repeat split; try done; try (intros; lia).
        intros ([|n] & args' & es & Hl & Hn & Hr & _); simpl in *; [|done].
        injection Hn as <-. congruence. }
    cbn [split].
    destruct (is_final_reply args) eqn:Hfinal.
    { cbn. unfold query_emitted_by. rewrite Hround, app_nil_r.
      repeat split; try done; try (intros; lia).
      intros _. by exists 0%nat, args, entities. }
    destruct (nextQuery query (final_info args) b) as [query'|err].
    2:{ cbn. unfold query_emitted_by. rewrite Hround, app_nil_r.
        repeat split; try done; try (intros; lia).
        intros ([|n] & args' & es & Hl & Hn & Hr & Hf); simpl in *; [|done].
        injection Hn as <-. congruence. }
    specialize (IH (parseTransactionResponse this
                      (rq_transaction <$> cb_resp args)) query').
    cbn zeta in IH. destruct IH as (IHend & IHmid & IHem).
    unfold round_then. cbn. split; [|split].
    + rewrite IHend. split.
      * intros (n & args' & es & Hl & Hn & Hr & Hf).
        exists (S n), args', es. by rewrite Hl.
      * intros ([|n] & args' & es & Hl & Hn & Hr & Hf); simpl in Hn.
        -- injection Hn as <-. congruence.
        -- exists n, args', es. repeat split; try done. by injection Hl.
    + intros [|n] args' Hlt Hn; simpl in Hn.
      * by injection Hn as <-.
      * apply (IHmid n args'); [lia|done].
    + unfold query_emitted_by at 1. by rewrite Hround, IHem.
Qed.

(** X14.  A query stream read to the end ends exactly when the reply to
    the last RPC it issued came without error, with results that
    [formatArray] accepted, and either without a batch or with a batch
    whose [moreResults] is not ["NOT_FINISHED"]; every reply before that
    one said ["NOT_FINISHED"].  The entities emitted are those of the
    rounds, one round after the other. *)
Theorem query_stream_ends_on_the_final_reply
    (s : QueryStream) (script : list (CallbackArgs RunQueryResponse))
    (this : DatastoreRequest) :
  let run := queryStream_run s script this None in
  (run_status run = Ended ↔
     ∃ n args entities,
       length (run_rpcs run) = S n
       ∧ script !! n = Some args
       ∧ query_round_entities s args = Return entities
       ∧ is_final_reply args = true)
  ∧ (∀ n args, (S n < length (run_rpcs run))%nat →
       script !! n = Some args → is_final_reply args = false)
  ∧ run_emitted run
      = concat (map (query_emitted_by s)
                  (take (length (run_rpcs run)) script)).
Proof. apply makeQueryRequest_rounds. Qed.

Lemma makeQueryRequest_early s script :
  ∀ this query n,
    let full := makeQueryRequest s script this query None in
    let part := makeQueryRequest s script this query (Some n) in
    run_emitted part = take n (run_emitted full)
    ∧ run_rpcs part `prefix_of` run_rpcs full
    ∧ ((length (run_emitted full) < n)%nat → part = full)
    ∧ ((0 < n ≤ length (run_emitted full))%nat →
       run_status part = ConsumerEnded).
Proof.
  induction script as [|args script IH]; intros this query n;
    cbn [makeQueryRequest];
    destruct (queryToQueryProto query) as [queryProto|];
    try (cbn; rewrite take_nil; repeat split; try done; lia);
    destruct (request_ this _) as [sent|e];
    try (cbn; rewrite take_nil; repeat split; try done; lia).
  rewrite !onResultSet_closed. cbn zeta.
  destruct (cb_err args);
    [cbn; rewrite take_nil; repeat split; try done; lia|].
  destruct (cb_resp args ≫= batch) as [b|].
  2:{ destruct (cb_resp args);
        cbn; rewrite take_nil; repeat split; try done; lia. }
  destruct (query_round_entities s args) as [entities|err];
    [|cbn; rewrite take_nil; repeat split; try done; lia].
  cbn [split].
  destruct (Nat.leb_spec n (length entities)) as [Hle|Hgt].
  - (* the consumer ends the stream in this round *)
    destruct (is_final_reply args); cbn.
    + repeat split; try done. lia.
    + destruct (nextQuery query (final_info args) b) as [query'|err]; cbn.
      * rewrite take_app_le by done. repeat split; try done.
        -- apply prefix_cons, prefix_nil.
        -- rewrite length_app. lia.
      * repeat split; try done. lia.
  - destruct (is_final_reply args).
    + cbn. rewrite take_ge by lia. repeat split; try done. lia.
    + destruct (nextQuery query (final_info args) b) as [query'|err].
      * specialize (IH (parseTransactionResponse this
                          (rq_transaction <$> cb_resp args))
                       query' (n - length entities)%nat).
        cbn zeta in IH. destruct IH as (IHem & IHrpc & IHfull & IHend).
        unfold round_then. cbn.
        rewrite IHem, take_app_ge by lia.
        split; [done|]. split; [by apply prefix_cons|]. split.
        -- rewrite length_app. intros Hlt. rewrite IHfull by lia.
           by rewrite take_ge by lia.
        -- rewrite length_app. intros Hn. apply IHend. lia.
      * cbn. rewrite take_ge by lia. repeat split; try done. lia.
Qed.

(** X15.  A consumer that ends a query stream after [n] entities receives
    the first [n] entities of what the stream would emit read to the end,
    and the RPCs issued are an initial part of the RPCs of the full read:
    no further round is issued once the consumer has ended the stream.
    The stream is ended by the consumer if the full read emits at least
    [n] entities ([n] positive), and runs exactly as the full read,
    ['info'] included, if it emits fewer. *)
Theorem query_stream_ended_by_its_consumer
    (s : QueryStream) (script : list (CallbackArgs RunQueryResponse))
    (this : DatastoreRequest) (n : nat) :
  let full := queryStream_run s script this None in
  let part := queryStream_run s script this (Some n) in
  run_emitted part = take n (run_emitted full)
  ∧ run_rpcs part `prefix_of` run_rpcs full
  ∧ ((length (run_emitted full) < n)%nat → part = full)
  ∧ ((0 < n ≤ length (run_emitted full))%nat →
     run_status part = ConsumerEnded).
Proof. apply makeQueryRequest_early. Qed.

Lemma makeQueryRequest_first s script this query consumer queryProto sent :
  queryToQueryProto query = Return queryProto →
  request_ this (runQueryConfig s queryProto) = Return sent →
  run_rpcs (makeQueryRequest s script this query consumer) !! 0%nat
    = Some (runQueryConfig s queryProto).
Proof.
  intros Hq Hsent. destruct script as [|args script]; cbn [makeQueryRequest];
    rewrite Hq, Hsent; [reflexivity|].
  by destruct (onResultSet s this query consumer args).
Qed.

(** X16.  A query that does not translate to a query proto never makes
    an entry point throw and never reaches the server: the stream of
    [runQueryStream] is destroyed with the translation error and issues no
    RPC, and [runQuery] and [runAggregationQuery] hand the error to the
    callback.  A query that translates is sent in the first RPC as soon
    as the stream is read. *)
Theorem untranslatable_queries_fail_without_an_rpc
    (this : DatastoreRequest) (query : Query QueryBody)
    (options : RunQueryStreamOptions) :
  (∀ s e script consumer,
     runQueryStream this query options = Return s →
     queryToQueryProto query = Throw e →
     queryStream_run s script this consumer = mkRun this [] [] [] (Destroyed e)
     ∧ runQuery this query options script
         = (this, [], Callback (Some e) None))
  ∧ (∀ aggregations e script,
       state this ≠ EXPIRED →
       truthy_number (readTime options) && truthy_string (consistency options)
         = false →
       queryToQueryProto query = Throw e →
       runAggregationQuery this (mkAggregateQuery query aggregations) options
         script
         = (this, [], Callback (Some e) None))
  ∧ (∀ s queryProto script consumer,
       runQueryStream this query options = Return s →
       queryToQueryProto query = Return queryProto →
       run_rpcs (queryStream_run s script this consumer) !! 0%nat
         = Some (runQueryConfig s queryProto)).
Proof.
  split; [|split].
  - intros s e script consumer Hs Hq.
    assert (Hquery : qs_query s = query).
    { revert Hs. rewrite runQueryStream_decides.
      repeat match goal with
             | |- context [if ?b then _ else _] => destruct b
             end; try discriminate. by intros [= <-]. }
    assert (Hrun : ∀ c, queryStream_run s script this c
                        = mkRun this [] [] [] (Destroyed e)).
    { intros c. unfold queryStream_run. rewrite Hquery.
      destruct script; cbn [makeQueryRequest]; by rewrite Hq. }
    split; [apply Hrun|].
    unfold runQuery. by rewrite Hs, Hrun.
  - intros aggregations e script Hst Hboth Hq. unfold runAggregationQuery.
    cbn [aq_query]. by rewrite (is_expired_false _ Hst), Hboth, Hq.
  - intros s queryProto script consumer Hs Hq.
    assert (Hshape : s = mkQueryStream query
                           (getQueryOptions this query options) options
                     ∧ throwOnTransactionErrors this
                         (getQueryOptions this query options) = Return tt).
    { revert Hs. unfold runQueryStream.
      destruct (checkExpired this); [|discriminate]. cbn [rbind].
      destruct (throwOnReadTimeAndConsistency options); [|discriminate].
      cbn [rbind].
      destruct (throwOnTransactionErrors this _) as [[]|]; [|discriminate].
      by intros [= <-]. }
    destruct Hshape as (-> & Hok).
    destruct (request__ok this
                (runQueryConfig
                   (mkQueryStream query (getQueryOptions this query options)
                      options) queryProto)
                _ Hok) as (sent & Hsent); [done|].
    unfold queryStream_run. by eapply makeQueryRequest_first.
Qed.

End QueryStreamsToTheEnd.

(** ** allocateIds *)

Section AllocateIdsFacts.
Context `{EntityCodec}.

Lemma lookup_map {A B} (f : A → B) (l : list A) (i : nat) :
  map f l !! i = f <$> l !! i.
Proof.
  revert i. induction l as [|x l IH]; intros [|i]; simpl; done.
Qed.

(** X17.  [allocateIds] refuses a complete key by throwing "An incomplete
    key should be provided." with no RPC.  For an incomplete key and a
    count that is an array length (an integer from 0 to 2^32 - 1, or no
    count in the options object, which stands for one) it issues exactly
    one [allocateIds] RPC whose keys are the proto of that key repeated
    that many times, leaves the request object alone, and on a reply hands
    the callback the keys of the response decoded one by one in response
    order; an RPC error goes to the callback with no keys.  For an
    incomplete key and any other count (negative, 2^32 or more, or not an
    integer) it throws a [RangeError] with no RPC. *)
Theorem allocateIds_asks_for_copies_of_the_key
    (this : DatastoreRequest) (key : Key) (options : AllocateIdsArg)
    (script : list (CallbackArgs AllocateIdsResponse)) :
  (isKeyComplete key = true →
     allocateIds this key options script
       = (this, [], Thrown (ErrorMsg incompleteKeyError)))
  ∧ (∀ n : nat,
       isKeyComplete key = false →
       allocations_of options = None ∧ n = 1%nat
       ∨ (∃ z, allocations_of options = Some (Integer z)
               ∧ 0 <= z < 2 ^ 32 ∧ n = Z.to_nat z) →
       ∃ cfg protos outcome,
         allocateIds this key options script = (this, [cfg], outcome)
         ∧ method cfg = "allocateIds"
         ∧ gaxOpts cfg = gaxOptions_of options
         ∧ keys (reqOpts cfg) = Some protos
         ∧ length protos = n
         ∧ (∀ proto, proto ∈ protos → proto = keyToKeyProto key)
         ∧ (script = [] → outcome = Awaiting)
         ∧ (∀ err resp rest,
              script = mkCallbackArgs (Some err) resp :: rest →
              outcome = Callback (Some err) None)
         ∧ (∀ resp rest,
              script = mkCallbackArgs None (Some resp) :: rest →
              ∃ allocated,
                outcome = Callback None (Some allocated)
                ∧ length allocated = length (default [] (ai_keys resp))
                ∧ ∀ i, allocated !! i
                       = keyFromKeyProto <$> default [] (ai_keys resp) !! i))
  ∧ (isKeyComplete key = false →
     allocations_of options = Some NonInteger
     ∨ (∃ z, allocations_of options = Some (Integer z)
             ∧ (z < 0 ∨ 2 ^ 32 <= z)) →
     allocateIds this key options script = (this, [], Thrown RangeError)).
Proof.
  rewrite allocateIds_closed. split; [by intros ->|]. split.
  - intros n -> Hcount.
    assert (Hlen : new_Array_length (allocations_of options) = Return n).
    { destruct Hcount as [[-> ->]|(z & -> & Hz & ->)]; [done|].
      unfold new_Array_length.
      destruct (Z.leb_spec 0 z); [|lia]. destruct (Z.ltb_spec z (2 ^ 32)); [|lia].
      reflexivity. }
    rewrite Hlen.
    eexists _, (replicate n (keyToKeyProto key)), _.
    split; [reflexivity|]. split; [done|]. split; [done|]. split; [done|].
    split; [apply length_replicate|].
    split; [intros proto Hin; by apply elem_of_replicate_inv in Hin|].
    split; [by intros ->|]. split.
    + by intros err resp rest ->.
    + intros resp rest ->. eexists. split; [reflexivity|].
      split; [apply length_map|]. intros i. apply lookup_map.
  - intros -> [->|(z & -> & Hz)]; [done|].
    unfold new_Array_length.
    destruct (Z.leb_spec 0 z); [|done]. destruct (Z.ltb_spec z (2 ^ 32)); [|done].
    lia.
Qed.

End AllocateIdsFacts.

(** ** merge, further *)

Section MergeMore.
Context `{EntityCodec}.

Lemma merge_closed entities tx :
  merge entities tx
    = match tx_run tx with
      | Some err => mkMergeRun (mkTxLog [] 0 1) (Callback (Some err) None)
      | None =>
          let objs := map prepareEntityObject_ (arrify entities) in
          match settle objs (tx_fetches tx) [] with
          | (saved, Some err) =>
              mkMergeRun (mkTxLog saved 0 1) (Callback (Some err) None)
          | (saved, None) =>
              if (length (tx_fetches tx) <? length objs)%nat
              then mkMergeRun (mkTxLog saved 0 0) Awaiting
              else
                match tx_commit tx with
                | Return response =>
                    mkMergeRun (mkTxLog saved 1 0)
                      (Callback None (Some response))
                | Throw err =>
                    mkMergeRun (mkTxLog saved 1 1) (Callback (Some err) None)
                end
          end
      end.
Proof.
  unfold merge, merge_body.
  destruct (tx_run tx) as [err|].
  - unfold await. rewrite rollback_is_transparent. reflexivity.
  - cbn zeta. unfold try_catch at 1. unfold await at 1.
    unfold fetch_and_save_all at 1. cbn [log_saved].
    destruct (settle _ (tx_fetches tx) []) as [saved [err|]].
    + unfold await. rewrite rollback_is_transparent. reflexivity.
    + destruct (length (tx_fetches tx) <? _)%nat; [reflexivity|].
      unfold await at 1, transaction_commit.
      destruct (tx_commit tx) as [response|err]; [reflexivity|].
      unfold await. rewrite rollback_is_transparent. reflexivity.
Qed.

(** Closes the cases of a run of [merge] once its script is known. *)
Local Ltac merge_case :=
  repeat split; unfold not; intros;
  repeat match goal with
         | H : _ ∧ _ |- _ => destruct H
         | H : ∃ _, _ |- _ => destruct H
         end;
  try match goal with
      | H : _ → False |- _ =>
          exfalso; apply H; repeat split; try lia; try done; by eexists
      end;
  try lia; try congruence; try done; try by eexists.

(** X18.  [merge] commits only after the internal transaction has run
    and every entity has been fetched without a rejection; it commits at
    most once.  It rolls back, once, exactly when it hands an error to the
    callback, and never after a successful commit.  The callback receives
    the commit response exactly when the run, all the fetches and the
    commit succeeded; while fetches are outstanding the callback is not
    called; and nothing is saved when the transaction fails to run. *)
Theorem merge_commits_after_every_fetch
    (entities : OneOrMany EntityArg) (tx : TransactionScript) :
  let run := merge entities tx in
  let fetched :=
    tx_run tx = None
    ∧ first_rejection (tx_fetches tx) = None
    ∧ (length (arrify entities) ≤ length (tx_fetches tx))%nat in
  (log_commits (merge_log run) = 1%nat ↔ fetched)
  ∧ (log_commits (merge_log run) = 0%nat ↔ ¬ fetched)
  ∧ (∀ response,
       merge_outcome run = Callback None (Some response)
       ↔ fetched ∧ tx_commit tx = Return response)
  ∧ (log_rollbacks (merge_log run) = 1%nat
     ↔ ∃ err, merge_outcome run = Callback (Some err) None)
  ∧ (log_rollbacks (merge_log run) = 0%nat
     ↔ ¬ ∃ err, merge_outcome run = Callback (Some err) None)
  ∧ (merge_outcome run = Awaiting
     ↔ tx_run tx = None
       ∧ first_rejection (tx_fetches tx) = None
       ∧ (length (tx_fetches tx) < length (arrify entities))%nat)
  ∧ (tx_run tx ≠ None → log_saved (merge_log run) = []).
Proof.
  intros run fetched. subst run fetched. rewrite merge_closed.
  pose proof (settle_first_rejection
                (map prepareEntityObject_ (arrify entities)) (tx_fetches tx) [])
    as Hsettle.
  destruct (tx_run tx) as [err|].
  { cbn. merge_case. }
  cbn zeta.
  destruct (settle _ (tx_fetches tx) []) as [saved rejection].
  cbn [snd] in Hsettle. rewrite <- Hsettle. rewrite length_map.
  destruct rejection as [err|].
  { cbn. merge_case. }
  destruct (Nat.ltb_spec (length (tx_fetches tx)) (length (arrify entities)))
    as [Hlt|Hge].
  { cbn. merge_case. }
  destruct (tx_commit tx) as [response|err]; cbn; merge_case.
Qed.

Lemma settle_saved objs fetches :
  ∀ saved obj,
    obj ∈ (settle objs fetches saved).1
    ↔ obj ∈ saved
      ∨ ∃ i data orig,
          (i, Return data) ∈ fetches
          ∧ objs !! i = Some orig
          ∧ obj = mkEntityObject (eo_key orig)
                    (Some (assign data (eo_data orig))) (Some "upsert").
Proof.
  induction fetches as [|[i [data|err]] fetches IH]; intros saved obj; simpl.
  - split; [by left|]. by intros [?|(? & ? & ? & ?%elem_of_nil & _)].
  - destruct (objs !! i) as [orig|] eqn:Horig; rewrite IH; split.
    + intros [Hs|(j & d & o & Hj & Ho & ->)].
      * apply elem_of_app in Hs as [Hs|Hs%list_elem_of_singleton];
          [by left|].
        right. exists i, data, orig. split; [apply list_elem_of_here|done].
      * right. exists j, d, o. split; [by apply list_elem_of_further|done].
    + intros [Hs|(j & d & o & Hj & Ho & ->)].
      * left. apply elem_of_app. by left.
      * apply elem_of_cons in Hj as [[= -> ->]|Hj].
        -- left. apply elem_of_app. right. apply list_elem_of_singleton.
           congruence.
        -- right. by exists j, d, o.
    + intros [Hs|(j & d & o & Hj & Ho & ->)]; [by left|].
      right. exists j, d, o. split; [by apply list_elem_of_further|done].
    + intros [Hs|(j & d & o & Hj & Ho & ->)]; [by left|].
      apply elem_of_cons in Hj as [[= -> ->]|Hj]; [congruence|].
      right. by exists j, d, o.
  - rewrite IH. split.
    + intros [Hs|(j & d & o & Hj & Ho & ->)]; [by left|].
      right. exists j, d, o. split; [by apply list_elem_of_further|done].
    + intros [Hs|(j & d & o & Hj & Ho & ->)]; [by left|].
      apply elem_of_cons in Hj as [[=]|Hj].
      right. by exists j, d, o.
Qed.

(** X19.  What [merge] saves.  Everything it saves is an upsert of one of
    the given entities, under that entity's key, whose data is the stored
    data that the get of that entity returned with the caller's data laid
    over it: a property the caller supplies takes the caller's value, and
    every other stored property is kept.  Once the internal transaction
    has run, every get that resolves is followed by such a save, also when
    another get has rejected before it. *)
Theorem merge_saves_the_callers_data_over_the_stored
    (entities : OneOrMany EntityArg) (tx : TransactionScript) :
  (∀ obj, obj ∈ log_saved (merge_log (merge entities tx)) →
     eo_method obj = Some "upsert"
     ∧ ∃ i data orig,
         (i, Return data) ∈ tx_fetches tx
         ∧ map prepareEntityObject_ (arrify entities) !! i = Some orig
         ∧ eo_key obj = eo_key orig
         ∧ eo_data obj = Some (assign data (eo_data orig)))
  ∧ (∀ i data orig,
       tx_run tx = None →
       (i, Return data) ∈ tx_fetches tx →
       map prepareEntityObject_ (arrify entities) !! i = Some orig →
       mkEntityObject (eo_key orig) (Some (assign data (eo_data orig)))
         (Some "upsert")
         ∈ log_saved (merge_log (merge entities tx)))
  ∧ (∀ (stored supplied : option Data) (property : string),
       assign stored supplied !! property
         = match supplied ≫= (.!! property) with
           | Some value => Some value
           | None => stored ≫= (.!! property)
           end).
Proof.
  assert (Hlog : tx_run tx = None →
            log_saved (merge_log (merge entities tx))
              = (settle (map prepareEntityObject_ (arrify entities))
                   (tx_fetches tx) []).1).
  { intros Hrun. rewrite merge_closed, Hrun. cbn zeta.
    destruct (settle _ (tx_fetches tx) []) as [saved rejection].
    destruct rejection; [done|].
    destruct (_ <? _)%nat; [done|].
    by destruct (tx_commit tx). }
  split; [|split].
  - intros obj. destruct (tx_run tx) as [err|] eqn:Hrun.
    { rewrite merge_closed, Hrun. by intros ?%elem_of_nil. }
    rewrite (Hlog eq_refl), settle_saved.
    intros [?%elem_of_nil|(i & data & orig & Hi & Ho & ->)]; [done|].
    split; [done|]. by exists i, data, orig.
  - intros i data orig Hrun Hi Ho. rewrite (Hlog Hrun), settle_saved.
    right. by exists i, data, orig.
  - intros stored supplied property. unfold assign, Data in *.
    destruct supplied as [supplied|]; cbn.
    + destruct (supplied !! property) as [value|] eqn:Hp.
      * by apply lookup_union_Some_l.
      * rewrite lookup_union_r by done. by destruct stored.
    + rewrite lookup_union_r by apply lookup_empty. by destruct stored.
Qed.

End MergeMore.

(** ** The request object across calls *)

Section RequestObject.
Context `{EntityCodec}.

Lemma parseTransactionResponse_keeps this resp :
  let this' := parseTransactionResponse this resp in
  (requests_ this', isTransactionInstance this', readOnly this',
   datastore_databaseId this')
    = (requests_ this, isTransactionInstance this, readOnly this,
       datastore_databaseId this).
Proof.
  cbn zeta. rewrite parseTransactionResponse_carries.
  by destruct (carries_handle resp).
Qed.

Lemma makeLookupRequest_keeps s script :
  ∀ this keys consumer,
    let this' := run_this (makeLookupRequest s script this keys consumer) in
    (requests_ this', isTransactionInstance this', readOnly this',
     datastore_databaseId this')
      = (requests_ this, isTransactionInstance this, readOnly this,
         datastore_databaseId this).
Proof.
  induction script as [|args script IH]; intros this keys consumer;
    cbn [makeLookupRequest]; destruct (request_ this _); try done.
  pose proof (onLookupResponse_this s this consumer args) as Hthis.
  destruct (onLookupResponse s this consumer args)
    as [this' emitted infos status | this' emitted nextKeys consumer'];
    simpl in Hthis; subst this'; cbn.
  - apply parseTransactionResponse_keeps.
  - cbn zeta in IH. rewrite IH. apply parseTransactionResponse_keeps.
Qed.

Lemma makeQueryRequest_keeps s script :
  ∀ this query consumer,
    let this' := run_this (makeQueryRequest s script this query consumer) in
    (requests_ this', isTransactionInstance this', readOnly this',
     datastore_databaseId this')
      = (requests_ this, isTransactionInstance this, readOnly this,
         datastore_databaseId this).
Proof.
  induction script as [|args script IH]; intros this query consumer;
    cbn [makeQueryRequest]; destruct (queryToQueryProto query); try done;
    destruct (request_ this _); try done.
  pose proof (onResultSet_this s this query consumer args) as Hthis.
  destruct (onResultSet s this query consumer args)
    as [this' emitted infos status | this' emitted query' consumer'];
    simpl in Hthis; subst this'; cbn.
  - apply parseTransactionResponse_keeps.
  - cbn zeta in IH. rewrite IH. apply parseTransactionResponse_keeps.
Qed.

(** X20.  No reading call touches the buffered mutations: whatever the
    replies, the request object after a lookup or query stream has run,
    and after [get], [runQuery] and [runAggregationQuery], has the
    buffered requests it had before, and is the same kind of request with
    the same read-only flag and database id.  [allocateIds], and [delete]
    on a request without a handle, leave the request object exactly as it
    was; the buffer grows only in [delete] with a handle. *)
Theorem reading_leaves_the_buffer_alone (this : DatastoreRequest) :
  let kept (this' : DatastoreRequest) :=
    (requests_ this', isTransactionInstance this', readOnly this',
     datastore_databaseId this')
      = (requests_ this, isTransactionInstance this, readOnly this,
         datastore_databaseId this) in
  (∀ s script consumer, kept (run_this (readStream_run s script this consumer)))
  ∧ (∀ s script consumer,
       kept (run_this (queryStream_run s script this consumer)))
  ∧ (∀ keys options script, kept (get this keys options script).1.1)
  ∧ (∀ query options script, kept (runQuery this query options script).1.1)
  ∧ (∀ query options script,
       kept (runAggregationQuery this query options script).1.1)
  ∧ (∀ key options script, (allocateIds this key options script).1.1 = this)
  ∧ (∀ keys gaxOptions script,
       truthy_handle (id this) = false →
       (delete this keys gaxOptions script).1.1 = this).
Proof.
  intros kept. subst kept. cbn beta.
  split; [|split; [|split; [|split; [|split; [|split]]]]].
  - intros. apply makeLookupRequest_keeps.
  - intros. apply makeQueryRequest_keeps.
  - intros keys options script. unfold get.
    destruct (createReadStream this keys options); [|done].
    cbn [fst]. apply makeLookupRequest_keeps.
  - intros query options script. unfold runQuery.
    destruct (runQueryStream this query options); [|done].
    cbn [fst]. apply makeQueryRequest_keeps.
  - intros query options script. unfold runAggregationQuery.
    destruct (is_expired _); [done|]. destruct (_ && _); [done|].
    destruct (queryToQueryProto _); [|done].
    destruct (throwOnTransactionErrors _ _); [|done].
    destruct (request_ _ _); [|done].
    destruct script; [done|]. cbn [fst].
    apply parseTransactionResponse_keeps.
  - intros key options script. rewrite allocateIds_closed.
    destruct (isKeyComplete key); [done|].
    by destruct (new_Array_length _).
  - intros keys gaxOptions script Hid. unfold delete. rewrite Hid.
    by destruct (request_ _ _).
Qed.

(** X21.  A transaction begins with its first read.  On a [Transaction]
    object in state [NOT_STARTED] without a handle, [get] (no consistency,
    no read time) sends the lookup with [newTransaction] in its read
    options; when the reply carries a non-empty handle the object becomes
    [IN_PROGRESS] with that handle.  From then on the composed options ask
    for no new transaction, a lookup is sent with the handle in
    [readOptions.transaction], and [delete] buffers its mutation instead
    of committing. *)
Theorem transaction_begins_with_its_first_read
    (this : DatastoreRequest) (keys : OneOrMany Key)
    (options : RunQueryStreamOptions) (h : Handle)
    (results : list ResponseResult) (entities : list Entity)
    (rest : list (CallbackArgs LookupResponse)) :
  isTransactionInstance this = true →
  state this = NOT_STARTED →
  truthy_handle (id this) = false →
  truthy_string (consistency options) = false →
  truthy_number (readTime options) = false →
  arrify keys ≠ [] →
  (0 < byteLength h)%nat →
  formatArray results (wrapNumbers options) = Return entities →
  let reply :=
    mkCallbackArgs None
      (Some (mkLookupResponse (Some h) (Some results) (Some []))) in
  let started := set_id_state (Some h) IN_PROGRESS this in
  let s :=
    mkReadStream (map keyToKeyProto (arrify keys))
      (getRequestOptions this options) options in
  get this keys options (reply :: rest)
    = (started, [lookupConfig s (map keyToKeyProto (arrify keys))],
       Callback None
         (Some (if isArray keys then Sequence entities
                else Bare (entities !! 0%nat))))
  ∧ readOptions (getRequestOptions this options)
      = Some (mkReadOptions None None None
                (Some (if readOnly this then TROReadOnly else TROEmpty))
                (Some "newTransaction"))
  ∧ readOptions (getRequestOptions started options) = None
  ∧ (∀ keys', arrify keys' ≠ [] →
       ∃ s' sent,
         createReadStream started keys' options = Return s'
         ∧ request_ started (lookupConfig s' (rs_keys s')) = Return sent
         ∧ readOptions sent
             = Some (mkReadOptions None (Some h) None None None))
  ∧ (∀ keys' gaxOptions script,
       delete started keys' gaxOptions script
         = (push_request (deleteReqOpts keys') started, [], NoCallback)).
Proof.
  intros Hinst Hst Hid Hc Ht Hk Hh Hf reply started s.
  assert (Hcode : truthy_code (consistency_code options) = false).
  { unfold consistency_code. destruct (consistency options); [|done].
    by rewrite Hc. }
  assert (Hsid : truthy_handle (id started) = true).
  { by apply (byteLength_truthy h), Nat.ltb_lt. }
  assert (Hro : readOptions (getRequestOptions this options)
                = Some (mkReadOptions None None None
                          (Some (if readOnly this then TROReadOnly else TROEmpty))
                          (Some "newTransaction"))).
  { rewrite readOptions_composed. cbn zeta. rewrite Hinst, Hst, Hc, Ht. cbn.
    unfold consistency_code, getTransactionRequest. cbn. rewrite Hid.
    destruct (consistency options) as [c|]; [|done].
    cbn in Hc. by rewrite Hc. }
  assert (Hro' : readOptions (getRequestOptions started options) = None).
  { rewrite readOptions_composed. cbn zeta. cbn [state started set_id_state].
    rewrite Hc, Ht. by rewrite andb_false_r. }
  assert (Hcreate : ∀ keys', arrify keys' ≠ [] →
            createReadStream started keys' options
              = Return (mkReadStream (map keyToKeyProto (arrify keys'))
                          (getRequestOptions started options) options)).
  { intros keys' Hk'. rewrite createReadStream_decides, (keys_decide keys' Hk').
    cbn [state started set_id_state is_expired]. rewrite Ht, Hcode.
    by rewrite !andb_false_r. }
  assert (Hs : createReadStream this keys options = Return s).
  { rewrite createReadStream_decides, (keys_decide keys Hk), Hst.
    cbn [is_expired]. rewrite Ht, Hcode. by rewrite !andb_false_r. }
  split; [|split; [exact Hro|split; [exact Hro'|split]]].
  - unfold get. rewrite Hs. unfold readStream_run. cbn [rs_keys s].
    destruct (createReadStream_request _ _ _ _
                (map keyToKeyProto (arrify keys)) Hs) as (sent & Hsent).
    cbn [makeLookupRequest]. rewrite Hsent, onLookupResponse_closed.
    unfold round_entities, nextKeys_of, deferred_of, reply.
    cbn [cb_err cb_resp found deferred mbind option_bind fmap option_fmap
         option_map lr_transaction default map length Nat.ltb Nat.leb
         rs_options s split].
    rewrite Hf. cbn [Nat.ltb Nat.leb].
    rewrite parseTransactionResponse_carries. cbn [carries_handle default].
    apply Nat.ltb_lt in Hh. rewrite Hh. cbn.
    by destruct (isArray keys).
  - intros keys' Hk'. eexists _, _. split; [by apply Hcreate|].
    unfold request_. rewrite prepareGaxRequest__closed. cbn zeta.
    cbn [reqOpts lookupConfig method rs_reqOpts rs_options rs_keys].
    rewrite (throwOnTransactionErrors_readOptions started _
               (getRequestOptions started options)) by done.
    rewrite throwOnTransactionErrors_composed, Hcode, Ht.
    destruct (in_transaction started); (split; [reflexivity|]);
      rewrite Hsid; cbn; unfold readOptions_or_empty;
      destruct (truthy_string (datastore_databaseId started)); cbn;
      by rewrite Hro'.
  - intros keys' gaxOptions script. unfold delete. by rewrite Hsid.
Qed.

End RequestObject.

(** ** Queries on the wire and their results *)

Section QueriesOnTheWire.
Context `{EntityCodec}.

(** X22.  What a query stream sends first.  When [runQueryStream] returns
    a stream and the query translates, reading the stream sends a
    [runQuery] request that holds the translated query, the namespace of
    the query as its partition when the namespace is a non-empty string and
    no partition otherwise, the caller's explain options when given, the
    configured database id, the caller's call options, and no keys, no
    mutations and no commit mode. *)
Theorem query_request_on_the_wire
    (this : DatastoreRequest) (q : Query QueryBody)
    (options : RunQueryStreamOptions) (s : QueryStream)
    (queryProto : QueryProto)
    (script : list (CallbackArgs RunQueryResponse)) (consumer : Consumer) :
  runQueryStream this q options = Return s →
  queryToQueryProto q = Return queryProto →
  ∃ cfg sent,
    run_rpcs (queryStream_run s script this consumer) !! 0%nat = Some cfg
    ∧ method cfg = "runQuery"
    ∧ gaxOpts cfg = gaxOptions options
    ∧ request_ this cfg = Return sent
    ∧ query sent = Some queryProto
    ∧ partitionId sent
        = (if truthy_string (namespace q) then namespace q else None)
    ∧ explainOptions sent
        = (if truthy_object (opt_explainOptions options)
           then opt_explainOptions options else None)
    ∧ databaseId sent
        = (if truthy_string (datastore_databaseId this)
           then datastore_databaseId this else None)
    ∧ keys sent = None ∧ mutations sent = None ∧ mode sent = None
    ∧ aggregationQuery sent = None.
Proof.
  intros Hs Hq.
  assert (Hok : throwOnTransactionErrors this (getQueryOptions this q options)
                = Return tt).
  { unfold runQueryStream in Hs.
    destruct (checkExpired this); [|done]. cbn [rbind] in Hs.
    destruct (throwOnReadTimeAndConsistency options); [|done].
    cbn [rbind] in Hs.
    destruct (throwOnTransactionErrors this _) as [[]|]; done. }
  assert (s = mkQueryStream q (getQueryOptions this q options) options)
    as ->.
  { rewrite runQueryStream_decides in Hs.
    repeat match type of Hs with
           | (if ?b then _ else _) = _ => destruct b; [done|]
           end.
    by injection Hs as <-. }
  set (s := mkQueryStream _ _ _).
  destruct (request__ok this (runQueryConfig s queryProto) _ Hok)
    as (sent & Hsent); [reflexivity|].
  exists (runQueryConfig s queryProto), sent.
  split; [by apply (makeQueryRequest_first s script this q consumer
                      queryProto sent)|].
  split; [done|]. split; [done|]. split; [done|].
  unfold request_ in Hsent. rewrite prepareGaxRequest__closed in Hsent.
  cbn in Hsent.
  destruct (throwOnTransactionErrors this _); [|done].
  injection Hsent as <-. unfold getQueryOptions.
  rewrite getRequestOptions_closed. cbn zeta.
  destruct (truthy_object (opt_explainOptions options)),
    (truthy_string (namespace q)),
    (truthy_string (datastore_databaseId this)), (truthy_handle (id this));
    cbn; repeat split; done.
Qed.

Lemma map_throwing_Return {A B} (f : A → result B) (l : list A) (l' : list B) :
  map_throwing f l = Return l' ↔ Forall2 (λ x y, f x = Return y) l l'.
Proof.
  revert l'. induction l as [|x l IH]; intros l'; cbn [map_throwing].
  - split; [intros [= <-]; constructor|by intros ->%Forall2_nil_inv_l].
  - destruct (f x) as [y|e] eqn:Hx; cbn [rbind].
    + destruct (map_throwing f l) as [ys|e] eqn:Hl; cbn [rbind].
      * split.
        -- intros [= <-]. constructor; [done|]. by apply IH.
        -- intros (y' & ys' & Hy & Hys & ->)%Forall2_cons_inv_l.
           apply IH in Hys. congruence.
      * split; [done|].
        intros (y' & ys' & Hy & Hys & ->)%Forall2_cons_inv_l.
        apply IH in Hys. congruence.
    + split; [done|].
      intros (y' & ys' & Hy & Hys & ->)%Forall2_cons_inv_l. congruence.
Qed.

Lemma map_throwing_Throw {A B} (f : A → result B) (l : list A) (x : A) (e : Error) :
  x ∈ l → f x = Throw e → ∃ e', map_throwing f l = Throw e'.
Proof.
  intros Hin Hx. induction l as [|x' l IH]; [by apply elem_of_nil in Hin|].
  cbn [map_throwing]. destruct (f x') as [y|e'] eqn:Hx'; [|by exists e'].
  cbn [rbind]. apply elem_of_cons in Hin as [->|Hin]; [congruence|].
  destruct (IH Hin) as (e' & ->). by exists e'.
Qed.

(** X23.  The results of an aggregation query.  When the call passes its
    checks (the state is not [EXPIRED], read time and consistency are not
    both given, inside a transaction neither a read time nor a consistency
    that composes a truthy code is given, and the query translates), it
    issues one [runAggregationQuery] RPC holding the translated query and
    the aggregations, and records the handle of the reply.  A reply
    without a batch is handed to the callback with its error, if any, and
    no results.  A reply with a batch is handed to the callback, with its
    error, if any, exactly when every aggregation result has aggregate
    properties and [decodeValueProto] accepts every value: the results
    are then one per aggregation result, in order, with the same property
    names in the same order and every value decoded.  Otherwise the
    exception escapes from the handler of the reply and the callback is
    not called. *)
Theorem aggregation_results_are_decoded
    (this : DatastoreRequest) (q : AggregateQuery)
    (options : RunQueryStreamOptions) (queryProto : QueryProto)
    (args : CallbackArgs RunAggregationQueryResponse)
    (rest : list (CallbackArgs RunAggregationQueryResponse)) :
  is_expired (state this) = false →
  truthy_number (readTime options) && truthy_string (consistency options)
    = false →
  in_transaction this && truthy_code (consistency_code options) = false →
  in_transaction this && truthy_number (readTime options) = false →
  queryToQueryProto (aq_query q) = Return queryProto →
  ∃ cfg outcome,
    runAggregationQuery this q options (args :: rest)
      = (parseTransactionResponse this (ra_transaction <$> cb_resp args),
         [cfg], outcome)
    ∧ method cfg = "runAggregationQuery"
    ∧ aggregationQuery (reqOpts cfg)
      = Some (mkAggregationQueryOptions queryProto (aq_toProto q))
    ∧ gaxOpts cfg = gaxOptions options
    ∧ (cb_resp args ≫= ra_batch = None →
       outcome
       = Callback (cb_err args)
           (Some ([], getInfoFromStats (cb_resp args ≫= ra_explainMetrics))))
    ∧ (∀ b, cb_resp args ≫= ra_batch = Some b →
         (aggregationResults b = None → outcome = EscapedLater TypeError)
         ∧ ∀ rows, aggregationResults b = Some rows →
             (∀ results,
                outcome
                = Callback (cb_err args)
                    (Some (results,
                           getInfoFromStats
                             (cb_resp args ≫= ra_explainMetrics)))
                ↔ Forall2
                    (λ row result,
                       ∃ props,
                         aggregateProperties row = Some props
                         ∧ Forall2
                             (λ kv kv' : string * _,
                                kv'.1 = kv.1
                                ∧ decodeValueProto kv.2 = Return kv'.2)
                             props result)
                    rows results)
             ∧ ((∃ row, row ∈ rows
                        ∧ (aggregateProperties row = None
                           ∨ ∃ props name value e,
                               aggregateProperties row = Some props
                               ∧ (name, value) ∈ props
                               ∧ decodeValueProto value = Throw e)) →
                ∃ e, outcome = EscapedLater e)).
Proof.
  intros Hst Hboth Hc Ht Hq.
  assert (Hok : throwOnTransactionErrors this
                  (getQueryOptions this (aq_query q) options) = Return tt).
  { rewrite throwOnTransactionErrors_query, throwOnTransactionErrors_composed.
    destruct (in_transaction this); [|done]. cbn in Hc, Ht.
    by rewrite Hc, Ht. }
  destruct (request__ok this (aggregationConfig this q options queryProto)
              _ Hok) as (sent & Hsent); [reflexivity|].
  eexists (aggregationConfig this q options queryProto), _.
  split.
  { unfold runAggregationQuery. rewrite Hst, Hboth, Hq, Hok.
    fold (aggregationConfig this q options queryProto). rewrite Hsent.
    reflexivity. }
  split; [done|]. split; [done|]. split; [done|]. split.
  { by intros ->. }
  intros b ->. unfold decodeAggregationResults. split.
  { by intros ->. }
  intros rows ->.
  set (decode_row := λ aggregationResult : AggregationResult, _).
  assert (Hrow : ∀ row result,
            decode_row row = Return result
            ↔ ∃ props,
                aggregateProperties row = Some props
                ∧ Forall2
                    (λ kv kv' : string * _,
                       kv'.1 = kv.1 ∧ decodeValueProto kv.2 = Return kv'.2)
                    props result).
  { intros row result. subst decode_row. cbn beta.
    destruct (aggregateProperties row) as [props|].
    - rewrite map_throwing_Return. split.
      + intros Hall. exists props. split; [done|].
        eapply Forall2_impl; [exact Hall|].
        intros [name value] [name' value']. cbn.
        destruct (decodeValueProto value); cbn [rbind]; [|done].
        by intros [= -> ->].
      + intros (props' & [= <-] & Hall).
        eapply Forall2_impl; [exact Hall|].
        intros [name value] [name' value']. cbn. by intros [-> ->].
    - split; [done|]. by intros (props & ? & _). }
  split.
  - intros results. split.
    + destruct (map_throwing decode_row rows) as [decoded|e] eqn:Hdecoded;
        [|done].
      intros [= <-]. apply map_throwing_Return in Hdecoded.
      eapply Forall2_impl; [exact Hdecoded|]. intros row result. apply Hrow.
    + intros Hall.
      assert (Hdecoded : map_throwing decode_row rows = Return results).
      { apply map_throwing_Return. eapply Forall2_impl; [exact Hall|].
        intros row result. apply Hrow. }
      by rewrite Hdecoded.
  - intros (row & Hin & Hbad).
    assert (Hthrows : ∃ e, decode_row row = Throw e).
    { subst decode_row. cbn beta.
      destruct Hbad as [->|(props & name & value & e & -> & Hkv & Hvalue)].
      - by exists TypeError.
      - apply (map_throwing_Throw _ props (name, value) e Hkv).
        cbn. by rewrite Hvalue. }
    destruct Hthrows as (e & He).
    destruct (map_throwing_Throw decode_row rows row e Hin He) as (e' & ->).
    by exists e'.
Qed.

End QueriesOnTheWire.

(** ** Explain metrics *)

Section ExplainMetrics.
Variables Struct JSONValue Obj : Type.
Variable decodeStruct : Struct → JSONValue.
Variable parseInt : string → Metrics.JSNumber.

Lemma decode_stat_absent (x : option (Metrics.Stat Obj)) :
  Metrics.decode_stat parseInt x = None ↔ Metrics.truthy_stat x = false.
Proof.
  unfold Metrics.decode_stat. destruct x as [v|]; [|done].
  by destruct (Metrics.truthy_stat (Some v)).
Qed.

(** X24.  The explain metrics of a reply.  The info carries explain
    metrics exactly when the reply has a list of used indexes or execution
    statistics.  The used indexes are decoded one for one, in order.  Of
    the execution statistics each of [resultsReturned],
    [executionDuration] and [readOperations] is reported exactly when it is
    truthy: a non-empty string is reported as the number [parseInt] reads
    from it, a number other than 0 and an object are reported as they are,
    and the number 0, an empty string and an absent statistic are left
    out. *)
Theorem explain_metrics_are_decoded
    (resp : option (option (Metrics.IExplainMetrics Struct Obj))) :
  (Metrics.getInfoFromStats decodeStruct parseInt resp = None
   ↔ Metrics.indexes_of resp = None ∧ Metrics.stats_of resp = None)
  ∧ (∀ decoded,
       Metrics.getInfoFromStats decodeStruct parseInt resp = Some decoded →
       option_map Metrics.ps_indexesUsed (Metrics.em_planSummary decoded)
         = option_map (map decodeStruct) (Metrics.indexes_of resp)
       ∧ option_map Metrics.es_resultsReturned
           (Metrics.em_executionStats decoded)
           = option_map
               (λ st, Metrics.decode_stat parseInt (Metrics.resultsReturned st))
               (Metrics.stats_of resp)
       ∧ option_map Metrics.es_executionDuration
           (Metrics.em_executionStats decoded)
           = option_map
               (λ st,
                  Metrics.decode_stat parseInt (Metrics.executionDuration st))
               (Metrics.stats_of resp)
       ∧ option_map Metrics.es_readOperations
           (Metrics.em_executionStats decoded)
           = option_map
               (λ st, Metrics.decode_stat parseInt (Metrics.readOperations st))
               (Metrics.stats_of resp)
       ∧ option_map Metrics.es_debugStats (Metrics.em_executionStats decoded)
           = option_map
               (λ st, option_map decodeStruct (Metrics.debugStats st))
               (Metrics.stats_of resp))
  ∧ (∀ s, s ≠ "" →
       Metrics.decode_stat parseInt (Some (Metrics.StatString (Obj:=Obj) s))
         = Some (Metrics.DecodedNumber (parseInt s)))
  ∧ (∀ z, z ≠ 0 →
       Metrics.decode_stat parseInt
         (Some (Metrics.StatNumber (Obj:=Obj) (Metrics.Num z)))
         = Some (Metrics.DecodedNumber (Metrics.Num z)))
  ∧ (∀ o : Obj,
       Metrics.decode_stat parseInt (Some (Metrics.StatObject o))
         = Some (Metrics.DecodedObject o))
  ∧ Metrics.decode_stat parseInt
      (Some (Metrics.StatNumber (Obj:=Obj) (Metrics.Num 0))) = None
  ∧ Metrics.decode_stat parseInt
      (Some (Metrics.StatNumber (Obj:=Obj) Metrics.NaN)) = None
  ∧ Metrics.decode_stat parseInt (Some (Metrics.StatString (Obj:=Obj) ""))
      = None
  ∧ Metrics.decode_stat (Obj:=Obj) parseInt None = None.
Proof.
  split; [|split; [|split; [|split; [|repeat split]]]].
  - unfold Metrics.getInfoFromStats.
    destruct resp as [[[[[[indexes|]]|] [stats|]]|]|]; cbn;
      (split; [intros Hnone|intros [Hi Hs]]); done.
  - intros decoded. unfold Metrics.getInfoFromStats.
    destruct resp as [[[[[[indexes|]]|] [stats|]]|]|]; cbn; try done;
      intros [= <-]; cbn; repeat split; try done;
      by destruct (Metrics.debugStats stats).
  - intros s Hs. cbn. by destruct (String.eqb_spec s "").
  - intros z Hz. cbn. by destruct (Z.eqb_spec z 0).
Qed.

End ExplainMetrics.

(** ** The further properties on sample runs *)

Section MoreRuns.
Existing Instance stringCodec.

Lemma transactions_reject_consistency_witness :
  in_transaction runningTransaction = true
  ∧ state runningTransaction ≠ EXPIRED
  ∧ truthy_code (consistency_code strongOptions) = true
  ∧ truthy_number (readTime strongOptions) = false
  ∧ createReadStream runningTransaction (Single "k") strongOptions
      = Throw (ErrorMsg readConsistencyInTransactionError).
Proof.
  split; [reflexivity|]. split; [discriminate|].
  split; [reflexivity|]. split; [reflexivity|].
  destruct (@transactions_reject_consistency_and_read_time stringCodec
              runningTransaction strongOptions eq_refl ltac:(discriminate))
    as [Hconsistency _].
  destruct (Hconsistency eq_refl eq_refl) as (Hstream & _).
  apply (Hstream (Single "k")). discriminate.
Defined.

Lemma reading_streams_are_created_witness :
  state runningTransaction ≠ EXPIRED
  ∧ runQueryStream runningTransaction someQuery noOptions
    = Return (mkQueryStream someQuery
                (getQueryOptions runningTransaction someQuery noOptions)
                noOptions).
Proof.
  split; [discriminate|].
  destruct (@reading_streams_are_created_exactly_when stringCodec
              runningTransaction noOptions) as [Hquery _].
  apply (Hquery someQuery).
  split; [|reflexivity].
  split; [discriminate|]. split; [reflexivity|].
  intros _. split; reflexivity.
Defined.

Lemma consistency_is_composed_witness :
  consistency inheritedOptions = Some "Constructor"
  ∧ toLowerCase "Constructor" = "constructor"
  ∧ in_transaction runningTransaction = true
  ∧ (∃ ro, readOptions (getRequestOptions runningTransaction inheritedOptions)
             = Some ro
           ∧ readConsistency ro = Some (Inherited "constructor"))
  ∧ runQueryStream runningTransaction someQuery inheritedOptions
    = Throw (ErrorMsg readConsistencyInTransactionError).
Proof.
  split; [reflexivity|]. split; [reflexivity|]. split; [reflexivity|].
  destruct (@consistency_is_composed_by_its_lowercase_name stringCodec
              runningTransaction inheritedOptions "Constructor" eq_refl
              ltac:(discriminate))
    as (_ & _ & Hinherited & _).
  destruct (Hinherited (or_introl eq_refl)) as [Hcomposed Hrejected].
  split; [exact Hcomposed|].
  apply (Hrejected eq_refl ltac:(discriminate) eq_refl someQuery).
Defined.

Lemma new_transaction_is_requested_witness :
  isTransactionInstance newTransaction_ = true
  ∧ state newTransaction_ = NOT_STARTED
  ∧ ∃ ro, readOptions (getRequestOptions newTransaction_ noOptions) = Some ro
          ∧ newTransaction ro = Some TROEmpty
          ∧ consistencyType ro = Some "newTransaction".
Proof.
  split; [reflexivity|]. split; [reflexivity|].
  destruct (@new_transaction_is_requested_exactly_when_not_started
              stringCodec newTransaction_ noOptions) as [Hnew _].
  apply (Hnew eq_refl eq_refl).
Defined.

Lemma getTransactionRequest_precedence_witness :
  getTransactionRequest runningTransaction (mkRunOptions None true None)
    = TROReadOnly.
Proof.
  destruct (@getTransactionRequest_precedence stringCodec runningTransaction
              (mkRunOptions None true None)) as (_ & Hplain & _).
  destruct (Hplain eq_refl) as [HreadOnly _].
  apply HreadOnly. left. reflexivity.
Defined.

Lemma prepared_commit_mode_witness :
  ∃ sent,
    prepareGaxRequest_ runningTransaction commitRequest = Return sent
    ∧ mode sent = Some "TRANSACTIONAL"
    ∧ transaction sent = Some (HString "tx-1").
Proof.
  eexists. split; [reflexivity|].
  destruct (@prepared_commit_mode_follows_the_handle stringCodec
              runningTransaction commitRequest _ eq_refl) as [Hcommit _].
  apply (Hcommit eq_refl).
Defined.

Lemma prepared_reads_carry_the_handle_witness :
  ∃ sent,
    prepareGaxRequest_ runningTransaction kLookup = Return sent
    ∧ readOptions sent
        = Some (mkReadOptions None (Some (HString "tx-1")) None None None).
Proof.
  eexists. split; [reflexivity|].
  destruct (@prepared_reads_carry_the_handle stringCodec runningTransaction
              kLookup) as [_ Hsent].
  destruct (Hsent _ eq_refl) as [HreadOptions _].
  apply HreadOptions.
Defined.

Lemma lookup_stream_issues_its_rounds_witness :
  createReadStream datastoreClient (Many ["A"; "B"; "C"]) noOptions
    = Return abcStream
  ∧ ∃ cfg,
      run_rpcs (readStream_run abcStream abcScript datastoreClient None)
        !! 0%nat = Some cfg
      ∧ method cfg = "lookup"
      ∧ keys (reqOpts cfg) = Some ["A"; "B"; "C"].
Proof.
  split; [reflexivity|].
  destruct (@lookup_stream_issues_its_rounds stringCodec datastoreClient
              (Many ["A"; "B"; "C"]) noOptions abcStream eq_refl)
    as [Hfirst _].
  destruct (Hfirst abcScript None) as (cfg & Hcfg & Hmethod & Hkeys & _).
  exists cfg. split; [exact Hcfg|]. split; [exact Hmethod|exact Hkeys].
Defined.

Lemma lookup_stream_ended_by_its_consumer_witness :
  run_emitted (readStream_run abcStream abcScript datastoreClient None)
    = ["A"; "B"; "C"]
  ∧ run_status (readStream_run abcStream abcScript datastoreClient (Some 2%nat))
    = ConsumerEnded.
Proof.
  split; [reflexivity|].
  destruct (@lookup_stream_ended_by_its_consumer stringCodec abcStream
              abcScript datastoreClient 2%nat) as (_ & _ & _ & Hended).
  apply Hended. cbn. lia.
Defined.

Lemma lookup_errors_pass_through_witness :
  createReadStream datastoreClient (Single "k") noOptions = Return kStream
  ∧ run_status (readStream_run kStream [failedReply] datastoreClient None)
    = Destroyed (ErrorMsg "unavailable")
  ∧ get datastoreClient (Single "k") noOptions [failedReply]
    = (datastoreClient, [kLookup],
       Callback (Some (ErrorMsg "unavailable")) None).
Proof.
  split; [reflexivity|]. split; [reflexivity|].
  destruct (@lookup_errors_pass_through stringCodec datastoreClient
              (Single "k") noOptions kStream [failedReply] eq_refl)
    as (_ & _ & Hget).
  apply (Hget (ErrorMsg "unavailable")). reflexivity.
Defined.

Lemma query_rounds_keep_the_filters_witness :
  runQueryConfig someStream continuedQuery
    ∈ run_rpcs (makeQueryRequest someStream [notFinishedReply] datastoreClient
                  someQuery None)
  ∧ ∃ query' queryProto,
      queryToQueryProto query' = Return queryProto
      ∧ runQueryConfig someStream continuedQuery
        = mkRequestConfig "DatastoreClient" "runQuery"
            (set_query (Some queryProto) (qs_sharedQueryOpts someStream))
            (gaxOptions (qs_options someStream))
      ∧ namespace query' = namespace someQuery
      ∧ body query' = body someQuery.
Proof.
  assert (Hin : runQueryConfig someStream continuedQuery
                  ∈ run_rpcs (makeQueryRequest someStream [notFinishedReply]
                                datastoreClient someQuery None)).
  { apply list_elem_of_further, list_elem_of_here. }
  split; [exact Hin|].
  apply (@query_rounds_keep_the_filters stringCodec someStream
           [notFinishedReply] datastoreClient someQuery None _ Hin).
Defined.

Lemma query_info_is_emitted_witness :
  let run := queryStream_run someStream [finishedReply] datastoreClient None in
  runQueryStream datastoreClient someQuery noOptions = Return someStream
  ∧ run_status run = Ended
  ∧ run_infos run
    = [mkInfo (Some "cursor-2") (Some "NO_MORE_RESULTS") None].
Proof.
  split; [reflexivity|]. split; [reflexivity|].
  destruct (@query_info_is_emitted_once_at_the_end stringCodec datastoreClient
              someQuery noOptions someStream [finishedReply] None eq_refl)
    as (_ & _ & Hended).
  destruct (Hended eq_refl) as (n & args & Hlength & Hreply & _ & Hinfos & _).
  destruct n as [|n]; [|discriminate Hlength].
  injection Hreply as <-. exact Hinfos.
Defined.

Lemma query_stream_ends_witness :
  let run := queryStream_run someStream [finishedReply] datastoreClient None in
  is_final_reply finishedReply = true
  ∧ query_round_entities someStream finishedReply = Return ["e4"]
  ∧ run_status run = Ended.
Proof.
  split; [reflexivity|]. split; [reflexivity|].
  destruct (@query_stream_ends_on_the_final_reply stringCodec someStream
              [finishedReply] datastoreClient) as [Hended _].
  apply Hended. exists 0%nat, finishedReply, ["e4"]. repeat split.
Defined.

Lemma query_stream_ended_by_its_consumer_witness :
  run_emitted
    (queryStream_run someStream [notFinishedReply] datastoreClient None)
    = threeEntities
  ∧ run_status
      (queryStream_run someStream [notFinishedReply] datastoreClient
         (Some 2%nat))
    = ConsumerEnded.
Proof.
  split; [reflexivity|].
  destruct (@query_stream_ended_by_its_consumer stringCodec someStream
              [notFinishedReply] datastoreClient 2%nat)
    as (_ & _ & _ & Hended).
  apply Hended. cbn. lia.
Defined.

Lemma untranslatable_queries_witness :
  @runQueryStream pickyCodec pickyClient badQuery noOptions
    = Return pickyStream
  ∧ @queryToQueryProto pickyCodec badQuery
    = Throw (ErrorMsg "invalid limit")
  ∧ @runQuery pickyCodec pickyClient badQuery noOptions []
    = (pickyClient, [], Callback (Some (ErrorMsg "invalid limit")) None).
Proof.
  split; [reflexivity|]. split; [reflexivity|].
  destruct (@untranslatable_queries_fail_without_an_rpc pickyCodec
              pickyClient badQuery noOptions) as [Hfails _].
  apply (Hfails pickyStream (ErrorMsg "invalid limit") [] None);
    reflexivity.
Defined.

Lemma allocateIds_asks_for_copies_witness :
  isKeyComplete "" = false
  ∧ (∃ cfg protos outcome,
       allocateIds datastoreClient "" (Allocations (Integer 3)) []
         = (datastoreClient, [cfg], outcome)
       ∧ keys (reqOpts cfg) = Some protos
       ∧ length protos = 3%nat)
  ∧ allocateIds datastoreClient "" (Allocations (Integer (-1))) []
    = (datastoreClient, [], Thrown RangeError).
Proof.
  split; [reflexivity|].
  destruct (@allocateIds_asks_for_copies_of_the_key stringCodec
              datastoreClient "" (Allocations (Integer 3)) [])
    as (_ & Hcopies & _).
  destruct (Hcopies 3%nat eq_refl)
    as (cfg & protos & outcome & Hcall & _ & _ & Hkeys & Hlength & _).
  { right. exists 3. split; [reflexivity|]. split; [lia|reflexivity]. }
  split.
  - exists cfg, protos, outcome. split; [exact Hcall|].
    split; [exact Hkeys|exact Hlength].
  - reflexivity.
Defined.

Lemma merge_commits_after_every_fetch_witness :
  tx_run quietTransaction = None
  ∧ first_rejection (tx_fetches quietTransaction) = None
  ∧ merge_outcome (merge (Single someEntity) quietTransaction)
    = Callback None (Some tt).
Proof.
  split; [reflexivity|]. split; [reflexivity|].
  destruct (@merge_commits_after_every_fetch stringCodec (Single someEntity)
              quietTransaction) as (_ & _ & Hcommitted & _).
  apply (Hcommitted tt). repeat split. cbn. lia.
Defined.

Lemma merge_saves_the_callers_data_witness :
  tx_run lateTransaction = None
  ∧ first_rejection (tx_fetches lateTransaction)
    = Some (ErrorMsg "fetch failed")
  ∧ mkEntityObject (eo_key secondEntity)
      (Some (assign None (eo_data secondEntity))) (Some "upsert")
    ∈ log_saved (merge_log (merge twoEntities lateTransaction)).
Proof.
  split; [reflexivity|]. split; [reflexivity|].
  destruct (@merge_saves_the_callers_data_over_the_stored stringCodec
              twoEntities lateTransaction) as (_ & Hsaved & _).
  apply (Hsaved 1%nat None secondEntity eq_refl).
  - apply list_elem_of_further, list_elem_of_here.
  - reflexivity.
Defined.

Lemma reading_leaves_the_buffer_alone_witness :
  truthy_handle (id datastoreClient) = false
  ∧ (delete datastoreClient (Single "k") None []).1.1 = datastoreClient.
Proof.
  split; [reflexivity|].
  destruct (@reading_leaves_the_buffer_alone stringCodec datastoreClient)
    as (_ & _ & _ & _ & _ & _ & Hdelete).
  apply (Hdelete (Single "k") None []). reflexivity.
Defined.

Lemma transaction_begins_witness :
  let started :=
    set_id_state (Some (HString "tx-9")) IN_PROGRESS newTransaction_ in
  isTransactionInstance newTransaction_ = true
  ∧ state newTransaction_ = NOT_STARTED
  ∧ (get newTransaction_ (Single "k") noOptions [beginReply]).1.1 = started
  ∧ delete started (Single "k") None []
    = (push_request (deleteReqOpts (Single "k")) started, [], NoCallback).
Proof.
  split; [reflexivity|]. split; [reflexivity|].
  destruct (@transaction_begins_with_its_first_read stringCodec
              newTransaction_ (Single "k") noOptions (HString "tx-9")
              ["found"] ["found"] [] eq_refl eq_refl eq_refl eq_refl eq_refl
              ltac:(discriminate) ltac:(cbn; lia) eq_refl)
    as (Hget & _ & _ & _ & Hdelete).
  split; [exact (f_equal (λ r, r.1.1) Hget)|].
  apply (Hdelete (Single "k") None []).
Defined.

Lemma query_request_on_the_wire_witness :
  runQueryStream datastoreClient namespacedQuery noOptions
    = Return namespacedStream
  ∧ ∃ cfg sent,
      run_rpcs (queryStream_run namespacedStream [] datastoreClient None)
        !! 0%nat = Some cfg
      ∧ request_ datastoreClient cfg = Return sent
      ∧ query sent = Some namespacedQuery
      ∧ partitionId sent = Some "ns".
Proof.
  split; [reflexivity|].
  destruct (@query_request_on_the_wire stringCodec datastoreClient
              namespacedQuery noOptions namespacedStream namespacedQuery []
              None eq_refl eq_refl)
    as (cfg & sent & Hfirst & _ & _ & Hsent & Hquery & Hpartition & _).
  exists cfg, sent. split; [exact Hfirst|]. split; [exact Hsent|].
  split; [exact Hquery|exact Hpartition].
Defined.

Lemma aggregation_results_witness :
  is_expired (state datastoreClient) = false
  ∧ queryToQueryProto (aq_query countQuery) = Return someQuery
  ∧ (runAggregationQuery datastoreClient countQuery noOptions [countReply]).2
    = Callback None (Some (countDecoded, mkInfo None None None)).
Proof.
  split; [reflexivity|]. split; [reflexivity|].
  destruct (@aggregation_results_are_decoded stringCodec datastoreClient
              countQuery noOptions someQuery countReply [] eq_refl eq_refl
              eq_refl eq_refl eq_refl)
    as (cfg & outcome & Hcall & _ & _ & _ & _ & Hbatch).
  rewrite Hcall. cbn [snd].
  destruct (Hbatch (mkAggregationBatch (Some countResults)) eq_refl)
    as [_ Hrows].
  destruct (Hrows countResults eq_refl) as [Hdecoded _].
  apply (Hdecoded countDecoded).
  constructor; [|constructor].
  exists [("total", 3); ("sum", 12)]. split; [reflexivity|].
  repeat constructor.
Defined.

End MoreRuns.

Lemma explain_metrics_are_decoded_witness :
  Metrics.decode_stat (Obj:=unit) parseFortyTwo
    (Some (Metrics.StatString "42"))
    = Some (Metrics.DecodedNumber (Metrics.Num 42)).
Proof.
  destruct (explain_metrics_are_decoded string string unit (λ s, s)
              parseFortyTwo None) as (_ & _ & Hstring & _).
  apply (Hstring "42"). discriminate.
Defined.
